(** * Google-API-Demo: the OAuth/PKCE handshake, the session and token stores
      of the two Express backends, and the photo-picker polling of the
      clients, embedded from the JavaScript sources.

    Conventions of the embedding.
    - A JavaScript string is the Rocq [string] of its UTF-8 bytes.
    - A JSON field that may be missing is an [option]; [None] is
      JavaScript's [undefined].
    - [Date.now()] is an integer number of milliseconds, a [Z].
    - A module-level [Map] keyed by strings is a [gmap string _].
    - Values drawn from the platform (random bytes, UUIDs, the clock, the
      answers of the identity provider) are arguments of the handlers. *)

From stdpp Require Import gmap strings list fin_maps pretty.
From Equations Require Import Equations.
From Stdlib Require Import ZArith Lia Ascii String.
From Stdlib.Strings Require Import Byte.

Open Scope string_scope.

(* ===================================================================== *)
(** * JavaScript primitives used by the sources                           *)
(* ===================================================================== *)

Module JS.

(** Truthiness of a possibly missing string: [undefined] and [""] are
    falsy, every other string is truthy. *)
Definition truthy (v : option string) : bool :=
  match v with
  | Some s => negb (String.eqb s "")
  | None => false
  end.

(** [a || b] on a possibly missing string [a] and a string [b]. *)
Definition or_else (a : option string) (b : string) : string :=
  match a with
  | Some s => if String.eqb s "" then b else s
  | None => b
  end.

(** A value interpolated in a template literal. *)
Definition interp (v : option string) : string :=
  match v with
  | Some s => s
  | None => "undefined"
  end.

(** [s.replace(/c/g, r)] for a one-character pattern [c]. *)
Fixpoint replaceAll (c : ascii) (r : string) (s : string) : string :=
  match s with
  | EmptyString => EmptyString
  | String x s' =>
      if Ascii.eqb x c then r ++ replaceAll c r s'
      else String x (replaceAll c r s')
  end.

(** [s.startsWith(p)]. *)
Fixpoint startsWith (s p : string) {struct p} : bool :=
  match p with
  | EmptyString => true
  | String a p' =>
      match s with
      | EmptyString => false
      | String b s' => Ascii.eqb a b && startsWith s' p'
      end
  end.

(** [s.split(sep)] for a one-character separator: the pieces between
    the separators, an empty piece included. *)
Fixpoint split (sep : ascii) (s : string) : list string :=
  match s with
  | EmptyString => [EmptyString]
  | String x s' =>
      if Ascii.eqb x sep then EmptyString :: split sep s'
      else match split sep s' with
           | p :: ps => String x p :: ps
           | [] => [String x EmptyString]
           end
  end.

(** [s.includes(p)]. *)
Fixpoint includes (s p : string) : bool :=
  startsWith s p ||
  match s with
  | EmptyString => false
  | String _ s' => includes s' p
  end.

(** A token without a space. *)
Fixpoint spaceless (s : string) : bool :=
  match s with
  | EmptyString => true
  | String x s' => negb (Ascii.eqb x " ") && spaceless s'
  end.

End JS.

(* ===================================================================== *)
(** * PKCE challenge generator (backend/server.js 23-33, the mobile
      backend 47-57, app/(tabs)/index.tsx 810-815)                        *)
(* ===================================================================== *)

Module Pkce.

(** The two alphabets of RFC 4648. *)
Definition alphabet_std : string :=
  "ABCDEFGHIJKLMNOPQRSTUVWXYZabcdefghijklmnopqrstuvwxyz0123456789+/".
Definition alphabet_url : string :=
  "ABCDEFGHIJKLMNOPQRSTUVWXYZabcdefghijklmnopqrstuvwxyz0123456789-_".

Definition digit (alphabet : string) (i : N) : ascii :=
  match String.get (N.to_nat i) alphabet with
  | Some c => c
  | None => "?"%char
  end.

(** The four 6-bit groups of a 24-bit block [a b c]. *)
Definition sextet1 (a : byte) : N := N.shiftr (Byte.to_N a) 2.
Definition sextet2 (a b : byte) : N :=
  N.lor (N.shiftl (N.land (Byte.to_N a) 3) 4) (N.shiftr (Byte.to_N b) 4).
Definition sextet3 (b c : byte) : N :=
  N.lor (N.shiftl (N.land (Byte.to_N b) 15) 2) (N.shiftr (Byte.to_N c) 6).
Definition sextet4 (c : byte) : N := N.land (Byte.to_N c) 63.

Definition zero : byte := x00.

(** [buffer.toString("base64")]: the standard alphabet, padded with
    ["="] to a multiple of four characters. *)
Fixpoint toString_base64 (buffer : list byte) : string :=
  match buffer with
  | [] => ""
  | [a] =>
      String (digit alphabet_std (sextet1 a))
        (String (digit alphabet_std (sextet2 a zero)) "==")
  | [a; b] =>
      String (digit alphabet_std (sextet1 a))
        (String (digit alphabet_std (sextet2 a b))
           (String (digit alphabet_std (sextet3 b zero)) "="))
  | a :: b :: c :: rest =>
      String (digit alphabet_std (sextet1 a))
        (String (digit alphabet_std (sextet2 a b))
           (String (digit alphabet_std (sextet3 b c))
              (String (digit alphabet_std (sextet4 c))
                 (toString_base64 rest))))
  end.

(** [.replace(/\+/g, "-").replace(/\//g, "_").replace(/=/g, "")]. *)
Definition urlsafe (s : string) : string :=
  JS.replaceAll "="%char ""
    (JS.replaceAll "/"%char "_" (JS.replaceAll "+"%char "-" s)).

(** [function base64urlencode(buffer)]. *)
Definition base64urlencode (buffer : list byte) : string :=
  urlsafe (toString_base64 buffer).

(** The reference encoding, written from RFC 4648 section 5: the
    URL-safe alphabet, no padding. *)
Fixpoint base64url_reference (buffer : list byte) : string :=
  match buffer with
  | [] => ""
  | [a] =>
      String (digit alphabet_url (sextet1 a))
        (String (digit alphabet_url (sextet2 a zero)) "")
  | [a; b] =>
      String (digit alphabet_url (sextet1 a))
        (String (digit alphabet_url (sextet2 a b))
           (String (digit alphabet_url (sextet3 b zero)) ""))
  | a :: b :: c :: rest =>
      String (digit alphabet_url (sextet1 a))
        (String (digit alphabet_url (sextet2 a b))
           (String (digit alphabet_url (sextet3 b c))
              (String (digit alphabet_url (sextet4 c))
                 (base64url_reference rest))))
  end.

(** The UTF-8 bytes of a string. *)
Definition utf8 (s : string) : list byte := list_byte_of_string s.

Section WithDigest.

(** [crypto.createHash("sha256")] of Node and
    [Crypto.CryptoDigestAlgorithm.SHA256] of expo-crypto: the SHA-256
    digest, 32 bytes, supplied by the platform. *)
Variable sha256 : list byte -> list byte.

(** [function generateCodeVerifier()], from the 32 random bytes. *)
Definition generateCodeVerifier (randomBytes : list byte) : string :=
  base64urlencode randomBytes.

(** [function generateCodeChallenge(verifier)] of both backends. *)
Definition generateCodeChallenge (verifier : string) : string :=
  base64urlencode (sha256 (utf8 verifier)).

(** [Crypto.digestStringAsync(SHA256, verifier, {encoding: BASE64})]. *)
Definition digestStringAsync_base64 (verifier : string) : string :=
  toString_base64 (sha256 (utf8 verifier)).

(** [GoogleApiService.generateCodeChallenge] of the client. *)
Definition generateCodeChallenge_client (verifier : string) : string :=
  let digest := digestStringAsync_base64 verifier in
  urlsafe digest.

(** The derivation as the specification words it: base64url of the
    SHA-256 digest of the verifier's UTF-8 bytes. *)
Definition deriveChallenge_reference (verifier : string) : string :=
  base64url_reference (sha256 (utf8 verifier)).

End WithDigest.

End Pkce.


(* ===================================================================== *)
(** * The identity provider and the platform, as the handlers see them    *)
(* ===================================================================== *)

Module Provider.

(** The form posted to [https://oauth2.googleapis.com/token]. *)
Record TokenRequest := {
  client_id : option string;
  client_secret : option string;
  code : option string;
  grant_type : string;
  redirect_uri : option string;
  code_verifier : option string;
  refresh_token : option string
}.

(** [tokenResponse.data] of an accepted request. A number that may be
    missing or not a number is an [option Z]. *)
Record TokenData := {
  access_token : option string;
  new_refresh_token : option string;
  expires_in : option Z;
  scope : option string
}.

(** [error.response?.data] of a rejected request. *)
Record ErrorData := {
  error : option string;
  error_description : option string
}.

(** The error axios throws: its [message], and the body of the
    provider's answer when there was one. *)
Record AxiosError := {
  message : string;
  response_data : option ErrorData
}.

Inductive AxiosResult :=
| Resolved (data : TokenData)
| Rejected (e : AxiosError).

(** [error.response?.data?.error_description || error.message]. *)
Definition details_of (e : AxiosError) : string :=
  JS.or_else
    (match response_data e with
     | Some d => error_description d
     | None => None
     end)
    (message e).

(** [a + b * 1000] on numbers that may be NaN. *)
Definition plus_seconds (now : Z) (secs : option Z) : option Z :=
  match secs with
  | Some s => Some (now + s * 1000)%Z
  | None => None
  end.

End Provider.

(** What one synchronous stretch of a handler reads from the platform:
    the clock, a fresh UUID and fresh random bytes. *)
Record Platform := {
  now : Z;
  randomUUID : string;
  randomBytes : list byte
}.

(** [process.env] of both backends. *)
Record Env := {
  CLIENT_ID : option string;
  CLIENT_SECRET : option string;
  REDIRECT_URI : option string
}.

(** What both backends answer. *)
Inductive Body :=
| ErrorBody (error : string) (details : option string)
| UrlBody (authUrl sessionId message : string) (expiresIn : option Z)
| TokenBody (access_token refresh_token : option string)
    (expires_in : option Z) (scope : option string) (user_id : option string)
| RefreshBody (access_token : option string) (expires_in : option Z).

Record Response := { status : Z; body : Body }.

Definition json (b : Body) : Response := {| status := 200; body := b |}.
Definition fail (s : Z) (msg : string) : Response :=
  {| status := s; body := ErrorBody msg None |}.

(** An [async] handler runs to its first [await] in one stretch: it
    either answers, or posts to the token endpoint and leaves a
    continuation that runs, on the store as it is by then, when the
    provider has answered. *)
Inductive Handling (S : Type) :=
| Respond (res : Response)
| AwaitPost (req : Provider.TokenRequest)
    (k : Provider.AxiosResult -> Platform -> S -> S * Response).
Arguments Respond {S} res.
Arguments AwaitPost {S} req k.

(** A request handled with no other request in between: the answer, the
    store afterwards and the posts made to the token endpoint. *)
Definition complete {S : Type}
    (provider : Provider.TokenRequest -> Provider.AxiosResult)
    (later : Platform) (h : S * Handling S)
    : S * Response * list Provider.TokenRequest :=
  match h with
  | (st, Respond res) => (st, res, [])
  | (st, AwaitPost req k) =>
      let '(st', res) := k (provider req) later st in (st', res, [req])
  end.

Definition scopes : string :=
  "https://www.googleapis.com/auth/userinfo.profile " ++
  "https://www.googleapis.com/auth/userinfo.email " ++
  "https://www.googleapis.com/auth/drive.readonly " ++
  "https://www.googleapis.com/auth/calendar.readonly " ++
  "https://www.googleapis.com/auth/photoslibrary.readonly " ++
  "https://www.googleapis.com/auth/photospicker.mediaitems.readonly".

Section AuthUrl.

(** [encodeURIComponent], of the platform. *)
Variable encodeURIComponent : string -> string.

Definition authUrl_of (env : Env) (codeChallenge sessionId : string) : string :=
  "https://accounts.google.com/o/oauth2/v2/auth?" ++
  "response_type=code&" ++
  "client_id=" ++ JS.interp (CLIENT_ID env) ++ "&" ++
  "redirect_uri=" ++ encodeURIComponent (JS.interp (REDIRECT_URI env)) ++ "&" ++
  "scope=" ++ encodeURIComponent scopes ++ "&" ++
  "code_challenge=" ++ codeChallenge ++ "&" ++
  "code_challenge_method=S256&" ++
  "include_granted_scopes=true&" ++
  "access_type=offline&" ++
  "prompt=consent&" ++
  "state=" ++ sessionId.

End AuthUrl.

(** The body of [POST /api/oauth/token]. *)
Record TokenBodyIn := {
  in_code : option string;
  in_state : option string;
  in_userId : option string
}.

(* ===================================================================== *)
(** * The web backend (backend/server.js)                                 *)
(* ===================================================================== *)

Module Web.

(** An entry of [activeSessions]. *)
Record Session := { codeVerifier : string; timestamp : Z }.

Abbreviation Sessions := (gmap string Session).

Section Handlers.

Variable sha256 : list byte -> list byte.
Variable encodeURIComponent : string -> string.
Variable env : Env.

(** [GET /api/oauth/url] (lines 38-71). *)
Definition oauth_url (p : Platform) (activeSessions : Sessions)
    : Sessions * Response :=
  let codeVerifier := Pkce.generateCodeVerifier (randomBytes p) in
  let codeChallenge := Pkce.generateCodeChallenge sha256 codeVerifier in
  let sessionId := randomUUID p in
  (<[sessionId := {| codeVerifier := codeVerifier; timestamp := now p |}]>
     activeSessions,
   json (UrlBody (authUrl_of encodeURIComponent env codeChallenge sessionId)
           sessionId "Use this URL to redirect user to Google OAuth" None)).

(** [POST /api/oauth/token] (lines 74-124). *)
Definition oauth_token (req : TokenBodyIn) (p : Platform)
    (activeSessions : Sessions) : Sessions * Handling Sessions :=
  if negb (JS.truthy (in_code req)) || negb (JS.truthy (in_state req)) then
    (activeSessions, Respond (fail 400 "Missing code or state parameter"))
  else
    let state := JS.interp (in_state req) in
    match activeSessions !! state with
    | None =>
        (activeSessions, Respond (fail 400 "Invalid or expired session"))
    | Some session =>
        (activeSessions,
         AwaitPost
           {| Provider.client_id := CLIENT_ID env;
              Provider.client_secret := CLIENT_SECRET env;
              Provider.code := in_code req;
              Provider.grant_type := "authorization_code";
              Provider.redirect_uri := REDIRECT_URI env;
              Provider.code_verifier := Some (codeVerifier session);
              Provider.refresh_token := None |}
           (fun tokenResponse _ activeSessions' =>
              match tokenResponse with
              | Provider.Resolved data =>
                  (delete state activeSessions',
                   json (TokenBody (Provider.access_token data)
                           (Provider.new_refresh_token data)
                           (Provider.expires_in data)
                           (Provider.scope data) None))
              | Provider.Rejected e =>
                  (activeSessions',
                   {| status := 500;
                      body := ErrorBody "Token exchange failed"
                                (Some (Provider.details_of e)) |})
              end))
    end.

End Handlers.

End Web.

(* ===================================================================== *)
(** * The mobile backend (the second Express server)                      *)
(* ===================================================================== *)

Module Mobile.

(** An entry of [activeSessions]. *)
Record Session := {
  codeVerifier : string;
  timestamp : Z;
  userAgent : string
}.

(** An entry of [userTokens]. *)
Record UserToken := {
  access_token : option string;
  refresh_token : option string;
  expires_at : option Z;
  user_id : string
}.

(** The two module-level maps. *)
Record Store := {
  activeSessions : gmap string Session;
  userTokens : gmap string UserToken
}.

Definition set_sessions (f : gmap string Session -> gmap string Session)
    (st : Store) : Store :=
  {| activeSessions := f (activeSessions st); userTokens := userTokens st |}.

Definition set_tokens (f : gmap string UserToken -> gmap string UserToken)
    (st : Store) : Store :=
  {| activeSessions := activeSessions st; userTokens := f (userTokens st) |}.

(** The lifetime of a session, in milliseconds (line 148). *)
Definition SESSION_TTL : Z := 600000.

Section Handlers.

Variable sha256 : list byte -> list byte.
Variable encodeURIComponent : string -> string.
Variable env : Env.

(** [GET /api/oauth/url] (lines 87-130); [ua] is the request's
    [user-agent] header. *)
Definition oauth_url (ua : option string) (p : Platform) (st : Store)
    : Store * Response :=
  let codeVerifier := Pkce.generateCodeVerifier (randomBytes p) in
  let codeChallenge := Pkce.generateCodeChallenge sha256 codeVerifier in
  let sessionId := randomUUID p in
  (set_sessions
     (insert sessionId
        {| codeVerifier := codeVerifier;
           timestamp := now p;
           userAgent := JS.or_else ua "unknown" |}) st,
   json (UrlBody (authUrl_of encodeURIComponent env codeChallenge sessionId)
           sessionId "Use this URL for OAuth flow" (Some 600%Z))).

(** [POST /api/oauth/token] (lines 133-199). *)
Definition oauth_token (req : TokenBodyIn) (p : Platform) (st : Store)
    : Store * Handling Store :=
  if negb (JS.truthy (in_code req)) || negb (JS.truthy (in_state req)) then
    (st, Respond (fail 400 "Missing code or state parameter"))
  else
    let state := JS.interp (in_state req) in
    match activeSessions st !! state with
    | None => (st, Respond (fail 400 "Invalid or expired session"))
    | Some session =>
        if (now p - timestamp session >? SESSION_TTL)%Z then
          (set_sessions (delete state) st,
           Respond (fail 400 "Session expired"))
        else
          (st,
           AwaitPost
             {| Provider.client_id := CLIENT_ID env;
                Provider.client_secret := CLIENT_SECRET env;
                Provider.code := in_code req;
                Provider.grant_type := "authorization_code";
                Provider.redirect_uri := REDIRECT_URI env;
                Provider.code_verifier := Some (codeVerifier session);
                Provider.refresh_token := None |}
             (fun tokenResponse p' st' =>
                match tokenResponse with
                | Provider.Resolved data =>
                    let userTokenId :=
                      JS.or_else (in_userId req) (randomUUID p') in
                    (set_tokens
                       (insert userTokenId
                          {| access_token := Provider.access_token data;
                             refresh_token := Provider.new_refresh_token data;
                             expires_at :=
                               Provider.plus_seconds (now p')
                                 (Provider.expires_in data);
                             user_id := userTokenId |})
                       (set_sessions (delete state) st'),
                     json (TokenBody (Provider.access_token data)
                             (Provider.new_refresh_token data)
                             (Provider.expires_in data)
                             (Provider.scope data) (Some userTokenId)))
                | Provider.Rejected e =>
                    (st',
                     {| status := 500;
                        body := ErrorBody "Token exchange failed"
                                  (Some (Provider.details_of e)) |})
                end))
    end.

(** [validateMobileRequest] (lines 60-69), mounted on every [/api] route:
    in production a request from neither Expo nor React Native is turned
    away before its handler runs. [ua] is the [user-agent] header. *)
Definition validateMobileRequest (NODE_ENV ua : option string)
    : option Response :=
  let userAgent := JS.or_else ua "" in
  let isMobileApp :=
    JS.includes userAgent "Expo" || JS.includes userAgent "ReactNative" in
  if negb isMobileApp
     && match NODE_ENV with
        | Some e => String.eqb e "production"
        | None => false
        end
  then Some (fail 403 "This API is for mobile apps only")
  else None.

(** The body of [POST /api/oauth/refresh]. *)
Record RefreshBodyIn := {
  in_refresh_token : option string;
  in_user_id : option string
}.

(** [POST /api/oauth/refresh] (lines 531-575). The stored object is
    updated in place and put back under the same key. *)
Definition oauth_refresh (req : RefreshBodyIn) (p : Platform) (st : Store)
    : Store * Handling Store :=
  if negb (JS.truthy (in_refresh_token req)) then
    (st, Respond (fail 400 "Refresh token is required"))
  else
    (st,
     AwaitPost
       {| Provider.client_id := CLIENT_ID env;
          Provider.client_secret := CLIENT_SECRET env;
          Provider.code := None;
          Provider.grant_type := "refresh_token";
          Provider.redirect_uri := None;
          Provider.code_verifier := None;
          Provider.refresh_token := in_refresh_token req |}
       (fun response p' st' =>
          match response with
          | Provider.Resolved data =>
              let st'' :=
                if JS.truthy (in_user_id req) then
                  let uid := JS.interp (in_user_id req) in
                  match userTokens st' !! uid with
                  | Some userToken =>
                      set_tokens
                        (insert uid
                           {| access_token := Provider.access_token data;
                              refresh_token := refresh_token userToken;
                              expires_at :=
                                Provider.plus_seconds (now p')
                                  (Provider.expires_in data);
                              user_id := user_id userToken |}) st'
                  | None => st'
                  end
                else st' in
              (st'', json (RefreshBody (Provider.access_token data)
                             (Provider.expires_in data)))
          | Provider.Rejected e =>
              (st',
               {| status := 500;
                  body := ErrorBody "Token refresh failed"
                            (Some (Provider.details_of e)) |})
          end)).

End Handlers.

(** ** The authenticated endpoints *)

(** What an authenticated request carries: the [authorization] header,
    and from the query (for the picker session, from the body) [user_id],
    [date], [sessionId] and [pageSize]. *)
Record ApiRequest := {
  authorization : option string;
  q_user_id : option string;
  q_date : option string;
  q_sessionId : option string;
  q_pageSize : option string
}.

(** [Date.now() > userToken.expires_at]; a comparison with NaN is false. *)
Definition expired (now : Z) (expires_at : option Z) : bool :=
  match expires_at with
  | Some t => (now >? t)%Z
  | None => false
  end.

(** The block every authenticated handler starts with (lines 207-218,
    242-253, 286-297, 331-342, 385-396, 429-440, 491-502): the access
    token to use, or the answer that ends the request. *)
Definition resolveAccessToken (req : ApiRequest) (now : Z)
    (userTokens : gmap string UserToken) : Response + option string :=
  if JS.truthy (authorization req)
     && JS.startsWith (JS.interp (authorization req)) "Bearer " then
    inr (JS.split " " (JS.interp (authorization req)) !! 1%nat)
  else if JS.truthy (q_user_id req) then
    match userTokens !! JS.interp (q_user_id req) with
    | None => inl (fail 401 "Token expired or invalid")
    | Some userToken =>
        if expired now (expires_at userToken) then
          inl (fail 401 "Token expired or invalid")
        else inr (access_token userToken)
    end
  else inl (fail 401 "Missing authorization").

Inductive Endpoint :=
| UserProfile | DriveFiles | CalendarEvents | DrivePhotos
| PickerSession | PickerMedia | PickerUrl.

Inductive Method := GET | POST.

(** A query parameter sent upstream. *)
Inductive Param :=
| PStr (s : string)
| PNum (n : Z)
| PBool (b : bool)
| PParseInt (s : string).

(** [parseInt(pageSize)] with [pageSize = d] by default. *)
Definition pageSize_or (d : Z) (v : option string) : Param :=
  match v with
  | Some s => PParseInt s
  | None => PNum d
  end.

(** The call made to Google. *)
Record Upstream := {
  method : Method;
  url : string;
  params : list (string * Param);
  header_authorization : string;
  header_content_type : option string
}.

Definition bearer (accessToken : option string) : string :=
  "Bearer " ++ JS.interp accessToken.

Definition drive_fields : string :=
  "files(id,name,mimeType,createdTime,modifiedTime,size,webViewLink,thumbnailLink,imageMediaMetadata)".
Definition photo_fields : string :=
  "files(id,name,mimeType,createdTime,modifiedTime,size,webViewLink,thumbnailLink,imageMediaMetadata,webContentLink)".

(** The call each endpoint makes once it holds an access token. *)
Definition upstream_of (e : Endpoint) (req : ApiRequest)
    (accessToken : option string) : Upstream :=
  let auth := bearer accessToken in
  match e with
  | UserProfile =>
      {| method := GET;
         url := "https://people.googleapis.com/v1/people/me?personFields=names,emailAddresses,photos";
         params := []; header_authorization := auth;
         header_content_type := None |}
  | DriveFiles =>
      {| method := GET; url := "https://www.googleapis.com/drive/v3/files";
         params := [("pageSize", pageSize_or 20 (q_pageSize req));
                    ("fields", PStr drive_fields);
                    ("orderBy", PStr "modifiedTime desc")];
         header_authorization := auth; header_content_type := None |}
  | CalendarEvents =>
      {| method := GET;
         url := "https://www.googleapis.com/calendar/v3/calendars/primary/events";
         params := [("timeMin", PStr (JS.interp (q_date req) ++ "T00:00:00Z"));
                    ("timeMax", PStr (JS.interp (q_date req) ++ "T23:59:59Z"));
                    ("maxResults", PNum 20);
                    ("singleEvents", PBool true);
                    ("orderBy", PStr "startTime")];
         header_authorization := auth; header_content_type := None |}
  | DrivePhotos =>
      {| method := GET; url := "https://www.googleapis.com/drive/v3/files";
         params := [("q", PStr "mimeType contains 'image/'");
                    ("pageSize", pageSize_or 20 (q_pageSize req));
                    ("fields", PStr photo_fields);
                    ("orderBy", PStr "modifiedTime desc")];
         header_authorization := auth; header_content_type := None |}
  | PickerSession | PickerUrl =>
      {| method := POST; url := "https://photospicker.googleapis.com/v1/sessions";
         params := []; header_authorization := auth;
         header_content_type := Some "application/json" |}
  | PickerMedia =>
      {| method := GET; url := "https://photospicker.googleapis.com/v1/mediaItems";
         params := [("sessionId", PStr (JS.interp (q_sessionId req)));
                    ("pageSize", pageSize_or 25 (q_pageSize req))];
         header_authorization := auth; header_content_type := None |}
  end.

(** The check an endpoint makes before it looks at the credentials
    (lines 280-282 and 423-425). *)
Definition precheck (e : Endpoint) (req : ApiRequest) : option Response :=
  match e with
  | CalendarEvents =>
      if JS.truthy (q_date req) then None
      else Some (fail 400 "Date parameter is required")
  | PickerMedia =>
      if JS.truthy (q_sessionId req) then None
      else Some (fail 400 "Session ID is required")
  | _ => None
  end.

(** An authenticated handler up to its call to Google: the answer that
    ends the request early, or the call it makes. *)
Definition handle (e : Endpoint) (req : ApiRequest) (now : Z)
    (userTokens : gmap string UserToken) : Response + Upstream :=
  match precheck e req with
  | Some res => inl res
  | None =>
      match resolveAccessToken req now userTokens with
      | inl res => inl res
      | inr accessToken => inr (upstream_of e req accessToken)
      end
  end.

(** The same request with another [user_id]. *)
Definition with_user_id (u : option string) (req : ApiRequest) : ApiRequest :=
  {| authorization := authorization req;
     q_user_id := u;
     q_date := q_date req;
     q_sessionId := q_sessionId req;
     q_pageSize := q_pageSize req |}.

(** The fields a refresh writes, on the record it finds. *)
Definition refreshed (userToken : UserToken) (data : Provider.TokenData)
    (now : Z) : UserToken :=
  {| access_token := Provider.access_token data;
     refresh_token := refresh_token userToken;
     expires_at := Provider.plus_seconds now (Provider.expires_in data);
     user_id := user_id userToken |}.

End Mobile.


(* ===================================================================== *)
(** * Words for the answers and for live sessions                         *)
(* ===================================================================== *)

(** The text an answer carries: its [error] and its [details]. *)
Definition mentions (res : Response) (s : string) : bool :=
  match body res with
  | ErrorBody e d => JS.includes e s || JS.includes (default "" d) s
  | _ => false
  end.

(** The answer of the [catch] branch of both handlers. *)
Definition exchange_failed (e : Provider.AxiosError) : Response :=
  {| status := 500;
     body := ErrorBody "Token exchange failed" (Some (Provider.details_of e)) |}.

(** The answers that report a missing, unknown or expired session. *)
Definition is_session_error (res : Response) : bool :=
  (status res =? 400)%Z
  && match body res with
     | ErrorBody e None =>
         String.eqb e "Missing code or state parameter"
         || String.eqb e "Invalid or expired session"
         || String.eqb e "Session expired"
     | _ => false
     end.

(* ===================================================================== *)
(** * The photo picker: normalisation of the selected media items and the
      retrying fetch (backend/server.js 325-344, the mobile backend
      452-469, app/(tabs)/index.tsx 1101-1164)                            *)
(* ===================================================================== *)

Module Picker.

(** A media item as the provider lists it. *)
Record MediaFile := {
  baseUrl : option string;
  filename : option string;
  mimeType : option string
}.

Record MediaFileMetadata := {
  width : option Z;
  height : option Z
}.

Record MediaItem := {
  id : option string;
  mediaFile : option MediaFile;
  createTime : option string;
  mediaFileMetadata : option MediaFileMetadata
}.

(** A normalised photo. *)
Record PhotoItem := {
  photo_id : option string;
  photo_name : string;
  photo_url : string;
  photo_thumbnails : list string;
  photo_mimeType : option string;
  photo_creationTime : option string;
  photo_width : option Z;
  photo_height : option Z
}.

(** [item.mediaFile?.f] and [item.mediaFileMetadata?.f]. *)
Definition of_mediaFile {A} (f : MediaFile -> option A) (item : MediaItem)
    : option A :=
  match mediaFile item with
  | Some mf => f mf
  | None => None
  end.

Definition of_metadata {A} (f : MediaFileMetadata -> option A)
    (item : MediaItem) : option A :=
  match mediaFileMetadata item with
  | Some md => f md
  | None => None
  end.

(** The object pushed for an item whose [baseUrl] is the string [b]. *)
Definition photo_of (item : MediaItem) (b : string) : PhotoItem :=
  let thumbnailUrl := b ++ "=w200-h200" in
  {| photo_id := id item;
     photo_name :=
       JS.or_else (of_mediaFile filename item) ("Photo " ++ JS.interp (id item));
     photo_url := b;
     photo_thumbnails := [thumbnailUrl];
     photo_mimeType := of_mediaFile mimeType item;
     photo_creationTime := createTime item;
     photo_width := of_metadata width item;
     photo_height := of_metadata height item |}.

(** One turn of the loop: [photos.push(...)] under [if (baseUrl)]. *)
Definition push_item (photos : list PhotoItem) (item : MediaItem)
    : list PhotoItem :=
  let baseUrl := of_mediaFile baseUrl item in
  if JS.truthy baseUrl then photos ++ [photo_of item (JS.interp baseUrl)]
  else photos.

(** [for (const item of data.mediaItems || []) { ... }] from
    [photos = []]. *)
Definition transform (mediaItems : option (list MediaItem)) : list PhotoItem :=
  fold_left push_item (default [] mediaItems) [].

(** The test of the loop, [if (baseUrl)]. *)
Definition has_baseUrl (item : MediaItem) : bool :=
  JS.truthy (of_mediaFile baseUrl item).

(** The photo the loop pushes for an item that passes the test. *)
Definition normalise (item : MediaItem) : PhotoItem :=
  photo_of item (JS.interp (of_mediaFile baseUrl item)).

(** ** [GoogleApiService.fetchSelectedPhotos] *)

(** [errorData.error] of a refused listing. *)
Record ApiError := {
  err_status : option string;
  err_message : option string
}.

(** What one [fetch] of the media items comes back with. *)
Inductive FetchResult :=
| NetworkError (msg : string)
| HttpError (status : nat) (error : option ApiError)
| HttpOk (mediaItems : option (list MediaItem)).

(** What the service does, in order. *)
Inductive Event :=
| Fetch (url : string) (authorization : string)
| Sleep (ms : N).

Inductive Outcome :=
| Thrown (msg : string)
| Returned (photos : list PhotoItem).

(** [errorData.error?.status === "FAILED_PRECONDITION"]. *)
Definition not_ready (error : option ApiError) : bool :=
  match error with
  | Some e => match err_status e with
              | Some s => String.eqb s "FAILED_PRECONDITION"
              | None => false
              end
  | None => false
  end.

Definition api_error_message (status : nat) (error : option ApiError) : string :=
  "Photo Picker API error: " ++ pretty status ++ " - " ++
  JS.or_else (match error with Some e => err_message e | None => None end)
    "Unknown error".

Section Service.

(** [this.accessToken]. *)
Variable accessToken : option string.
(** [oauthConfig.endpoints.photoPicker], of the configuration module. *)
Variable photoPicker : string.
(** The provider: what the [n]-th fetch of this run comes back with. *)
Variable server : nat -> FetchResult.

Definition mediaItems_url (sessionId : string) : string :=
  photoPicker ++ "/mediaItems?sessionId=" ++ sessionId ++ "&pageSize=25".

(** [async fetchSelectedPhotos(sessionId, retryCount = 0)]; [calls] counts
    the fetches already made. The recursion is the source's own. *)
Equations? fetchSelectedPhotos (sessionId : string) (retryCount calls : nat)
    : list Event * Outcome by wf (3 - retryCount) lt :=
fetchSelectedPhotos sessionId retryCount calls with JS.truthy accessToken := {
  | false := ([], Thrown "No access token available");
  | true with server calls := {
    | NetworkError msg :=
        ([Fetch (mediaItems_url sessionId) ("Bearer " ++ JS.interp accessToken)],
         Thrown msg);
    | HttpOk mediaItems :=
        ([Fetch (mediaItems_url sessionId) ("Bearer " ++ JS.interp accessToken)],
         Returned (transform mediaItems));
    | HttpError status error with not_ready error, lt_dec retryCount 3 := {
      | true, left _ :=
          let delay := (N.of_nat (retryCount + 1) * 2000)%N in
          let rest := fetchSelectedPhotos sessionId (retryCount + 1) (calls + 1) in
          (Fetch (mediaItems_url sessionId) ("Bearer " ++ JS.interp accessToken)
             :: Sleep delay :: fst rest,
           snd rest);
      | _, _ :=
          ([Fetch (mediaItems_url sessionId) ("Bearer " ++ JS.interp accessToken)],
           Thrown (api_error_message status error)) } } }.
Proof. lia. Qed.

(** The fetches and the pauses of a run. *)
Fixpoint attempts (tr : list Event) : nat :=
  match tr with
  | [] => 0
  | Fetch _ _ :: tr' => S (attempts tr')
  | Sleep _ :: tr' => attempts tr'
  end.

Fixpoint delays (tr : list Event) : list N :=
  match tr with
  | [] => []
  | Sleep ms :: tr' => ms :: delays tr'
  | Fetch _ _ :: tr' => delays tr'
  end.

End Service.

End Picker.

(* ===================================================================== *)
(** * The picker window: the closed-window poller and the hard timeout
      (src/AppSecure.js 136-195, app/(tabs)/index.tsx 1191-1213)          *)
(* ===================================================================== *)

Module Flow.

(** The callbacks the two clients hand to [setInterval] and [setTimeout],
    and the continuation of an awaited fetch. *)
Inductive Task :=
| CheckClosed
| DelayedFetch
| HardTimeout
| DelayedFetchDone (n : nat)
| TimeoutFetchDone (n : nat)
| Settle (o : Picker.Outcome).

(** A pending timer: when it is due, in milliseconds since the timers
    were created, and what it runs. *)
Record Timer := { due : N; task : Task }.

(** What can be observed of a run. *)
Inductive Ev :=
| Polled (closed : bool)
| MediaFetch
| FetchSelectedPhotos (tr : list Picker.Event)
| SetGooglePhotos (photos : list Picker.PhotoItem)
| Alert (msg : string)
| Resolve (photos : list Picker.PhotoItem)
| Reject (msg : string).

(** The event loop: the clock, the pending timers in the order they were
    registered, what happened so far, and the state of the promise
    [openPhotoPicker] returns (index.tsx only). *)
Record State := {
  clock : N;
  queue : list Timer;
  log : list (N * Ev);
  settled : option Picker.Outcome
}.

(** What the run does not control: when the picker window is closed,
    how long a fetch takes and what the [n]-th call of the backend
    returns ([None]: it threw). *)
Record World := {
  closedAt : option N;
  latency : N;
  answer : nat -> option (list Picker.PhotoItem)
}.

(** [pickerWindow.closed] at time [t]. *)
Definition closed (w : World) (t : N) : bool :=
  match closedAt w with
  | Some c => (c <=? t)%N
  | None => false
  end.

(** The timer that fires next: the earliest, and among equals the one
    registered first; and the timers that stay. *)
Fixpoint pick (q : list Timer) : option (Timer * list Timer) :=
  match q with
  | [] => None
  | t :: q' =>
      match pick q' with
      | Some (t', r) =>
          if (due t' <? due t)%N then Some (t', t :: r) else Some (t, q')
      | None => Some (t, [])
      end
  end.

Definition is_poll (t : Timer) : bool :=
  match task t with CheckClosed => true | _ => false end.

(** [clearInterval(checkClosed)]. *)
Definition clearInterval (q : list Timer) : list Timer :=
  List.filter (fun t => negb (is_poll t)) q.

Definition setTimeout (t : Task) (now ms : N) (q : list Timer) : list Timer :=
  q ++ [{| due := (now + ms)%N; task := t |}].

Definition emit (e : Ev) (st : State) : State :=
  {| clock := clock st; queue := queue st;
     log := log st ++ [(clock st, e)]; settled := settled st |}.

Definition with_queue (f : list Timer -> list Timer) (st : State) : State :=
  {| clock := clock st; queue := f (queue st);
     log := log st; settled := settled st |}.

(** [resolve] and [reject] of a promise: the first call settles it, a
    later one does nothing. *)
Definition settle (o : Picker.Outcome) (st : State) : State :=
  match settled st with
  | Some _ => st
  | None => {| clock := clock st; queue := queue st;
               log := log st; settled := Some o |}
  end.

(** The number of media-item fetches started so far. *)
Fixpoint fetches (l : list (N * Ev)) : nat :=
  match l with
  | [] => 0
  | (_, MediaFetch) :: l' => S (fetches l')
  | (_, FetchSelectedPhotos _) :: l' => S (fetches l')
  | _ :: l' => fetches l'
  end.

(** The callback of [setInterval(..., 1000)], the same in both clients:
    the next tick is armed, and when the window is closed the interval is
    cleared and the fetch is set three seconds ahead. *)
Definition checkClosed (w : World) (st : State) : State :=
  let st := with_queue (setTimeout CheckClosed (clock st) 1000) st in
  if closed w (clock st) then
    with_queue (setTimeout DelayedFetch (clock st) 3000)
      (with_queue clearInterval (emit (Polled true) st))
  else emit (Polled false) st.

(** ** src/AppSecure.js *)

Definition success_alert (n : nat) : string :=
  "Successfully loaded " ++ pretty n ++ " photos from Google Photos!".

Definition exec_web (w : World) (t : Task) (st : State) : State :=
  match t with
  | CheckClosed => checkClosed w st
  | DelayedFetch =>
      with_queue
        (setTimeout (DelayedFetchDone (fetches (log st))) (clock st) (latency w))
        (emit MediaFetch st)
  | HardTimeout =>
      with_queue
        (setTimeout (TimeoutFetchDone (fetches (log st))) (clock st) (latency w))
        (emit MediaFetch (with_queue clearInterval st))
  | DelayedFetchDone n =>
      match answer w n with
      | Some photos =>
          emit (Alert
                  (if (0 <? List.length photos)%nat then success_alert (List.length photos)
                   else "No photos were selected. Please try again and make sure to click 'Done' in the picker."))
            (emit (SetGooglePhotos photos) st)
      | None => emit (Alert "Failed to fetch selected photos") st
      end
  | TimeoutFetchDone n =>
      match answer w n with
      | Some photos => emit (SetGooglePhotos photos) st
      | None => st
      end
  | Settle _ => st
  end.

(** ** app/(tabs)/index.tsx *)

Section Service.

Variable accessToken : option string.
Variable photoPicker : string.
Variable server : nat -> Picker.FetchResult.
Variable sessionId : string.

(** How long a call of [fetchSelectedPhotos] takes: its pauses, and
    [latency] for each of its fetches. *)
Definition duration (w : World) (tr : list Picker.Event) : N :=
  (foldr N.add 0 (Picker.delays tr) + N.of_nat (Picker.attempts tr) * latency w)%N.

Definition exec_app (w : World) (t : Task) (st : State) : State :=
  match t with
  | CheckClosed => checkClosed w st
  | DelayedFetch =>
      let r := Picker.fetchSelectedPhotos accessToken photoPicker server
                 sessionId 0 0 in
      with_queue (setTimeout (Settle (snd r)) (clock st) (duration w (fst r)))
        (emit (FetchSelectedPhotos (fst r)) st)
  | HardTimeout =>
      settle (Picker.Thrown "Photo picker timeout")
        (emit (Reject "Photo picker timeout") (with_queue clearInterval st))
  | Settle (Picker.Returned photos) =>
      settle (Picker.Returned photos) (emit (Resolve photos) st)
  | Settle (Picker.Thrown msg) =>
      settle (Picker.Thrown msg) (emit (Reject msg) st)
  | DelayedFetchDone _ | TimeoutFetchDone _ => st
  end.

End Service.

(** ** Running the timers *)

(** Both clients create the interval (first tick after one second) and
    the thirty-second timeout in the same stretch, once the picker session
    is created and [window.open] has returned the picker window; a run
    starts there, with a window that is open. *)
Definition start : State :=
  {| clock := 0;
     queue := [ {| due := 1000; task := CheckClosed |};
                {| due := 30000; task := HardTimeout |} ]%N;
     log := [];
     settled := None |}.

(** One turn of the event loop: the next timer fires and its callback
    runs to completion. *)
Definition step (exec : Task -> State -> State) (st : State) : State :=
  match pick (queue st) with
  | None => st
  | Some (t, rest) =>
      exec (task t)
        {| clock := due t; queue := rest; log := log st; settled := settled st |}
  end.

Fixpoint steps (exec : Task -> State -> State) (n : nat) (st : State) : State :=
  match n with
  | 0 => st
  | S n' => steps exec n' (step exec st)
  end.




(** The pending timers of one kind. *)
Fixpoint count (kind : Task -> bool) (q : list Timer) : nat :=
  match q with
  | [] => 0
  | t :: q' => (if kind (task t) then 1 else 0) + count kind q'
  end.

Definition polls (t : Task) : bool :=
  match t with CheckClosed => true | _ => false end.
Definition hard_timeout (t : Task) : bool :=
  match t with HardTimeout => true | _ => false end.
Definition delayed_fetch (t : Task) : bool :=
  match t with DelayedFetch => true | _ => false end.

(** The poller has seen the window closed. *)
Definition saw_closed (l : list (N * Ev)) : bool :=
  existsb (fun x => match snd x with Polled true => true | _ => false end) l.

(** What stays true of a run of either client; [budget] is 2 for
    src/AppSecure.js, where the timeout fetches too, and 1 for
    index.tsx. *)
Record Inv (budget : nat) (st : State) : Prop := {
  inv_fetches :
    fetches (log st) + count delayed_fetch (queue st) + count polls (queue st)
    + (budget - 1) * count hard_timeout (queue st) <= budget;
  inv_timeout : count hard_timeout (queue st) = 0 -> count polls (queue st) = 0;
  inv_closed : saw_closed (log st) = true -> count polls (queue st) = 0;
  inv_hard : count hard_timeout (queue st) <= 1
}.

(** Once the timeout of index.tsx has fired, the promise is settled. *)
Definition timed_out (st : State) : Prop :=
  count hard_timeout (queue st) = 0 -> exists o, settled st = Some o.

End Flow.

(* ===================================================================== *)
(** * More of the challenge generator: the client's verifier
      (app/(tabs)/index.tsx 803-807) and the shape of the encodings       *)
(* ===================================================================== *)

Module Encoding.

(** Every byte, to check a property of bytes by running through them. *)
Definition all_bytes : list byte :=
  omap (fun n => Byte.of_N (N.of_nat n)) (seq 0 256).

(** The sextets, to check a property of base64 digits likewise. *)
Definition all_sextets : list N := List.map N.of_nat (seq 0 64).

(** [c] occurs in [s]. *)
Fixpoint occurs (c : ascii) (s : string) : bool :=
  match s with
  | EmptyString => false
  | String x s' => Ascii.eqb x c || occurs c s'
  end.

(** Every character of [s] passes [ok]. *)
Fixpoint every (ok : ascii -> bool) (s : string) : bool :=
  match s with
  | EmptyString => true
  | String x s' => ok x && every ok s'
  end.

(** The characters of a base64url text: letters, digits, [-] and [_]. *)
Definition url_safe (c : ascii) : bool := occurs c Pkce.alphabet_url.

Definition hex_digits : string := "0123456789abcdef".

Definition is_hex (c : ascii) : bool := occurs c hex_digits.

(** [byte.toString(16)] for an element of a [Uint8Array]: one digit
    below sixteen, two from there on. *)
Definition toString16 (b : byte) : string :=
  let n := Byte.to_N b in
  if (n <? 16)%N then String (Pkce.digit hex_digits n) ""
  else String (Pkce.digit hex_digits (n / 16)%N)
         (String (Pkce.digit hex_digits (n mod 16)%N) "").

(** [s.padStart(2, "0")]. *)
Definition padStart2 (s : string) : string :=
  match s with
  | EmptyString => "00"
  | String _ EmptyString => "0" ++ s
  | _ => s
  end.

(** [GoogleApiService.generateCodeVerifier]:
    [Array.from(array, (byte) => byte.toString(16).padStart(2, "0")).join("")]
    on the random bytes. *)
Definition generateCodeVerifier_client (array : list byte) : string :=
  List.fold_right (fun byte rest => padStart2 (toString16 byte) ++ rest) ""
    array.

End Encoding.

(* ===================================================================== *)
(** * The authenticated endpoints of the web backend
      (backend/server.js 126-352) and the browser's [apiCall]
      (src/AppSecure.js 26-46)                                            *)
(* ===================================================================== *)

Module WebApi.

Inductive Endpoint :=
| UserProfile | DriveFiles | CalendarEvents | DrivePhotos
| PickerSession | PickerMedia.

(** The endpoint of the mobile backend on the same path. *)
Definition on_mobile (e : Endpoint) : Mobile.Endpoint :=
  match e with
  | UserProfile => Mobile.UserProfile
  | DriveFiles => Mobile.DriveFiles
  | CalendarEvents => Mobile.CalendarEvents
  | DrivePhotos => Mobile.DrivePhotos
  | PickerSession => Mobile.PickerSession
  | PickerMedia => Mobile.PickerMedia
  end.

(** The check made before the credentials are looked at (lines 186-189
    and 303-306). *)
Definition precheck (e : Endpoint) (req : Mobile.ApiRequest)
    : option Response :=
  match e with
  | CalendarEvents =>
      if JS.truthy (Mobile.q_date req) then None
      else Some (fail 400 "Date parameter is required")
  | PickerMedia =>
      if JS.truthy (Mobile.q_sessionId req) then None
      else Some (fail 400 "Session ID is required")
  | _ => None
  end.

(** The block every handler has: the header must begin with ["Bearer "],
    and the token is what follows the first space. *)
Definition accessToken_of (req : Mobile.ApiRequest)
    : Response + option string :=
  if negb (JS.truthy (Mobile.authorization req))
     || negb (JS.startsWith (JS.interp (Mobile.authorization req)) "Bearer ")
  then inl (fail 401 "Missing or invalid authorization header")
  else inr (JS.split " " (JS.interp (Mobile.authorization req)) !! 1%nat).

(** The call each endpoint makes to Google. *)
Definition upstream_of (e : Endpoint) (req : Mobile.ApiRequest)
    (accessToken : option string) : Mobile.Upstream :=
  let auth := Mobile.bearer accessToken in
  match e with
  | UserProfile =>
      {| Mobile.method := Mobile.GET;
         Mobile.url := "https://people.googleapis.com/v1/people/me?personFields=names,emailAddresses";
         Mobile.params := []; Mobile.header_authorization := auth;
         Mobile.header_content_type := None |}
  | DriveFiles =>
      {| Mobile.method := Mobile.GET;
         Mobile.url := "https://www.googleapis.com/drive/v3/files";
         Mobile.params := [("pageSize", Mobile.PNum 20);
                           ("fields", Mobile.PStr Mobile.drive_fields);
                           ("orderBy", Mobile.PStr "modifiedTime desc")];
         Mobile.header_authorization := auth;
         Mobile.header_content_type := None |}
  | CalendarEvents =>
      {| Mobile.method := Mobile.GET;
         Mobile.url := "https://www.googleapis.com/calendar/v3/calendars/primary/events";
         Mobile.params :=
           [("timeMin", Mobile.PStr (JS.interp (Mobile.q_date req) ++ "T00:00:00Z"));
            ("timeMax", Mobile.PStr (JS.interp (Mobile.q_date req) ++ "T23:59:59Z"));
            ("maxResults", Mobile.PNum 20);
            ("singleEvents", Mobile.PBool true);
            ("orderBy", Mobile.PStr "startTime")];
         Mobile.header_authorization := auth;
         Mobile.header_content_type := None |}
  | DrivePhotos =>
      {| Mobile.method := Mobile.GET;
         Mobile.url := "https://www.googleapis.com/drive/v3/files";
         Mobile.params := [("q", Mobile.PStr "mimeType contains 'image/'");
                           ("pageSize", Mobile.PNum 20);
                           ("fields", Mobile.PStr Mobile.photo_fields);
                           ("orderBy", Mobile.PStr "modifiedTime desc")];
         Mobile.header_authorization := auth;
         Mobile.header_content_type := None |}
  | PickerSession =>
      {| Mobile.method := Mobile.POST;
         Mobile.url := "https://photospicker.googleapis.com/v1/sessions";
         Mobile.params := []; Mobile.header_authorization := auth;
         Mobile.header_content_type := Some "application/json" |}
  | PickerMedia =>
      {| Mobile.method := Mobile.GET;
         Mobile.url := "https://photospicker.googleapis.com/v1/mediaItems";
         Mobile.params :=
           [("sessionId", Mobile.PStr (JS.interp (Mobile.q_sessionId req)));
            ("pageSize", Mobile.PNum 25)];
         Mobile.header_authorization := auth;
         Mobile.header_content_type := None |}
  end.

(** A handler up to its call to Google. *)
Definition handle (e : Endpoint) (req : Mobile.ApiRequest)
    : Response + Mobile.Upstream :=
  match precheck e req with
  | Some res => inl res
  | None =>
      match accessToken_of req with
      | inl res => inl res
      | inr accessToken => inr (upstream_of e req accessToken)
      end
  end.

(** ** The browser's [apiCall] *)

(** The path and query [apiCall] is given for an endpoint: the date for
    the calendar, the picker session for the media. *)
Record Call := {
  call_date : option string;
  call_sessionId : option string
}.

(** The request [apiCall] sends when no header is passed in [options]:
    an [Authorization] header when the access token of the component is
    truthy, none otherwise. *)
Definition apiCall (accessToken : option string) (c : Call)
    : Mobile.ApiRequest :=
  {| Mobile.authorization :=
       if JS.truthy accessToken then Some ("Bearer " ++ JS.interp accessToken)
       else None;
     Mobile.q_user_id := None;
     Mobile.q_date := call_date c;
     Mobile.q_sessionId := call_sessionId c;
     Mobile.q_pageSize := None |}.

(** The body of a refused call, and the message of the error [apiCall]
    throws for it:
    [errorData.details || errorData.error || `HTTP ${response.status}`]. *)
Definition apiCall_error (res : Response) : string :=
  match body res with
  | ErrorBody e d =>
      JS.or_else d (JS.or_else (Some e) ("HTTP " ++ pretty (status res)))
  | _ => "HTTP " ++ pretty (status res)
  end.

End WebApi.

(* ===================================================================== *)
(** * Words for the stores                                                *)
(* ===================================================================== *)

Module Stores.

(** Every record of [userTokens] sits under its own [user_id]. *)
Definition well_keyed (userTokens : gmap string Mobile.UserToken) : Prop :=
  forall key record,
    userTokens !! key = Some record -> Mobile.user_id record = key.

(** The header is not one the mobile backend takes a token from. *)
Definition no_bearer (req : Mobile.ApiRequest) : bool :=
  negb (JS.truthy (Mobile.authorization req)
        && JS.startsWith (JS.interp (Mobile.authorization req)) "Bearer ").

End Stores.

(* ===================================================================== *)
(** * Words for the runs of [fetchSelectedPhotos]                         *)
(* ===================================================================== *)

Module Runs.

(** What a run ends with when it stops at the answer [r]: the photos, or
    the error that is thrown. *)
Definition outcome_of (r : Picker.FetchResult) : Picker.Outcome :=
  match r with
  | Picker.NetworkError msg => Picker.Thrown msg
  | Picker.HttpError status error =>
      Picker.Thrown (Picker.api_error_message status error)
  | Picker.HttpOk mediaItems => Picker.Returned (Picker.transform mediaItems)
  end.

(** The answer says that the user has not finished picking. *)
Definition is_not_ready (r : Picker.FetchResult) : bool :=
  match r with
  | Picker.HttpError _ error => Picker.not_ready error
  | _ => false
  end.

(** The pauses before the second, third, ... of [n] attempts that start
    at retry count [retryCount]. *)
Definition pauses (retryCount n : nat) : list N :=
  List.map (fun i => (N.of_nat (retryCount + i + 1) * 2000)%N) (seq 0 (n - 1)).

Definition total (l : list N) : N := List.fold_right N.add 0%N l.

End Runs.

(* ===================================================================== *)
(** * Words for the rest of the picker window flow                        *)
(* ===================================================================== *)

Module Rest.

(** How many callbacks a pending timer can still cause: a poll its
    remaining ticks up to the thirty-first second, the fetch it may arm
    and the answer to that fetch; a fetch or the timeout itself and what
    follows it; anything else itself. *)
Definition weight (t : Flow.Timer) : nat :=
  match Flow.task t with
  | Flow.CheckClosed => 3 + N.to_nat ((31000 - Flow.due t) / 1000)
  | Flow.DelayedFetch | Flow.HardTimeout => 2
  | _ => 1
  end.

Definition potential (q : list Flow.Timer) : nat :=
  List.fold_right (fun t n => weight t + n) 0 q.

(** The timeout, while pending, is due at thirty seconds. *)
Definition timeout_at_30s (st : Flow.State) : Prop :=
  Forall (fun t => Flow.task t = Flow.HardTimeout -> Flow.due t = 30000%N)
    (Flow.queue st).

(** What a run keeps, beyond [Inv]: the timeout is due at thirty seconds,
    and while it is pending the clock has not passed them. *)
Definition on_time (st : Flow.State) : Prop :=
  timeout_at_30s st
  /\ (Flow.count Flow.hard_timeout (Flow.queue st) <> 0 ->
      (Flow.clock st <= 30000)%N).

(** The window is never closed. *)
Definition stays_open (w : Flow.World) : Prop := Flow.closedAt w = None.

(** The log of a run with a window that stays open, in index.tsx: polls
    that saw it open, and the rejection of the timeout. *)
Definition quiet (e : Flow.Ev) : bool :=
  match e with
  | Flow.Polled false => true
  | Flow.Reject msg => String.eqb msg "Photo picker timeout"
  | _ => false
  end.

(** And in src/AppSecure.js: such polls, the fetch of the timeout and the
    photos it sets. *)
Definition quiet_web (e : Flow.Ev) : bool :=
  match e with
  | Flow.Polled false | Flow.MediaFetch | Flow.SetGooglePhotos _ => true
  | _ => false
  end.

(** Only polls, the timeout and the answer to the timeout's fetch are
    pending. *)
Definition idle (t : Flow.Timer) : bool :=
  match Flow.task t with
  | Flow.CheckClosed | Flow.HardTimeout | Flow.TimeoutFetchDone _ => true
  | _ => false
  end.

(** What a run of index.tsx keeps when the window stays open. *)
Definition waiting (st : Flow.State) : Prop :=
  Forall (fun t => Flow.task t = Flow.CheckClosed \/ Flow.task t = Flow.HardTimeout) (Flow.queue st)
  /\ forallb (fun x => quiet (snd x)) (Flow.log st) = true
  /\ (Flow.settled st = None
      \/ Flow.settled st = Some (Picker.Thrown "Photo picker timeout"))
  /\ (Flow.count Flow.hard_timeout (Flow.queue st) = 0 ->
      Flow.settled st = Some (Picker.Thrown "Photo picker timeout")).

(** And a run of src/AppSecure.js. *)
Definition waiting_web (st : Flow.State) : Prop :=
  Forall (fun t => idle t = true) (Flow.queue st)
  /\ forallb (fun x => quiet_web (snd x)) (Flow.log st) = true
  /\ Flow.fetches (Flow.log st) + Flow.count Flow.hard_timeout (Flow.queue st) = 1.

End Rest.

(* ===================================================================== *)
(** * The client's service: its tokens, its exchange and its calls
      (app/(tabs)/index.tsx 782-800 and 919-1098)                         *)
(* ===================================================================== *)

Module Client.

(** The two private fields of [GoogleApiService]; [None] is [null]. *)
Record Service := {
  accessToken : option string;
  refreshToken : option string
}.

(** [clearTokens()]. *)
Definition clearTokens (svc : Service) : Service :=
  {| accessToken := None; refreshToken := None |}.

(** [setAccessToken(token)]. *)
Definition setAccessToken (token : string) (svc : Service) : Service :=
  {| accessToken := Some token; refreshToken := refreshToken svc |}.

(** A thrown value: an [Error] with its message, or something else. *)
Inductive Exn :=
| Error (message : string)
| NotAnError.

(** [error instanceof Error ? error.message : "Token exchange failed"]. *)
Definition caught (e : Exn) : string :=
  match e with
  | Error message => message
  | NotAnError => "Token exchange failed"
  end.

(** What the token endpoint's answer parses to. *)
Record TokenJson := {
  j_access_token : option string;
  j_refresh_token : option string;
  j_error_description : option string
}.

(** The fetch of the token endpoint and the reading of its body: one of
    the two throws, or the body is read. *)
Inductive TokenFetch :=
| TokenThrew (e : Exn)
| TokenJsonOf (data : TokenJson).

(** A fetch of one of Google's endpoints: the fetch throws, or it
    answers, [response.ok] or not; [body] is what [response.json()]
    gives where the code calls it: it throws, or it parses (for a refused
    call, to the [error?.message] of the body). *)
Inductive ApiFetch :=
| ApiThrew (e : Exn)
| ApiNotOk (status : nat) (body : Exn + option string)
| ApiOk (body : Exn + string).

(** [{ success, profile?, error? }]. *)
Record AuthResult := {
  success : bool;
  profile : option string;
  error : option string
}.

Definition succeeded (p : string) : AuthResult :=
  {| success := true; profile := Some p; error := None |}.
Definition failed (msg : string) : AuthResult :=
  {| success := false; profile := None; error := Some msg |}.

(** The calls that return the parsed body as it is. *)
Inductive ApiMethod :=
| FetchProfile
| FetchDriveFiles
| FetchCalendarEvents (date : string)
| CreatePhotoPickerSession.

(** [oauthConfig.endpoints], of the configuration module. *)
Record Endpoints := {
  userInfo : string;
  drive : string;
  calendar : string;
  photoPicker : string
}.

Definition url_of (ep : Endpoints) (m : ApiMethod) : string :=
  match m with
  | FetchProfile => userInfo ep
  | FetchDriveFiles =>
      drive ep ++ "?pageSize=20&fields=files(id,name,mimeType,createdTime,modifiedTime,size,webViewLink,thumbnailLink,imageMediaMetadata)&orderBy=modifiedTime desc"
  | FetchCalendarEvents date =>
      calendar ep ++ "?timeMin=" ++ date ++ "T00:00:00Z" ++ "&timeMax=" ++ date
        ++ "T23:59:59Z" ++ "&maxResults=20&singleEvents=true&orderBy=startTime"
  | CreatePhotoPickerSession => photoPicker ep ++ "/sessions"
  end.

(** What a call throws under [if (!response.ok)]. Only the picker session
    reads the body of a refused call. *)
Definition refusal (m : ApiMethod) (status : nat) (body : Exn + option string)
    : Exn :=
  match m with
  | FetchProfile => Error ("Failed to fetch profile: " ++ pretty status)
  | FetchDriveFiles => Error ("Failed to fetch Drive files: " ++ pretty status)
  | FetchCalendarEvents _ =>
      Error ("Failed to fetch Calendar events: " ++ pretty status)
  | CreatePhotoPickerSession =>
      match body with
      | inl e => e
      | inr message =>
          Error ("Photo Picker session error: " ++ pretty status ++ " - "
                 ++ JS.or_else message "Unknown error")
      end
  end.

(** [fetchProfile], [fetchDriveFiles], [fetchCalendarEvents] and
    [createPhotoPickerSession]: the fetches made (their address and their
    [Authorization] header), and the body returned or the value thrown. *)
Definition call (ep : Endpoints) (svc : Service) (m : ApiMethod)
    (answer : ApiFetch) : list Picker.Event * (Exn + string) :=
  if negb (JS.truthy (accessToken svc)) then
    ([], inl (Error "No access token available"))
  else
    ([Picker.Fetch (url_of ep m) ("Bearer " ++ JS.interp (accessToken svc))],
     match answer with
     | ApiThrew e => inl e
     | ApiNotOk status body => inl (refusal m status body)
     | ApiOk body => body
     end).

(** [exchangeCodeForToken] and [exchangeCodeForTokenMobile] once the
    token endpoint has answered: the tokens are kept, then the profile is
    fetched. *)
Definition exchangeCodeForToken (ep : Endpoints) (svc : Service)
    (token : TokenFetch) (profileAnswer : ApiFetch) : Service * AuthResult :=
  match token with
  | TokenThrew e => (svc, failed (caught e))
  | TokenJsonOf data =>
      if JS.truthy (j_access_token data) then
        let svc' := {| accessToken := j_access_token data;
                       refreshToken := j_refresh_token data |} in
        match snd (call ep svc' FetchProfile profileAnswer) with
        | inr p => (svc', succeeded p)
        | inl e => (svc', failed (caught e))
        end
      else
        (svc, failed (JS.or_else (j_error_description data)
                        "Failed to get access token"))
  end.

End Client.

(* ===================================================================== *)
(** * The browser application's effects: the stored token and the OAuth
      callback (src/AppSecure.js 8, 16-24, 48-59 and 198-240)             *)
(* ===================================================================== *)

Module Browser.

(** [const [accessToken, setAccessToken] = useState(null)]: the access
    token the body of the component sees in its first render. The two
    effects have an empty dependency list: they run once, after that
    render, and they and the [apiCall] and [fetchProfile] they use are
    the closures of that render. [setAccessToken] asks for another
    render; it does not change what these closures see. *)
Definition first_render : option string := None.

(** What [apiCall] comes back with: the error it throws, or the parsed
    body. *)
Inductive Answer (A : Type) :=
| Threw (message : string)
| Got (data : A).
Arguments Threw {A} message.
Arguments Got {A} data.

(** What the effects do, in order ([setLoading] is left out). *)
Inductive Effect :=
| ApiCall_token (authorization : option string) (code state : string)
| ApiCall_profile (req : Mobile.ApiRequest)
| SetItem_access_token (value : string)
| SetAccessToken (token : option string)
| SetProfile (profileData : string)
| ReplaceState
| RemoveItem_oauth_session_id
| Alert (message : string).

(** [apiCall] with neither a date nor a picker session in its path. *)
Definition plain : WebApi.Call :=
  {| WebApi.call_date := None; WebApi.call_sessionId := None |}.

(** [apiCall("/api/user/profile")] against the web backend, in a render
    whose access token is [accessToken]: what the backend answers by
    itself is a refusal, and [apiCall] throws its message; otherwise the
    backend calls Google, and [google] says what [apiCall] comes back
    with then. *)
Definition profile_call (accessToken : option string)
    (google : Mobile.Upstream -> Answer string) : Answer string :=
  match WebApi.handle WebApi.UserProfile (WebApi.apiCall accessToken plain) with
  | inl res => Threw (WebApi.apiCall_error res)
  | inr up => google up
  end.

(** [fetchProfile]. *)
Definition fetchProfile (accessToken : option string)
    (google : Mobile.Upstream -> Answer string) : list Effect :=
  ApiCall_profile (WebApi.apiCall accessToken plain)
  :: match profile_call accessToken google with
     | Got profileData => [SetProfile profileData]
     | Threw _ => [Alert "Failed to fetch profile"]
     end.

(** The first effect: [token] is [localStorage.getItem("access_token")]. *)
Definition mount_effect (accessToken : option string) (token : option string)
    (google : Mobile.Upstream -> Answer string) : list Effect :=
  if JS.truthy token then SetAccessToken token :: fetchProfile accessToken google
  else [].

(** What the callback effect reads: the [code] and the [state] of the
    address, and [sessionStorage.getItem("oauth_session_id")]. *)
Record Page := {
  code : option string;
  state : option string;
  oauth_session_id : option string
}.

(** [a === b] on two possibly missing strings. *)
Definition strict_eq (a b : option string) : bool :=
  match a, b with
  | Some x, Some y => String.eqb x y
  | None, None => true
  | _, _ => false
  end.

(** [exchangeToken]: [tokenData] is what the call of the token endpoint
    comes back with, by its [access_token]. *)
Definition exchangeToken (accessToken : option string) (code state : string)
    (tokenData : Answer (option string))
    (google : Mobile.Upstream -> Answer string) : list Effect :=
  ApiCall_token (Mobile.authorization (WebApi.apiCall accessToken plain))
    code state
  :: match tokenData with
     | Threw _ => [Alert "Authentication failed"]
     | Got access_token =>
         SetItem_access_token (JS.interp access_token)
         :: SetAccessToken access_token
         :: ApiCall_profile (WebApi.apiCall accessToken plain)
         :: match profile_call accessToken google with
            | Threw _ => [Alert "Authentication failed"]
            | Got profileData =>
                [SetProfile profileData; ReplaceState;
                 RemoveItem_oauth_session_id;
                 Alert "Successfully signed in with Google!"]
            end
     end.

(** The second effect, the OAuth callback. *)
Definition callback_effect (accessToken : option string) (page : Page)
    (tokenData : Answer (option string))
    (google : Mobile.Upstream -> Answer string) : list Effect :=
  if JS.truthy (code page) && JS.truthy (state page) then
    if strict_eq (oauth_session_id page) (state page) then
      exchangeToken accessToken (JS.interp (code page)) (JS.interp (state page))
        tokenData google
    else []
  else [].

(** The request of a render without a token: no [Authorization]. *)
Definition bare_request : Mobile.ApiRequest :=
  {| Mobile.authorization := None; Mobile.q_user_id := None;
     Mobile.q_date := None; Mobile.q_sessionId := None;
     Mobile.q_pageSize := None |}.

End Browser.

(* ===================================================================== *)
(** * Sample inputs for the examples                                      *)
(* ===================================================================== *)

Module Samples.

Definition env : Env :=
  {| CLIENT_ID := Some "CID";
     CLIENT_SECRET := Some "SECRET";
     REDIRECT_URI := Some "http://localhost:3000" |}.

(** The platform at time [t]. *)
Definition at_time (t : Z) : Platform :=
  {| now := t; randomUUID := "S2"; randomBytes := [] |}.

(** The platform at time [t] when a session is created: 32 bytes are
    drawn and the UUID is ["S2"]. *)
Definition creating_at (t : Z) : Platform :=
  {| now := t; randomUUID := "S2"; randomBytes := List.repeat x41 32 |}.

(** The exchange that redeems session ["S2"]. *)
Definition redeem : TokenBodyIn :=
  {| in_code := Some "c2"; in_state := Some "S2"; in_userId := None |}.

(** The exchange the scenarios replay: code ["c1"], state ["S1"]. *)
Definition exchange : TokenBodyIn :=
  {| in_code := Some "c1"; in_state := Some "S1"; in_userId := None |}.

(** The provider refuses the code with the body [{error: "invalid_grant"}];
    the message is the one axios gives a 400 answer. *)
Definition invalid_grant : Provider.AxiosResult :=
  Provider.Rejected
    {| Provider.message := "Request failed with status code 400";
       Provider.response_data :=
         Some {| Provider.error := Some "invalid_grant";
                 Provider.error_description := None |} |}.

(** The provider accepts the code. *)
Definition granted : Provider.AxiosResult :=
  Provider.Resolved
    {| Provider.access_token := Some "ya29.access";
       Provider.new_refresh_token := Some "1//refresh";
       Provider.expires_in := Some 3599%Z;
       Provider.scope := Some "openid" |}.

(** What the provider answers when it accepts. *)
Definition granted_data : Provider.TokenData :=
  {| Provider.access_token := Some "ya29.access";
     Provider.new_refresh_token := Some "1//refresh";
     Provider.expires_in := Some 3599%Z;
     Provider.scope := Some "openid" |}.

Definition granted_resolved : Provider.AxiosResult :=
  Provider.Resolved granted_data.

(** A request of the mobile app that names its user and sends no header;
    the exchanges above draw the UUID ["S2"] for the user. *)
Definition by_user_id : Mobile.ApiRequest :=
  {| Mobile.authorization := None;
     Mobile.q_user_id := Some "S2";
     Mobile.q_date := None; Mobile.q_sessionId := None;
     Mobile.q_pageSize := None |}.

(** The provider accepts and names no lifetime. *)
Definition granted_forever : Provider.TokenData :=
  {| Provider.access_token := Some "ya29.access";
     Provider.new_refresh_token := None;
     Provider.expires_in := None;
     Provider.scope := None |}.

(** A picked photo, and a provider that is ready at the second fetch. *)
Definition picked : Picker.MediaItem :=
  {| Picker.id := Some "m1";
     Picker.mediaFile :=
       Some {| Picker.baseUrl := Some "https://lh3.googleusercontent.com/p1";
               Picker.filename := None;
               Picker.mimeType := Some "image/jpeg" |};
     Picker.createTime := None;
     Picker.mediaFileMetadata := None |}.

Definition ready_at_second (n : nat) : Picker.FetchResult :=
  match n with
  | 0 =>
      Picker.HttpError 400
        (Some {| Picker.err_status := Some "FAILED_PRECONDITION";
                 Picker.err_message := None |})
  | _ => Picker.HttpOk (Some [picked])
  end.

(** The picker window is left open. *)
Definition never_closed : Flow.World :=
  {| Flow.closedAt := None; Flow.latency := 100%N;
     Flow.answer := fun _ => Some [] |}.

(** The endpoints of Google the client is configured with
    ([oauthConfig.endpoints]). *)
Definition endpoints : Client.Endpoints :=
  {| Client.userInfo :=
       "https://people.googleapis.com/v1/people/me?personFields=names,emailAddresses";
     Client.drive := "https://www.googleapis.com/drive/v3/files";
     Client.calendar :=
       "https://www.googleapis.com/calendar/v3/calendars/primary/events";
     Client.photoPicker := "https://photospicker.googleapis.com/v1" |}.

(** The stores after [create(verifier = "abc")] returned ["S1"] at time 0. *)
Definition web_store : gmap string Web.Session :=
  {[ "S1" := {| Web.codeVerifier := "abc"; Web.timestamp := 0 |} ]}.

Definition mobile_store : Mobile.Store :=
  {| Mobile.activeSessions :=
       {[ "S1" := {| Mobile.codeVerifier := "abc"; Mobile.timestamp := 0;
                     Mobile.userAgent := "Expo" |} ]};
     Mobile.userTokens := ∅ |}.

Definition always_not_ready (_ : nat) : Picker.FetchResult :=
  Picker.HttpError 400
    (Some {| Picker.err_status := Some "FAILED_PRECONDITION";
             Picker.err_message := Some "The user has not finished picking" |}).


Definition sample_request : Mobile.ApiRequest :=
  {| Mobile.authorization := Some "Bearer ya29.token";
     Mobile.q_user_id := Some "someone-else";
     Mobile.q_date := None; Mobile.q_sessionId := None; Mobile.q_pageSize := None |}.


(** Headers that begin with ["Bearer "] and go on with a space inside. *)
Definition two_words_request : Mobile.ApiRequest :=
  {| Mobile.authorization := Some "Bearer a b";
     Mobile.q_user_id := None;
     Mobile.q_date := None; Mobile.q_sessionId := None; Mobile.q_pageSize := None |}.

Definition two_spaces_request : Mobile.ApiRequest :=
  {| Mobile.authorization := Some "Bearer  x";
     Mobile.q_user_id := None;
     Mobile.q_date := None; Mobile.q_sessionId := None; Mobile.q_pageSize := None |}.

Definition stored : Mobile.UserToken :=
  {| Mobile.access_token := Some "old-access";
     Mobile.refresh_token := Some "refresh-1";
     Mobile.expires_at := Some 1000%Z; Mobile.user_id := "u1" |}.

Definition refresh_request : Mobile.RefreshBodyIn :=
  {| Mobile.in_refresh_token := Some "refresh-1";
     Mobile.in_user_id := Some "u1" |}.

Definition one_user : Mobile.Store :=
  {| Mobile.activeSessions := ∅;
     Mobile.userTokens := {[ "u1" := stored ]} |}.


Definition replayed : TokenBodyIn :=
  {| in_code := Some "c1"; in_state := Some "unknown-or-already-used";
     in_userId := None |}.



(** The window is closed a second and a half before the timeout. *)
Definition closed_late : Flow.World :=
  {| Flow.closedAt := Some 28500%N; Flow.latency := 100%N;
     Flow.answer := fun _ => Some [] |}.


End Samples.

(* ===================================================================== *)
(** * Properties of the challenge generator                               *)
(* ===================================================================== *)

Module PkceFacts.
Import Pkce.

Lemma urlsafe_cons (x : ascii) (s : string) :
  urlsafe (String x s) = urlsafe (String x "") ++ urlsafe s.
Proof.
  unfold urlsafe. cbn [JS.replaceAll].
  destruct (Ascii.eqb x "+") eqn:Hplus; cbn.
  - reflexivity.
  - destruct (Ascii.eqb x "/") eqn:Hslash; cbn.
    + reflexivity.
    + destruct (Ascii.eqb x "="); reflexivity.
Qed.

(** Digit by digit the replacements turn the standard alphabet into the
    URL-safe one. *)
Lemma urlsafe_digit (i : N) :
  urlsafe (String (digit alphabet_std i) "") = String (digit alphabet_url i) "".
Proof.
  unfold digit. generalize (N.to_nat i) as n. intros n.
  do 64 (destruct n as [|n]; [reflexivity|]).
  reflexivity.
Qed.

Lemma urlsafe_padding : urlsafe "=" = "" /\ urlsafe "==" = "".
Proof. split; reflexivity. Qed.

(** Induction over a buffer three bytes at a time. *)
Lemma buffer_ind3 (P : list byte -> Prop) :
  P [] -> (forall a, P [a]) -> (forall a b, P [a; b]) ->
  (forall a b c rest, P rest -> P (a :: b :: c :: rest)) ->
  forall buffer, P buffer.
Proof.
  intros H0 H1 H2 H3.
  fix IH 1. intros [|a [|b [|c rest]]].
  - exact H0.
  - apply H1.
  - apply H2.
  - apply H3, IH.
Qed.

Lemma base64urlencode_is_base64url (buffer : list byte) :
  base64urlencode buffer = base64url_reference buffer.
Proof.
  change (urlsafe (toString_base64 buffer) = base64url_reference buffer).
  induction buffer as [|a|a b|a b c rest IH] using buffer_ind3.
  - reflexivity.
  - cbn [toString_base64 base64url_reference].
    rewrite urlsafe_cons, urlsafe_digit.
    rewrite urlsafe_cons, urlsafe_digit.
    reflexivity.
  - cbn [toString_base64 base64url_reference].
    do 3 rewrite urlsafe_cons, urlsafe_digit.
    reflexivity.
  - cbn [toString_base64 base64url_reference].
    do 4 rewrite urlsafe_cons, urlsafe_digit.
    rewrite IH. reflexivity.
Qed.

(** The test vectors of RFC 4648, section 10. *)
Example base64_foobar :
  List.map (fun s => toString_base64 (utf8 s))
    [""; "f"; "fo"; "foo"; "foob"; "fooba"; "foobar"]
  = [""; "Zg=="; "Zm8="; "Zm9v"; "Zm9vYg=="; "Zm9vYmE="; "Zm9vYmFy"].
Proof. reflexivity. Qed.

Example base64urlencode_bytes :
  base64urlencode [xfb; xff; xfe; x3e] = "-__-Pg"
  /\ toString_base64 [xfb; xff; xfe; x3e] = "+//+Pg==".
Proof. split; reflexivity. Qed.

(** C5. [generateCodeChallenge] is a function of the verifier alone, and,
    in the backends as in the client, it returns the base64url encoding
    (URL-safe alphabet, no padding) of the SHA-256 digest of the
    verifier's UTF-8 bytes. *)
Theorem generateCodeChallenge_is_reference
    (sha256 : list byte -> list byte) (verifier : string) :
  generateCodeChallenge sha256 verifier
    = deriveChallenge_reference sha256 verifier
  /\ generateCodeChallenge_client sha256 verifier
    = deriveChallenge_reference sha256 verifier.
Proof.
  unfold generateCodeChallenge, generateCodeChallenge_client,
    digestStringAsync_base64, deriveChallenge_reference.
  split; apply base64urlencode_is_base64url.
Qed.

End PkceFacts.

(* ===================================================================== *)
(** * Properties of the picker                                            *)
(* ===================================================================== *)

Module PickerFacts.
Import Picker.

Lemma fold_push_item (items : list MediaItem) (photos : list PhotoItem) :
  fold_left push_item items photos
  = (photos ++ List.map normalise (List.filter has_baseUrl items))%list.
Proof.
  revert photos. induction items as [|item items IH]; intros photos; cbn.
  - now rewrite app_nil_r.
  - rewrite IH. unfold push_item, has_baseUrl, normalise.
    destruct (JS.truthy (of_mediaFile baseUrl item)); cbn.
    + now rewrite <- app_assoc.
    + reflexivity.
Qed.

Lemma transform_filter_map (mediaItems : option (list MediaItem)) :
  transform mediaItems
  = List.map normalise (List.filter has_baseUrl (default [] mediaItems)).
Proof. unfold transform. now rewrite fold_push_item. Qed.

Lemma filter_length_le {A} (f : A -> bool) (l : list A) :
  List.length (List.filter f l) <= List.length l.
Proof.
  induction l as [|x l IH]; cbn; [lia|].
  destruct (f x); cbn; lia.
Qed.

(** C10. The loop emits, in input order, one photo for each media item
    whose [mediaFile.baseUrl] is a non-empty string and nothing for the
    others, so the output is no longer than the input; the thumbnail of
    an emitted photo is its URL followed by [=w200-h200], and its name is
    [mediaFile.filename], or [Photo <id>] when there is none. *)
Theorem transform_normalises (mediaItems : option (list MediaItem)) :
  transform mediaItems
    = List.map normalise (List.filter has_baseUrl (default [] mediaItems))
  /\ List.length (transform mediaItems) <= List.length (default [] mediaItems)
  /\ Forall (fun photo =>
               photo_thumbnails photo = [photo_url photo ++ "=w200-h200"])
       (transform mediaItems)
  /\ (forall item : MediaItem,
        photo_url (normalise item) = JS.interp (of_mediaFile baseUrl item)
        /\ photo_name (normalise item)
           = match of_mediaFile filename item with
             | Some name => if String.eqb name "" then "Photo " ++ JS.interp (id item)
                            else name
             | None => "Photo " ++ JS.interp (id item)
             end).
Proof.
  split; [apply transform_filter_map|].
  split.
  { rewrite transform_filter_map, length_map. apply filter_length_le. }
  split.
  { rewrite transform_filter_map. apply List.Forall_forall.
    intros photo Hin. apply in_map_iff in Hin as [item [<- _]]. reflexivity. }
  intros item. split; reflexivity.
Qed.

(** ** The retrying fetch *)

Section Retry.

Variable accessToken : option string.
Variable photoPicker : string.
Variable server : nat -> FetchResult.

Abbreviation fetchSelected := (fetchSelectedPhotos accessToken photoPicker server).

(** Whatever the provider answers, a call makes at most one attempt and
    as many retries as are left of the three. *)
Lemma attempts_le (sessionId : string) (retryCount calls : nat) :
  attempts (fst (fetchSelected sessionId retryCount calls))
  <= 1 + (3 - retryCount).
Proof.
  funelim (fetchSelectedPhotos accessToken photoPicker server
             sessionId retryCount calls);
    cbn in *; lia.
Qed.

Hypothesis signed_in : JS.truthy accessToken = true.

Abbreviation request sessionId :=
  (Fetch (mediaItems_url photoPicker sessionId)
     ("Bearer " ++ JS.interp accessToken)).

(** The branch of lines 1118-1123: the listing is not ready and fewer
    than three retries were made. *)
Lemma fetchSelected_retry (sessionId : string) (retryCount calls : nat)
    (status : nat) (error : option ApiError) :
  server calls = HttpError status error ->
  not_ready error = true ->
  retryCount < 3 ->
  fetchSelected sessionId retryCount calls
  = (request sessionId :: Sleep (N.of_nat (retryCount + 1) * 2000)
       :: fst (fetchSelected sessionId (retryCount + 1) (calls + 1)),
     snd (fetchSelected sessionId (retryCount + 1) (calls + 1))).
Proof.
  intros Hserver Hnot Hlt.
  remember (fetchSelected sessionId (retryCount + 1) (calls + 1)) as rest
    eqn:Hrest.
  rewrite fetchSelectedPhotos_equation_1.
  rewrite signed_in. cbn. rewrite Hserver. cbn. rewrite Hnot. cbn.
  unfold fetchSelectedPhotos_unfold_clause_1_clause_2_clause_3.
  destruct (lt_dec retryCount 3) as [?|Hge]; [|lia].
  cbn. now rewrite <- Hrest.
Qed.

(** The [throw] of line 1125: the three retries are used up. *)
Lemma fetchSelected_exhausted (sessionId : string) (retryCount calls : nat)
    (status : nat) (error : option ApiError) :
  server calls = HttpError status error ->
  3 <= retryCount ->
  fetchSelected sessionId retryCount calls
  = ([request sessionId], Thrown (api_error_message status error)).
Proof.
  intros Hserver Hge.
  rewrite fetchSelectedPhotos_equation_1.
  rewrite signed_in. cbn. rewrite Hserver. cbn.
  unfold fetchSelectedPhotos_unfold_clause_1_clause_2_clause_3.
  destruct (lt_dec retryCount 3) as [Hlt|?]; [lia|].
  destruct (not_ready error); reflexivity.
Qed.

End Retry.

(** C4. Signed in, and with a provider that answers every listing with
    the status [FAILED_PRECONDITION], [fetchSelectedPhotos] makes four
    fetches (the first attempt and three retries), pausing 2, 4 and 6
    seconds between them, and then throws the error of the last answer;
    and whatever the provider answers it makes at most four fetches. *)
Theorem fetchSelectedPhotos_retry_bound
    (accessToken : option string) (photoPicker : string)
    (server : nat -> FetchResult) (sessionId : string) (calls : nat) :
  JS.truthy accessToken = true ->
  (forall n, exists status error,
      server n = HttpError status error /\ not_ready error = true) ->
  let run := fetchSelectedPhotos accessToken photoPicker server sessionId 0 calls in
  attempts (fst run) = 4
  /\ delays (fst run) = [2000; 4000; 6000]%N
  /\ (exists status error,
        server (calls + 3) = HttpError status error
        /\ snd run = Thrown (api_error_message status error))
  /\ (forall server' sessionId' calls',
        attempts (fst (fetchSelectedPhotos accessToken photoPicker server'
                         sessionId' 0 calls')) <= 4).
Proof.
  intros Htok Hnot run.
  destruct (Hnot calls) as (s0 & e0 & H0 & N0).
  destruct (Hnot (calls + 1)) as (s1 & e1 & H1 & N1).
  destruct (Hnot (calls + 1 + 1)) as (s2 & e2 & H2 & N2).
  destruct (Hnot (calls + 1 + 1 + 1)) as (s3 & e3 & H3 & N3).
  assert (Hrun : run =
    ([Fetch (mediaItems_url photoPicker sessionId) ("Bearer " ++ JS.interp accessToken);
      Sleep 2000;
      Fetch (mediaItems_url photoPicker sessionId) ("Bearer " ++ JS.interp accessToken);
      Sleep 4000;
      Fetch (mediaItems_url photoPicker sessionId) ("Bearer " ++ JS.interp accessToken);
      Sleep 6000;
      Fetch (mediaItems_url photoPicker sessionId) ("Bearer " ++ JS.interp accessToken)],
     Thrown (api_error_message s3 e3))).
  { unfold run.
    rewrite (fetchSelected_retry _ _ _ Htok _ 0 _ _ _ H0 N0) by lia.
    rewrite (fetchSelected_retry _ _ _ Htok _ 1 _ _ _ H1 N1) by lia.
    rewrite (fetchSelected_retry _ _ _ Htok _ 2 _ _ _ H2 N2) by lia.
    rewrite (fetchSelected_exhausted _ _ _ Htok _ 3 _ _ _ H3) by lia.
    reflexivity. }
  rewrite Hrun. cbn.
  split; [reflexivity|]. split; [reflexivity|]. split.
  - exists s3, e3. split; [|reflexivity].
    rewrite <- H3. f_equal. lia.
  - intros server' sessionId' calls'.
    apply (attempts_le accessToken photoPicker server' sessionId' 0 calls').
Qed.

Lemma fetchSelectedPhotos_retry_bound_witness :
  let run := fetchSelectedPhotos (Some "token") "https://photospicker.googleapis.com/v1"
               Samples.always_not_ready "session" 0 0 in
  attempts (fst run) = 4
  /\ delays (fst run) = [2000; 4000; 6000]%N
  /\ (exists status error,
        Samples.always_not_ready (0 + 3) = HttpError status error
        /\ snd run = Thrown (api_error_message status error))
  /\ (forall server' sessionId' calls',
        attempts (fst (fetchSelectedPhotos (Some "token")
                         "https://photospicker.googleapis.com/v1" server'
                         sessionId' 0 calls')) <= 4).
Proof.
  apply (fetchSelectedPhotos_retry_bound (Some "token")
           "https://photospicker.googleapis.com/v1" Samples.always_not_ready "session" 0).
  - reflexivity.
  - intros n. eexists _, _. split; reflexivity.
Defined.

End PickerFacts.

(* ===================================================================== *)
(** * Properties of the mobile backend's authenticated endpoints          *)
(* ===================================================================== *)

Module AuthFacts.
Import Mobile.

Lemma split_spaceless (s : string) :
  JS.spaceless s = true -> JS.split " " s = [s].
Proof.
  induction s as [|x s IH]; cbn; [reflexivity|].
  intros H. apply andb_prop in H as [Hx Hs].
  destruct (Ascii.eqb x " "); [discriminate|].
  now rewrite (IH Hs).
Qed.

(** [("Bearer " + token).split(" ")[1]] is the token. *)
Lemma bearer_token (token : string) :
  JS.spaceless token = true ->
  JS.split " " ("Bearer " ++ token) !! 1%nat = Some token.
Proof.
  intros H.
  change (JS.split " " ("Bearer " ++ token))
    with ("Bearer" :: JS.split " " token).
  now rewrite (split_spaceless token H).
Qed.

Lemma resolve_bearer (req : ApiRequest) (now : Z)
    (userTokens : gmap string UserToken) (rest : string) :
  authorization req = Some ("Bearer " ++ rest) ->
  resolveAccessToken req now userTokens
  = inr (JS.split " " ("Bearer " ++ rest) !! 1%nat).
Proof.
  intros H. unfold resolveAccessToken. rewrite H.
  assert (Hguard : JS.truthy (Some ("Bearer " ++ rest))
                   && JS.startsWith (JS.interp (Some ("Bearer " ++ rest))) "Bearer "
                   = true) by reflexivity.
  now rewrite Hguard.
Qed.

Lemma upstream_ignores_user_id (e : Endpoint) (req : ApiRequest)
    (u : option string) (accessToken : option string) :
  upstream_of e (with_user_id u req) accessToken = upstream_of e req accessToken.
Proof. destruct e; reflexivity. Qed.

Lemma precheck_ignores_user_id (e : Endpoint) (req : ApiRequest)
    (u : option string) :
  precheck e (with_user_id u req) = precheck e req.
Proof. destruct e; reflexivity. Qed.

Lemma precheck_status (e : Endpoint) (req : ApiRequest) (res : Response) :
  precheck e req = Some res -> status res = 400%Z.
Proof.
  destruct e; cbn; try discriminate.
  - destruct (JS.truthy (q_date req)); [discriminate|]. now intros [= <-].
  - destruct (JS.truthy (q_sessionId req)); [discriminate|]. now intros [= <-].
Qed.

(** Whatever follows ["Bearer "] in the header, the [user_id], the stored
    tokens and the clock play no part. *)
Lemma bearer_header_ignores_store (e : Endpoint) (req : ApiRequest)
    (rest : string) (u : option string) (now now' : Z)
    (userTokens userTokens' : gmap string UserToken) :
  authorization req = Some ("Bearer " ++ rest) ->
  handle e (with_user_id u req) now' userTokens' = handle e req now userTokens.
Proof.
  intros Hauth. unfold handle.
  rewrite precheck_ignores_user_id.
  destruct (precheck e req); [reflexivity|].
  rewrite (resolve_bearer req now userTokens rest Hauth).
  rewrite (resolve_bearer (with_user_id u req) now' userTokens' rest Hauth).
  now rewrite upstream_ignores_user_id.
Qed.

(** On the [user_id] path an unknown user and an expired token are
    answered 401. *)
Lemma user_id_path_checks_expiry (e : Endpoint) (req : ApiRequest) (now : Z)
    (userTokens : gmap string UserToken) :
  authorization req = None ->
  JS.truthy (q_user_id req) = true ->
  precheck e req = None ->
  match userTokens !! JS.interp (q_user_id req) with
  | None => handle e req now userTokens = inl (fail 401 "Token expired or invalid")
  | Some userToken =>
      if expired now (expires_at userToken)
      then handle e req now userTokens = inl (fail 401 "Token expired or invalid")
      else handle e req now userTokens
           = inr (upstream_of e req (access_token userToken))
  end.
Proof.
  intros Hauth Hu Hpre. unfold handle, resolveAccessToken.
  rewrite Hpre, Hauth, Hu. cbn.
  destruct (userTokens !! JS.interp (q_user_id req)) as [userToken|];
    [|reflexivity].
  destruct (expired now (expires_at userToken)); reflexivity.
Qed.

(** [s.split(" ")] begins with the text of [s] up to its first space. *)
Lemma split_first_word (s : string) :
  exists token tail others,
    s = token ++ tail
    /\ JS.spaceless token = true
    /\ (tail = "" \/ exists t, tail = String " " t)
    /\ JS.split " " s = token :: others.
Proof.
  induction s as [|x s (token & tail & others & Hs & Hsp & Htail & Hsplit)].
  - exists "", "", []. repeat split; try reflexivity. now left.
  - cbn [JS.split]. destruct (Ascii.eqb_spec x " ") as [->|Hx].
    + exists "", (String " " s), (JS.split " " s).
      repeat split; try reflexivity. right. now exists s.
    + rewrite Hsplit. exists (String x token), tail, others.
      split; [|split; [|split]].
      * change (String x token ++ tail) with (String x (token ++ tail)).
        now rewrite <- Hs.
      * cbn [JS.spaceless]. rewrite Hsp.
        destruct (Ascii.eqb_spec x " "); [contradiction|reflexivity].
      * exact Htail.
      * reflexivity.
Qed.

(** C9, as the code has it. At each of the seven authenticated endpoints
    of the mobile backend, a request whose [Authorization] header begins
    with ["Bearer "] is served with the token taken from the header,
    which is [authHeader.split(" ")[1]]: what follows ["Bearer "] up to
    the next space, so the whole of it when it has no space. The call to
    Google carries [Bearer <token>], the answer does not depend on the
    [user_id] supplied, on the stored user tokens or on the clock, and it
    is never the 401 of the [user_id] path. *)
Theorem bearer_header_wins (e : Endpoint) (req : ApiRequest) (now : Z)
    (userTokens : gmap string UserToken) (rest : string) :
  authorization req = Some ("Bearer " ++ rest) ->
  exists token tail,
    rest = token ++ tail
    /\ JS.spaceless token = true
    /\ (tail = "" \/ exists t, tail = String " " t)
    /\ (JS.spaceless rest = true -> token = rest)
    /\ handle e req now userTokens
       = match precheck e req with
         | Some res => inl res
         | None => inr (upstream_of e req (Some token))
         end
    /\ (forall up, handle e req now userTokens = inr up ->
          header_authorization up = "Bearer " ++ token)
    /\ (forall res, handle e req now userTokens = inl res -> status res = 400%Z)
    /\ (forall u now' userTokens',
          handle e (with_user_id u req) now' userTokens'
          = handle e req now userTokens).
Proof.
  intros Hauth.
  destruct (split_first_word rest)
    as (token & tail & others & Hrest & Hsp & Htail & Hsplit).
  exists token, tail.
  split; [exact Hrest|]. split; [exact Hsp|]. split; [exact Htail|].
  split.
  { intros Hwhole. rewrite (split_spaceless rest Hwhole) in Hsplit.
    now injection Hsplit as <- _. }
  assert (Htoken : JS.split " " ("Bearer " ++ rest) !! 1%nat = Some token).
  { change (JS.split " " ("Bearer " ++ rest))
      with ("Bearer" :: JS.split " " rest).
    now rewrite Hsplit. }
  assert (Hreq : handle e req now userTokens
                 = match precheck e req with
                   | Some res => inl res
                   | None => inr (upstream_of e req (Some token))
                   end).
  { unfold handle. destruct (precheck e req) as [res|]; [reflexivity|].
    rewrite (resolve_bearer _ _ _ rest) by exact Hauth.
    now rewrite Htoken. }
  split; [exact Hreq|]. split; [|split].
  - intros up. rewrite Hreq.
    destruct (precheck e req); [discriminate|].
    intros [= <-]. destruct e; reflexivity.
  - intros res. rewrite Hreq.
    destruct (precheck e req) as [res'|] eqn:Hpre; [|discriminate].
    intros [= <-]. exact (precheck_status e req res' Hpre).
  - intros u now' userTokens'.
    exact (bearer_header_ignores_store e req rest u now now' userTokens
             userTokens' Hauth).
Qed.

Lemma bearer_header_wins_witness :
  handle DriveFiles Samples.sample_request 0 ∅
    = inr (upstream_of DriveFiles Samples.sample_request (Some "ya29.token"))
  /\ (forall u now' userTokens',
        handle DriveFiles (with_user_id u Samples.sample_request) now' userTokens'
        = handle DriveFiles Samples.sample_request 0 ∅).
Proof.
  destruct (bearer_header_wins DriveFiles Samples.sample_request 0 ∅
              "ya29.token" eq_refl)
    as (token & tail & _ & _ & _ & Hwhole & Hhandle & _ & _ & Hsame).
  specialize (Hwhole eq_refl). subst token.
  split; [exact Hhandle | exact Hsame].
Defined.

(** C9, as stated, fails where the header goes on with a space: of
    ["Bearer a b"] only ["a"] is sent to Google, and of ["Bearer  x"],
    with two spaces, the empty token. *)
Lemma bearer_token_cut_at_space :
  JS.startsWith "Bearer a b" "Bearer " = true
  /\ JS.startsWith "Bearer  x" "Bearer " = true
  /\ option_map header_authorization
       (match handle DriveFiles Samples.two_words_request 0 ∅ with
        | inr up => Some up
        | inl _ => None
        end) = Some "Bearer a"
  /\ option_map header_authorization
       (match handle DriveFiles Samples.two_spaces_request 0 ∅ with
        | inr up => Some up
        | inl _ => None
        end) = Some "Bearer ".
Proof. vm_compute. repeat split; reflexivity. Qed.

End AuthFacts.

(* ===================================================================== *)
(** * Properties of the token store of the mobile backend                 *)
(* ===================================================================== *)

Module RefreshFacts.
Import Mobile.

(** C7. A refresh that the provider accepts, for a [user_id] that has a
    stored record, writes that record's [access_token] and [expires_at]
    and nothing else: its [user_id] and [refresh_token] stay, every other
    entry of [userTokens] stays, and so do the sessions. The store meant
    is the one the continuation finds when the provider has answered. *)
Theorem refresh_frame (env : Env) (req : RefreshBodyIn) (p : Platform)
    (st : Store) (uid : string) :
  JS.truthy (in_refresh_token req) = true ->
  in_user_id req = Some uid ->
  uid <> "" ->
  exists post k,
    oauth_refresh env req p st = (st, AwaitPost post k)
    /\ forall (data : Provider.TokenData) (p' : Platform) (st' : Store)
              (userToken : UserToken),
         userTokens st' !! uid = Some userToken ->
         let after := fst (k (Provider.Resolved data) p' st') in
         userTokens after !! uid = Some (Mobile.refreshed userToken data (now p'))
         /\ user_id (Mobile.refreshed userToken data (now p')) = user_id userToken
         /\ refresh_token (Mobile.refreshed userToken data (now p'))
            = refresh_token userToken
         /\ (forall other, other <> uid ->
               userTokens after !! other = userTokens st' !! other)
         /\ activeSessions after = activeSessions st'.
Proof.
  intros Hrt Huid Hne. unfold oauth_refresh. rewrite Hrt. cbn.
  eexists _, _. split; [reflexivity|].
  intros data p' st' userToken Hlook. cbn.
  assert (Htruthy : JS.truthy (in_user_id req) = true).
  { rewrite Huid. cbn. destruct (String.eqb_spec uid ""); [contradiction|reflexivity]. }
  rewrite Htruthy, Huid. cbn. rewrite Hlook. cbn.
  split; [apply lookup_insert_eq|].
  split; [reflexivity|]. split; [reflexivity|]. split; [|reflexivity].
  intros other Hother. now apply lookup_insert_ne.
Qed.

Lemma refresh_frame_witness :
  exists post k,
    oauth_refresh Samples.env Samples.refresh_request (Samples.at_time 0) Samples.one_user
      = (Samples.one_user, AwaitPost post k)
    /\ forall (data : Provider.TokenData) (p' : Platform) (st' : Store)
              (userToken : UserToken),
         userTokens st' !! "u1" = Some userToken ->
         let after := fst (k (Provider.Resolved data) p' st') in
         userTokens after !! "u1" = Some (Mobile.refreshed userToken data (now p'))
         /\ user_id (Mobile.refreshed userToken data (now p')) = user_id userToken
         /\ refresh_token (Mobile.refreshed userToken data (now p'))
            = refresh_token userToken
         /\ (forall other, other <> "u1" ->
               userTokens after !! other = userTokens st' !! other)
         /\ activeSessions after = activeSessions st'.
Proof.
  apply (refresh_frame Samples.env Samples.refresh_request (Samples.at_time 0) Samples.one_user "u1").
  - reflexivity.
  - reflexivity.
  - discriminate.
Defined.

End RefreshFacts.

(* ===================================================================== *)
(** * Properties of the code exchange                                     *)
(* ===================================================================== *)

Module ExchangeFacts.

(** ** What the caller is told when the provider refuses the exchange *)

Lemma web_token_posts (env : Env) (req : TokenBodyIn) (p : Platform)
    (st : gmap string Web.Session) (sid : string) (session : Web.Session) :
  JS.truthy (in_code req) = true ->
  in_state req = Some sid -> sid <> "" ->
  st !! sid = Some session ->
  exists post k,
    Web.oauth_token env req p st = (st, AwaitPost post k)
    /\ Provider.code_verifier post = Some (Web.codeVerifier session)
    /\ (forall e p' st', k (Provider.Rejected e) p' st' = (st', exchange_failed e))
    /\ (forall data p' st',
          fst (k (Provider.Resolved data) p' st') = delete sid st').
Proof.
  intros Hcode Hstate Hne Hlook. unfold Web.oauth_token.
  rewrite Hcode, Hstate. cbn.
  destruct (String.eqb_spec sid ""); [contradiction|]. cbn.
  rewrite Hlook. eexists _, _. split; [reflexivity|].
  repeat split; reflexivity.
Qed.

Lemma mobile_token_posts (env : Env) (req : TokenBodyIn) (p : Platform)
    (st : Mobile.Store) (sid : string) (session : Mobile.Session) :
  JS.truthy (in_code req) = true ->
  in_state req = Some sid -> sid <> "" ->
  Mobile.activeSessions st !! sid = Some session ->
  (now p - Mobile.timestamp session <= Mobile.SESSION_TTL)%Z ->
  exists post k,
    Mobile.oauth_token env req p st = (st, AwaitPost post k)
    /\ Provider.code_verifier post = Some (Mobile.codeVerifier session)
    /\ (forall e p' st', k (Provider.Rejected e) p' st' = (st', exchange_failed e))
    /\ (forall data p' st',
          Mobile.activeSessions (fst (k (Provider.Resolved data) p' st'))
          = delete sid (Mobile.activeSessions st')).
Proof.
  intros Hcode Hstate Hne Hlook Hfresh. unfold Mobile.oauth_token.
  rewrite Hcode, Hstate. cbn.
  destruct (String.eqb_spec sid ""); [contradiction|]. cbn.
  rewrite Hlook.
  destruct (Z.gtb_spec (now p - Mobile.timestamp session) Mobile.SESSION_TTL);
    [lia|].
  eexists _, _. split; [reflexivity|].
  repeat split; reflexivity.
Qed.

(** C6, as the code has it. When the provider refuses the exchange, both
    backends answer 500 ["Token exchange failed"] with, as details, the
    provider's [error_description] when it is a non-empty string and
    otherwise the message of the failed request; the provider's [error]
    code is not part of the answer. The session store is left as it was
    found. *)
Theorem exchange_rejection_details (env : Env) (req : TokenBodyIn)
    (p : Platform) (e : Provider.AxiosError) :
  let details :=
    match Provider.response_data e with
    | Some d =>
        match Provider.error_description d with
        | Some description =>
            if String.eqb description "" then Provider.message e else description
        | None => Provider.message e
        end
    | None => Provider.message e
    end in
  (forall st st0 post k p' st',
      Web.oauth_token env req p st = (st0, AwaitPost post k) ->
      k (Provider.Rejected e) p' st'
      = (st', {| status := 500;
                 body := ErrorBody "Token exchange failed" (Some details) |}))
  /\ (forall st st0 post k p' st',
      Mobile.oauth_token env req p st = (st0, AwaitPost post k) ->
      k (Provider.Rejected e) p' st'
      = (st', {| status := 500;
                 body := ErrorBody "Token exchange failed" (Some details) |})).
Proof.
  intros details.
  assert (Hdetails : Provider.details_of e = details).
  { unfold details, Provider.details_of, JS.or_else.
    destruct (Provider.response_data e) as [d|]; [|reflexivity].
    destruct (Provider.error_description d); reflexivity. }
  split.
  - intros st st0 post k p' st'. unfold Web.oauth_token.
    destruct (negb (JS.truthy (in_code req)) || negb (JS.truthy (in_state req)));
      [discriminate|].
    destruct (st !! JS.interp (in_state req)); [|discriminate].
    intros [= _ _ <-]. now rewrite Hdetails.
  - intros st st0 post k p' st'. unfold Mobile.oauth_token.
    destruct (negb (JS.truthy (in_code req)) || negb (JS.truthy (in_state req)));
      [discriminate|].
    destruct (Mobile.activeSessions st !! JS.interp (in_state req)) as [session|];
      [|discriminate].
    destruct (now p - Mobile.timestamp session >? Mobile.SESSION_TTL)%Z;
      [discriminate|].
    intros [= _ _ <-]. now rewrite Hdetails.
Qed.

Lemma exchange_rejection_details_witness :
  let e := {| Provider.message := "Request failed with status code 400";
              Provider.response_data :=
                Some {| Provider.error := Some "invalid_grant";
                        Provider.error_description := Some "Bad Request" |} |} in
  match Web.oauth_token Samples.env Samples.exchange (Samples.at_time 1)
          Samples.web_store with
  | (_, AwaitPost post k) =>
      k (Provider.Rejected e) (Samples.at_time 2) Samples.web_store
      = (Samples.web_store,
         {| status := 500;
            body := ErrorBody "Token exchange failed" (Some "Bad Request") |})
  | (_, Respond _) => False
  end.
Proof.
  intros e.
  destruct (Web.oauth_token Samples.env Samples.exchange (Samples.at_time 1)
              Samples.web_store) as [st0 [res|post k]] eqn:Hbegin.
  - vm_compute in Hbegin. discriminate.
  - exact (proj1 (exchange_rejection_details Samples.env Samples.exchange
                    (Samples.at_time 1) e)
             Samples.web_store st0 post k (Samples.at_time 2)
             Samples.web_store Hbegin).
Defined.

(** C6, as stated, fails: the provider answers [{error: "invalid_grant"}]
    and neither backend mentions ["invalid_grant"] to its caller. *)
Lemma invalid_grant_not_surfaced :
  let web := complete (fun _ => Samples.invalid_grant) (Samples.at_time 2)
               (Web.oauth_token Samples.env Samples.exchange
                  (Samples.at_time 1) Samples.web_store) in
  let mobile := complete (fun _ => Samples.invalid_grant) (Samples.at_time 2)
                  (Mobile.oauth_token Samples.env Samples.exchange
                     (Samples.at_time 1) Samples.mobile_store) in
  snd (fst web)
    = {| status := 500;
         body := ErrorBody "Token exchange failed"
                   (Some "Request failed with status code 400") |}
  /\ mentions (snd (fst web)) "invalid_grant" = false
  /\ snd (fst mobile) = snd (fst web)
  /\ mentions (snd (fst mobile)) "invalid_grant" = false.
Proof. vm_compute. repeat split; reflexivity. Qed.

End ExchangeFacts.

(* ===================================================================== *)
(** * Properties of the session stores                                    *)
(* ===================================================================== *)

Module SessionFacts.

(** ** Sessions are created by [GET /api/oauth/url] *)

Lemma web_oauth_url_creates (sha256 : list byte -> list byte)
    (encodeURIComponent : string -> string) (env : Env) (p : Platform)
    (st : gmap string Web.Session) :
  fst (Web.oauth_url sha256 encodeURIComponent env p st) !! randomUUID p
  = Some {| Web.codeVerifier := Pkce.generateCodeVerifier (randomBytes p);
            Web.timestamp := now p |}.
Proof. unfold Web.oauth_url. cbn. apply lookup_insert_eq. Qed.

Lemma mobile_oauth_url_creates (sha256 : list byte -> list byte)
    (encodeURIComponent : string -> string) (env : Env)
    (ua : option string) (p : Platform) (st : Mobile.Store) :
  Mobile.activeSessions (fst (Mobile.oauth_url sha256 encodeURIComponent env ua p st))
    !! randomUUID p
  = Some {| Mobile.codeVerifier := Pkce.generateCodeVerifier (randomBytes p);
            Mobile.timestamp := now p;
            Mobile.userAgent := JS.or_else ua "unknown" |}.
Proof. unfold Mobile.oauth_url. cbn. apply lookup_insert_eq. Qed.

(** What is left of the sessions when an exchange has succeeded. *)
Lemma web_exchange_consumes (env : Env) (req : TokenBodyIn) (p : Platform)
    (st st0 : gmap string Web.Session) (post : Provider.TokenRequest)
    (k : Provider.AxiosResult -> Platform -> gmap string Web.Session
         -> gmap string Web.Session * Response) :
  Web.oauth_token env req p st = (st0, AwaitPost post k) ->
  exists sid,
    in_state req = Some sid /\ sid <> ""
    /\ forall data p' st',
         fst (k (Provider.Resolved data) p' st') = delete sid st'.
Proof.
  unfold Web.oauth_token.
  destruct (JS.truthy (in_code req)); [|discriminate].
  destruct (in_state req) as [sid|] eqn:Hstate; [|discriminate].
  cbn. destruct (String.eqb_spec sid ""); [discriminate|]. cbn.
  destruct (st !! sid); [|discriminate].
  intros [= _ _ <-]. exists sid. repeat split; assumption.
Qed.

Lemma mobile_exchange_consumes (env : Env) (req : TokenBodyIn) (p : Platform)
    (st st0 : Mobile.Store) (post : Provider.TokenRequest)
    (k : Provider.AxiosResult -> Platform -> Mobile.Store
         -> Mobile.Store * Response) :
  Mobile.oauth_token env req p st = (st0, AwaitPost post k) ->
  exists sid,
    in_state req = Some sid /\ sid <> ""
    /\ forall data p' st',
         Mobile.activeSessions (fst (k (Provider.Resolved data) p' st'))
         = delete sid (Mobile.activeSessions st')
         /\ forall id, id <> JS.or_else (in_userId req) (randomUUID p') ->
              Mobile.userTokens (fst (k (Provider.Resolved data) p' st')) !! id
              = Mobile.userTokens st' !! id.
Proof.
  unfold Mobile.oauth_token.
  destruct (JS.truthy (in_code req)); [|discriminate].
  destruct (in_state req) as [sid|] eqn:Hstate; [|discriminate].
  cbn. destruct (String.eqb_spec sid ""); [discriminate|]. cbn.
  destruct (Mobile.activeSessions st !! sid) as [session|]; [|discriminate].
  destruct (now p - Mobile.timestamp session >? Mobile.SESSION_TTL)%Z;
    [discriminate|].
  intros [= _ _ <-]. exists sid. split; [reflexivity|]. split; [assumption|].
  intros data p' st'. split; [reflexivity|].
  intros id Hid. cbn. now apply lookup_insert_ne.
Qed.

(** An exchange whose state names no stored session. *)
Lemma web_unknown_state (env : Env) (req : TokenBodyIn) (p : Platform)
    (st : gmap string Web.Session) :
  (forall sid, in_state req = Some sid -> st !! sid = None) ->
  exists res,
    Web.oauth_token env req p st = (st, Respond res)
    /\ is_session_error res = true
    /\ (JS.truthy (in_code req) = true -> JS.truthy (in_state req) = true ->
        res = fail 400 "Invalid or expired session").
Proof.
  intros Hnone. unfold Web.oauth_token.
  destruct (JS.truthy (in_code req)), (JS.truthy (in_state req)) eqn:Hstate;
    cbn [negb orb];
    try (eexists; split; [reflexivity|]; split; [reflexivity|];
         intros; discriminate).
  destruct (in_state req) as [sid|]; [|discriminate].
  cbn [JS.interp]. rewrite (Hnone sid eq_refl).
  eexists. split; [reflexivity|]. split; reflexivity.
Qed.

Lemma mobile_unknown_state (env : Env) (req : TokenBodyIn) (p : Platform)
    (st : Mobile.Store) :
  (forall sid, in_state req = Some sid ->
     Mobile.activeSessions st !! sid = None) ->
  exists res,
    Mobile.oauth_token env req p st = (st, Respond res)
    /\ is_session_error res = true
    /\ (JS.truthy (in_code req) = true -> JS.truthy (in_state req) = true ->
        res = fail 400 "Invalid or expired session").
Proof.
  intros Hnone. unfold Mobile.oauth_token.
  destruct (JS.truthy (in_code req)), (JS.truthy (in_state req)) eqn:Hstate;
    cbn [negb orb];
    try (eexists; split; [reflexivity|]; split; [reflexivity|];
         intros; discriminate).
  destruct (in_state req) as [sid|]; [|discriminate].
  cbn [JS.interp]. rewrite (Hnone sid eq_refl).
  eexists. split; [reflexivity|]. split; reflexivity.
Qed.

(** C3, as the code has it. An exchange is answered 400 with a session
    error, and nothing is posted to the token endpoint whatever the
    provider would have answered, in each of these cases:
    - unknown: its state, if it has one, names no stored session (both
      backends; the store is left as found);
    - consumed: an earlier exchange with the same state succeeded, and
      this one finds the sessions as that one left them (both backends);
    - expired: the session it names is older than ten minutes (the mobile
      backend, which also drops the session; no user token is touched).
    With a code and a state given, the error reads
    ["Invalid or expired session"] in the first two cases and
    ["Session expired"] in the third. *)
Theorem dead_state_is_rejected_before_post (env : Env) (req : TokenBodyIn)
    (p later : Platform)
    (provider : Provider.TokenRequest -> Provider.AxiosResult) :
  let rejected (res : Response) (message : string) :=
    is_session_error res = true
    /\ (JS.truthy (in_code req) = true -> JS.truthy (in_state req) = true ->
        res = fail 400 message) in
  (forall st : gmap string Web.Session,
      (forall sid, in_state req = Some sid -> st !! sid = None) ->
      exists res,
        complete provider later (Web.oauth_token env req p st) = (st, res, [])
        /\ rejected res "Invalid or expired session")
  /\ (forall st : Mobile.Store,
      (forall sid, in_state req = Some sid ->
         Mobile.activeSessions st !! sid = None) ->
      exists res,
        complete provider later (Mobile.oauth_token env req p st) = (st, res, [])
        /\ rejected res "Invalid or expired session")
  /\ (forall req1 p1 st1 st0 post k data p' st',
      in_state req1 = in_state req ->
      Web.oauth_token env req1 p1 st1 = (st0, AwaitPost post k) ->
      let after := fst (k (Provider.Resolved data) p' st') in
      exists res,
        complete provider later (Web.oauth_token env req p after)
        = (after, res, [])
        /\ rejected res "Invalid or expired session")
  /\ (forall req1 p1 st1 st0 post k data p' st',
      in_state req1 = in_state req ->
      Mobile.oauth_token env req1 p1 st1 = (st0, AwaitPost post k) ->
      let after := fst (k (Provider.Resolved data) p' st') in
      exists res,
        complete provider later (Mobile.oauth_token env req p after)
        = (after, res, [])
        /\ rejected res "Invalid or expired session")
  /\ (forall (st : Mobile.Store) sid session,
      in_state req = Some sid ->
      Mobile.activeSessions st !! sid = Some session ->
      (now p - Mobile.timestamp session > Mobile.SESSION_TTL)%Z ->
      exists st' res,
        complete provider later (Mobile.oauth_token env req p st)
        = (st', res, [])
        /\ rejected res "Session expired"
        /\ Mobile.userTokens st' = Mobile.userTokens st
        /\ (JS.truthy (in_code req) = true -> sid <> "" ->
            st' = Mobile.set_sessions (delete sid) st)).
Proof.
  intros rejected. unfold rejected. clear rejected.
  split; [|split; [|split; [|split]]].
  - intros st Hnone.
    destruct (web_unknown_state env req p st Hnone) as (res & -> & Hres).
    now exists res.
  - intros st Hnone.
    destruct (mobile_unknown_state env req p st Hnone) as (res & -> & Hres).
    now exists res.
  - intros req1 p1 st1 st0 post k data p' st' Hsame Hfirst.
    set (after := fst (k (Provider.Resolved data) p' st')).
    destruct (web_exchange_consumes env req1 p1 st1 st0 post k Hfirst)
      as (sid & Hstate1 & _ & Hdel).
    assert (Hnone : forall sid', in_state req = Some sid' ->
                      after !! sid' = None).
    { intros sid' Hsid'. rewrite <- Hsame, Hstate1 in Hsid'.
      injection Hsid' as <-. unfold after. rewrite Hdel.
      apply lookup_delete_eq. }
    destruct (web_unknown_state env req p after Hnone) as (res & -> & Hres).
    now exists res.
  - intros req1 p1 st1 st0 post k data p' st' Hsame Hfirst.
    set (after := fst (k (Provider.Resolved data) p' st')).
    destruct (mobile_exchange_consumes env req1 p1 st1 st0 post k Hfirst)
      as (sid & Hstate1 & _ & Hdel).
    assert (Hnone : forall sid', in_state req = Some sid' ->
                      Mobile.activeSessions after !! sid' = None).
    { intros sid' Hsid'. rewrite <- Hsame, Hstate1 in Hsid'.
      injection Hsid' as <-. unfold after.
      rewrite (proj1 (Hdel data p' st')). apply lookup_delete_eq. }
    destruct (mobile_unknown_state env req p after Hnone) as (res & -> & Hres).
    now exists res.
  - intros st sid session Hstate Hlook Hlate. unfold Mobile.oauth_token.
    rewrite Hstate.
    destruct (JS.truthy (in_code req)), (JS.truthy (Some sid)) eqn:Hsid;
      cbn [negb orb];
      try (eexists _, _; split; [reflexivity|]; split;
           [split; [reflexivity | intros; discriminate]|];
           split; [reflexivity | intros; discriminate]).
    + cbn [JS.interp]. rewrite Hlook.
      destruct (Z.gtb_spec (now p - Mobile.timestamp session)
                  Mobile.SESSION_TTL); [|lia].
      eexists _, _. split; [reflexivity|]. split; [split; reflexivity|].
      split; reflexivity.
    + eexists _, _. split; [reflexivity|]. split;
        [split; [reflexivity | intros; discriminate]|].
      split; [reflexivity|].
      intros _ Hne. cbn in Hsid.
      destruct (String.eqb_spec sid ""); [contradiction | discriminate].
Qed.

Lemma dead_state_is_rejected_before_post_witness :
  (exists res,
      complete (fun _ => Samples.granted) (Samples.at_time 2)
        (Web.oauth_token Samples.env Samples.replayed (Samples.at_time 1)
           Samples.web_store)
      = (Samples.web_store, res, [])
      /\ is_session_error res = true
      /\ (JS.truthy (in_code Samples.replayed) = true ->
          JS.truthy (in_state Samples.replayed) = true ->
          res = fail 400 "Invalid or expired session"))
  /\ (exists st' res,
      complete (fun _ => Samples.granted) (Samples.at_time 2)
        (Mobile.oauth_token Samples.env Samples.exchange
           (Samples.at_time 600001) Samples.mobile_store)
      = (st', res, [])
      /\ (is_session_error res = true
          /\ (JS.truthy (in_code Samples.exchange) = true ->
              JS.truthy (in_state Samples.exchange) = true ->
              res = fail 400 "Session expired"))
      /\ Mobile.userTokens st' = Mobile.userTokens Samples.mobile_store
      /\ (JS.truthy (in_code Samples.exchange) = true -> "S1" <> "" ->
          st' = Mobile.set_sessions (delete "S1") Samples.mobile_store))
  /\ match Web.oauth_token Samples.env Samples.exchange (Samples.at_time 1)
             Samples.web_store with
     | (_, AwaitPost post k) =>
         exists res,
           complete (fun _ => Samples.granted) (Samples.at_time 4)
             (Web.oauth_token Samples.env Samples.exchange (Samples.at_time 3)
                (fst (k Samples.granted_resolved (Samples.at_time 2)
                        Samples.web_store)))
           = (fst (k Samples.granted_resolved (Samples.at_time 2)
                     Samples.web_store), res, [])
           /\ is_session_error res = true
           /\ (JS.truthy (in_code Samples.exchange) = true ->
               JS.truthy (in_state Samples.exchange) = true ->
               res = fail 400 "Invalid or expired session")
     | (_, Respond _) => False
     end.
Proof.
  pose proof (dead_state_is_rejected_before_post Samples.env Samples.replayed
                (Samples.at_time 1) (Samples.at_time 2)
                (fun _ => Samples.granted)) as (Hunknown & _).
  pose proof (dead_state_is_rejected_before_post Samples.env Samples.exchange
                (Samples.at_time 600001) (Samples.at_time 2)
                (fun _ => Samples.granted)) as (_ & _ & _ & _ & Hexpired).
  pose proof (dead_state_is_rejected_before_post Samples.env Samples.exchange
                (Samples.at_time 3) (Samples.at_time 4)
                (fun _ => Samples.granted)) as (_ & _ & Hconsumed & _).
  split; [|split].
  - apply (Hunknown Samples.web_store).
    intros sid [= <-]. vm_compute. reflexivity.
  - apply (Hexpired Samples.mobile_store "S1"
             {| Mobile.codeVerifier := "abc"; Mobile.timestamp := 0;
                Mobile.userAgent := "Expo" |}).
    + reflexivity.
    + vm_compute. reflexivity.
    + vm_compute. reflexivity.
  - destruct (Web.oauth_token Samples.env Samples.exchange (Samples.at_time 1)
                Samples.web_store) as [st0 [res|post k]] eqn:Hbegin.
    + vm_compute in Hbegin. discriminate.
    + exact (Hconsumed Samples.exchange (Samples.at_time 1) Samples.web_store
               st0 post k Samples.granted_data (Samples.at_time 2)
               Samples.web_store eq_refl Hbegin).
Defined.

(** C3, as stated, fails: a state that was already used, in an exchange
    the provider refused, still reaches the token endpoint in both
    backends and is answered with the tokens; in backend/server.js so
    does a state whose session is, besides, older than ten minutes. *)
Lemma used_state_still_reaches_provider :
  let refused_web :=
    complete (fun _ => Samples.invalid_grant) (Samples.at_time 2)
      (Web.oauth_token Samples.env Samples.exchange (Samples.at_time 1)
         Samples.web_store) in
  let again_web :=
    complete (fun _ => Samples.granted) (Samples.at_time 5001)
      (Web.oauth_token Samples.env Samples.exchange (Samples.at_time 5000)
         (fst (fst refused_web))) in
  let late_web :=
    complete (fun _ => Samples.granted) (Samples.at_time 700001)
      (Web.oauth_token Samples.env Samples.exchange (Samples.at_time 700000)
         (fst (fst refused_web))) in
  let refused_mobile :=
    complete (fun _ => Samples.invalid_grant) (Samples.at_time 2)
      (Mobile.oauth_token Samples.env Samples.exchange (Samples.at_time 1)
         Samples.mobile_store) in
  let again_mobile :=
    complete (fun _ => Samples.granted) (Samples.at_time 5001)
      (Mobile.oauth_token Samples.env Samples.exchange (Samples.at_time 5000)
         (fst (fst refused_mobile))) in
  List.length (snd refused_web) = 1%nat
  /\ List.length (snd refused_mobile) = 1%nat
  /\ List.length (snd again_web) = 1%nat
  /\ is_session_error (snd (fst again_web)) = false
  /\ status (snd (fst again_web)) = 200%Z
  /\ List.length (snd again_mobile) = 1%nat
  /\ is_session_error (snd (fst again_mobile)) = false
  /\ status (snd (fst again_mobile)) = 200%Z
  /\ List.length (snd late_web) = 1%nat
  /\ status (snd (fst late_web)) = 200%Z.
Proof. vm_compute. repeat split; reflexivity. Qed.

(** A request the middleware of the mobile backend lets through: one
    from Expo or React Native, or any request outside production. *)
Lemma validateMobileRequest_passes (NODE_ENV ua : option string) :
  Mobile.validateMobileRequest NODE_ENV ua = None
  <-> (JS.includes (JS.or_else ua "") "Expo"
       || JS.includes (JS.or_else ua "") "ReactNative" = true
       \/ NODE_ENV <> Some "production").
Proof.
  unfold Mobile.validateMobileRequest.
  destruct (JS.includes (JS.or_else ua "") "Expo"
            || JS.includes (JS.or_else ua "") "ReactNative"); cbn [negb andb].
  - split; [now left | reflexivity].
  - destruct NODE_ENV as [e|].
    + destruct (String.eqb_spec e "production") as [->|Hne].
      * split; [discriminate|]. intros [H|H]; [discriminate | now contradiction H].
      * split; [|reflexivity]. intros _. right. now intros [= ->].
    + split; [|reflexivity]. intros _. now right.
Qed.

(** ** Expiry *)

(** The mobile backend turns down a session older than ten minutes and
    drops it (lines 147-151). *)
Lemma mobile_session_expires (env : Env) (req : TokenBodyIn) (p : Platform)
    (st : Mobile.Store) (sid : string) (session : Mobile.Session) :
  JS.truthy (in_code req) = true ->
  in_state req = Some sid -> sid <> "" ->
  Mobile.activeSessions st !! sid = Some session ->
  (now p > Mobile.timestamp session + Mobile.SESSION_TTL)%Z ->
  Mobile.oauth_token env req p st
  = (Mobile.set_sessions (delete sid) st, Respond (fail 400 "Session expired")).
Proof.
  intros Hcode Hstate Hne Hlook Hlate. unfold Mobile.oauth_token.
  rewrite Hcode, Hstate. cbn.
  destruct (String.eqb_spec sid ""); [contradiction|]. cbn.
  rewrite Hlook.
  destruct (Z.gtb_spec (now p - Mobile.timestamp session) Mobile.SESSION_TTL);
    [reflexivity | lia].
Qed.

(** The web backend never reads the clock in its exchange handler. *)
Lemma web_exchange_ignores_clock (env : Env) (req : TokenBodyIn)
    (p p' : Platform) (st : gmap string Web.Session) :
  Web.oauth_token env req p st = Web.oauth_token env req p' st.
Proof. reflexivity. Qed.

(** C2, on the code. A session created at time 0 and presented at time
    600001, one millisecond past its ten minutes: the mobile backend
    answers ["Session expired"], posts nothing and drops the session; the
    web backend, which has no expiry check, posts the stored verifier to
    the token endpoint and answers with the tokens. *)
Theorem web_session_outlives_ttl :
  let late := Samples.at_time 600001 in
  let web := complete (fun _ => Samples.granted) late
               (Web.oauth_token Samples.env Samples.exchange late
                  Samples.web_store) in
  let mobile := complete (fun _ => Samples.granted) late
                  (Mobile.oauth_token Samples.env Samples.exchange late
                     Samples.mobile_store) in
  List.map Provider.code_verifier (snd web) = [Some "abc"]
  /\ status (snd (fst web)) = 200%Z
  /\ snd mobile = []
  /\ snd (fst mobile) = fail 400 "Session expired"
  /\ Mobile.activeSessions (fst (fst mobile)) !! "S1" = None.
Proof. vm_compute. repeat split; reflexivity. Qed.

(** ** Single use *)

(** C1, as the code has it. An exchange that carries the [state] of a
    stored session, within ten minutes of the session's creation, posts
    that session's verifier. When the provider accepts, the session is
    removed, and from then on every exchange with the same state is
    answered 400 (["Invalid or expired session"] when it has a code)
    without a post. When the provider refuses, the answer is 500 and the
    store is left as it was found: the session is not removed, and a
    later exchange with the same state, still within the ten minutes, is
    handed the same verifier again. *)
Theorem session_consumed_by_successful_exchange (env : Env)
    (req : TokenBodyIn) (p : Platform) (sid : string) :
  JS.truthy (in_code req) = true ->
  in_state req = Some sid ->
  sid <> "" ->
  (forall (st : gmap string Web.Session) (session : Web.Session),
      st !! sid = Some session ->
      (now p - Web.timestamp session <= Mobile.SESSION_TTL)%Z ->
      exists post k,
        Web.oauth_token env req p st = (st, AwaitPost post k)
        /\ Provider.code_verifier post = Some (Web.codeVerifier session)
        /\ (forall data p' st',
             let after := fst (k (Provider.Resolved data) p' st') in
             after !! sid = None
             /\ forall req2 p2,
                  in_state req2 = Some sid ->
                  exists res,
                    Web.oauth_token env req2 p2 after = (after, Respond res)
                    /\ status res = 400%Z
                    /\ (JS.truthy (in_code req2) = true ->
                        res = fail 400 "Invalid or expired session"))
        /\ (forall e p' st',
             let refused := k (Provider.Rejected e) p' st' in
             fst refused = st'
             /\ status (snd refused) = 500%Z
             /\ forall req2 p2,
                  JS.truthy (in_code req2) = true ->
                  in_state req2 = Some sid ->
                  st' !! sid = Some session ->
                  (now p2 - Web.timestamp session <= Mobile.SESSION_TTL)%Z ->
                  exists post2 k2,
                    Web.oauth_token env req2 p2 (fst refused)
                    = (st', AwaitPost post2 k2)
                    /\ Provider.code_verifier post2
                       = Some (Web.codeVerifier session)))
  /\ (forall (st : Mobile.Store) (session : Mobile.Session),
      Mobile.activeSessions st !! sid = Some session ->
      (now p - Mobile.timestamp session <= Mobile.SESSION_TTL)%Z ->
      exists post k,
        Mobile.oauth_token env req p st = (st, AwaitPost post k)
        /\ Provider.code_verifier post = Some (Mobile.codeVerifier session)
        /\ (forall data p' st',
             let after := fst (k (Provider.Resolved data) p' st') in
             Mobile.activeSessions after !! sid = None
             /\ forall req2 p2,
                  in_state req2 = Some sid ->
                  exists res,
                    Mobile.oauth_token env req2 p2 after = (after, Respond res)
                    /\ status res = 400%Z
                    /\ (JS.truthy (in_code req2) = true ->
                        res = fail 400 "Invalid or expired session"))
        /\ (forall e p' st',
             let refused := k (Provider.Rejected e) p' st' in
             fst refused = st'
             /\ status (snd refused) = 500%Z
             /\ forall req2 p2,
                  JS.truthy (in_code req2) = true ->
                  in_state req2 = Some sid ->
                  Mobile.activeSessions st' !! sid = Some session ->
                  (now p2 - Mobile.timestamp session <= Mobile.SESSION_TTL)%Z ->
                  exists post2 k2,
                    Mobile.oauth_token env req2 p2 (fst refused)
                    = (st', AwaitPost post2 k2)
                    /\ Provider.code_verifier post2
                       = Some (Mobile.codeVerifier session))).
Proof.
  intros Hcode Hstate Hne. split.
  - intros st session Hlook _.
    destruct (ExchangeFacts.web_token_posts env req p st sid session
                Hcode Hstate Hne Hlook) as (post & k & Hbegin & Hver & Hno & Hok).
    exists post, k. split; [exact Hbegin|]. split; [exact Hver|]. split.
    + intros data p' st' after.
      assert (Hgone : after !! sid = None).
      { unfold after. rewrite Hok. apply lookup_delete_eq. }
      split; [exact Hgone|].
      intros req2 p2 Hstate2. unfold Web.oauth_token.
      rewrite Hstate2. cbn.
      destruct (String.eqb_spec sid ""); [contradiction|]. cbn.
      rewrite Hgone.
      destruct (JS.truthy (in_code req2)); cbn; eexists;
        (split; [reflexivity|]); (split; [reflexivity|]);
        [reflexivity | discriminate].
    + intros e p' st' refused. unfold refused. rewrite Hno. cbn [fst snd].
      split; [reflexivity|]. split; [reflexivity|].
      intros req2 p2 Hcode2 Hstate2 Hstill _.
      destruct (ExchangeFacts.web_token_posts env req2 p2 st' sid session
                  Hcode2 Hstate2 Hne Hstill) as (post2 & k2 & Hagain & Hver2 & _).
      now exists post2, k2.
  - intros st session Hlook Hfresh.
    destruct (ExchangeFacts.mobile_token_posts env req p st sid session
                Hcode Hstate Hne Hlook Hfresh)
      as (post & k & Hbegin & Hver & Hno & Hok).
    exists post, k. split; [exact Hbegin|]. split; [exact Hver|]. split.
    + intros data p' st' after.
      assert (Hgone : Mobile.activeSessions after !! sid = None).
      { unfold after. rewrite Hok. apply lookup_delete_eq. }
      split; [exact Hgone|].
      intros req2 p2 Hstate2. unfold Mobile.oauth_token.
      rewrite Hstate2. cbn.
      destruct (String.eqb_spec sid ""); [contradiction|]. cbn.
      rewrite Hgone.
      destruct (JS.truthy (in_code req2)); cbn; eexists;
        (split; [reflexivity|]); (split; [reflexivity|]);
        [reflexivity | discriminate].
    + intros e p' st' refused. unfold refused. rewrite Hno. cbn [fst snd].
      split; [reflexivity|]. split; [reflexivity|].
      intros req2 p2 Hcode2 Hstate2 Hstill Hfresh2.
      destruct (ExchangeFacts.mobile_token_posts env req2 p2 st' sid session
                  Hcode2 Hstate2 Hne Hstill Hfresh2)
        as (post2 & k2 & Hagain & Hver2 & _).
      now exists post2, k2.
Qed.

Lemma session_consumed_by_successful_exchange_witness :
  (exists post k,
      Web.oauth_token Samples.env Samples.exchange (Samples.at_time 1)
        Samples.web_store = (Samples.web_store, AwaitPost post k)
      /\ Provider.code_verifier post = Some "abc"
      /\ (forall data p' st',
           fst (k (Provider.Resolved data) p' st') !! "S1" = None)
      /\ (forall e p' st',
           fst (k (Provider.Rejected e) p' st') = st'))
  /\ (exists post k,
      Mobile.oauth_token Samples.env Samples.exchange (Samples.at_time 1)
        Samples.mobile_store = (Samples.mobile_store, AwaitPost post k)
      /\ Provider.code_verifier post = Some "abc"
      /\ (forall data p' st',
           Mobile.activeSessions (fst (k (Provider.Resolved data) p' st'))
             !! "S1" = None)
      /\ (forall e p' st',
           fst (k (Provider.Rejected e) p' st') = st')).
Proof.
  pose proof (session_consumed_by_successful_exchange Samples.env
                Samples.exchange (Samples.at_time 1) "S1"
                eq_refl eq_refl ltac:(discriminate)) as [Hweb Hmobile].
  split.
  - destruct (Hweb Samples.web_store
                {| Web.codeVerifier := "abc"; Web.timestamp := 0 |})
      as (post & k & Hbegin & Hver & Hok & Hno).
    + vm_compute. reflexivity.
    + vm_compute. discriminate.
    + exists post, k. split; [exact Hbegin|]. split; [exact Hver|]. split.
      * intros data p' st'. exact (proj1 (Hok data p' st')).
      * intros e p' st'. exact (proj1 (Hno e p' st')).
  - destruct (Hmobile Samples.mobile_store
                {| Mobile.codeVerifier := "abc"; Mobile.timestamp := 0;
                   Mobile.userAgent := "Expo" |})
      as (post & k & Hbegin & Hver & Hok & Hno).
    + vm_compute. reflexivity.
    + vm_compute. discriminate.
    + exists post, k. split; [exact Hbegin|]. split; [exact Hver|]. split.
      * intros data p' st'. exact (proj1 (Hok data p' st')).
      * intros e p' st'. exact (proj1 (Hno e p' st')).
Defined.

(** C1, as stated, fails: the provider refuses a first exchange, the
    session stays, and a second exchange with the same state is handed
    the same verifier and succeeds. The same happens when two exchanges
    with one state overlap: both read the session before either removes
    it. *)
Lemma session_survives_failed_exchange :
  let first_web := complete (fun _ => Samples.invalid_grant) (Samples.at_time 2)
                     (Web.oauth_token Samples.env Samples.exchange
                        (Samples.at_time 1) Samples.web_store) in
  let second_web := complete (fun _ => Samples.granted) (Samples.at_time 4)
                      (Web.oauth_token Samples.env Samples.exchange
                         (Samples.at_time 3) (fst (fst first_web))) in
  let first_mobile := complete (fun _ => Samples.invalid_grant) (Samples.at_time 2)
                        (Mobile.oauth_token Samples.env Samples.exchange
                           (Samples.at_time 1) Samples.mobile_store) in
  let second_mobile := complete (fun _ => Samples.granted) (Samples.at_time 4)
                         (Mobile.oauth_token Samples.env Samples.exchange
                            (Samples.at_time 3) (fst (fst first_mobile))) in
  List.map Provider.code_verifier (snd first_web) = [Some "abc"]
  /\ status (snd (fst first_web)) = 500%Z
  /\ List.map Provider.code_verifier (snd second_web) = [Some "abc"]
  /\ status (snd (fst second_web)) = 200%Z
  /\ List.map Provider.code_verifier (snd first_mobile) = [Some "abc"]
  /\ status (snd (fst first_mobile)) = 500%Z
  /\ List.map Provider.code_verifier (snd second_mobile) = [Some "abc"]
  /\ status (snd (fst second_mobile)) = 200%Z.
Proof. vm_compute. repeat split; reflexivity. Qed.

(** Two overlapping exchanges: each runs to its [await] on the same
    store, and each posts the verifier. *)
Lemma overlapping_exchanges_both_read :
  exists post1 k1 post2 k2,
    Web.oauth_token Samples.env Samples.exchange (Samples.at_time 1)
      Samples.web_store = (Samples.web_store, AwaitPost post1 k1)
    /\ Web.oauth_token Samples.env Samples.exchange (Samples.at_time 1)
         Samples.web_store = (Samples.web_store, AwaitPost post2 k2)
    /\ Provider.code_verifier post1 = Some "abc"
    /\ Provider.code_verifier post2 = Some "abc".
Proof.
  eexists _, _, _, _. split; [reflexivity|]. split; [reflexivity|].
  split; reflexivity.
Qed.

End SessionFacts.

(* ===================================================================== *)
(** * Properties of the picker window flow                                *)
(* ===================================================================== *)

Module FlowFacts.
Import Flow.

Lemma count_app (kind : Task -> bool) (q q' : list Timer) :
  count kind (q ++ q') = count kind q + count kind q'.
Proof. induction q as [|t q IH]; cbn; [reflexivity|]. rewrite IH. lia. Qed.

Lemma count_clearInterval_polls (q : list Timer) :
  count polls (clearInterval q) = 0.
Proof.
  unfold clearInterval.
  induction q as [|t q IH]; cbn; [reflexivity|].
  unfold is_poll. destruct t as [d []]; cbn; exact IH.
Qed.

Lemma count_clearInterval_other (kind : Task -> bool) (q : list Timer) :
  kind CheckClosed = false ->
  count kind (clearInterval q) = count kind q.
Proof.
  intros Hk. unfold clearInterval.
  induction q as [|t q IH]; cbn; [reflexivity|].
  unfold is_poll in *. destruct t as [d []]; cbn; rewrite ?Hk.
  all: try (rewrite IH; reflexivity).
Qed.

Lemma pick_count (kind : Task -> bool) (q : list Timer) (t : Timer)
    (rest : list Timer) :
  pick q = Some (t, rest) ->
  count kind q = (if kind (task t) then 1 else 0) + count kind rest.
Proof.
  revert t rest. induction q as [|x q IH]; intros t rest; cbn [pick];
    [discriminate|].
  destruct (pick q) as [[t' r]|] eqn:Hq.
  - destruct (due t' <? due x)%N; intros [= <- <-].
    + cbn [count]. rewrite (IH t' r eq_refl). lia.
    + reflexivity.
  - intros [= <- <-]. destruct q as [|y q]; [reflexivity|].
    cbn [pick] in Hq. destruct (pick q) as [[t' r]|]; [|discriminate].
    destruct (due t' <? due y)%N; discriminate.
Qed.

Lemma fetches_app (l l' : list (N * Ev)) :
  fetches (l ++ l') = fetches l + fetches l'.
Proof.
  induction l as [|[t e] l IH]; cbn; [reflexivity|].
  destruct e; rewrite IH; reflexivity.
Qed.

Lemma saw_closed_app (l l' : list (N * Ev)) :
  saw_closed (l ++ l') = saw_closed l || saw_closed l'.
Proof. apply existsb_app. Qed.

Lemma start_inv (budget : nat) : 1 <= budget -> Inv budget start.
Proof. intros H. split; cbn; try lia; discriminate. Qed.

Ltac crunch :=
  unfold emit, with_queue, setTimeout in *;
  cbn [queue log clock settled] in *;
  repeat first
    [ rewrite count_app
    | rewrite fetches_app
    | rewrite saw_closed_app
    | rewrite count_clearInterval_polls
    | rewrite (count_clearInterval_other hard_timeout) by reflexivity
    | rewrite (count_clearInterval_other delayed_fetch) by reflexivity ];
  cbn [count fetches saw_closed existsb snd task polls hard_timeout
       delayed_fetch orb] in *.

Lemma checkClosed_inv (budget : nat) (w : World) (st : State) :
  1 <= budget ->
  fetches (log st) + count delayed_fetch (queue st) + S (count polls (queue st))
  + (budget - 1) * count hard_timeout (queue st) <= budget ->
  (count hard_timeout (queue st) = 0 -> False) ->
  count hard_timeout (queue st) <= 1 ->
  saw_closed (log st) = false ->
  Inv budget (checkClosed w st).
Proof.
  intros Hb Hf Ht Hh Hc. unfold checkClosed.
  destruct (closed w _); split; crunch; rewrite ?Hc; cbn; try lia;
    try discriminate.
Qed.

Ltac finish Hc :=
  split; crunch; rewrite ?orb_false_r; try lia;
  try (let H := fresh in intros H; try specialize (Hc H); lia).

Lemma step_web_inv (w : World) (st : State) :
  Inv 2 st -> Inv 2 (step (exec_web w) st).
Proof.
  intros [Hf Ht Hc Hh]. unfold step.
  destruct (pick (queue st)) as [[t rest]|] eqn:Hpick; [|now split].
  pose proof (pick_count polls _ _ _ Hpick) as Hp.
  pose proof (pick_count hard_timeout _ _ _ Hpick) as Hq.
  pose proof (pick_count delayed_fetch _ _ _ Hpick) as Hd.
  destruct t as [d tk]. cbn [task due] in *.
  destruct tk; cbn [exec_web polls hard_timeout delayed_fetch] in *.
  - apply checkClosed_inv; cbn [queue log]; try lia.
    destruct (saw_closed (log st)); [|reflexivity].
    specialize (Hc eq_refl). lia.
  - finish Hc.
  - finish Hc.
  - destruct (answer w n); finish Hc.
  - destruct (answer w n); finish Hc.
  - finish Hc.
Qed.

Section App.

Variable accessToken : option string.
Variable photoPicker : string.
Variable server : nat -> Picker.FetchResult.
Variable sessionId : string.

Abbreviation exec := (exec_app accessToken photoPicker server sessionId).

Lemma step_app_inv (w : World) (st : State) :
  Inv 1 st -> Inv 1 (step (exec w) st).
Proof.
  intros [Hf Ht Hc Hh]. unfold step.
  destruct (pick (queue st)) as [[t rest]|] eqn:Hpick; [|now split].
  pose proof (pick_count polls _ _ _ Hpick) as Hp.
  pose proof (pick_count hard_timeout _ _ _ Hpick) as Hq.
  pose proof (pick_count delayed_fetch _ _ _ Hpick) as Hd.
  destruct t as [d tk]. cbn [task due] in *.
  destruct tk; cbn [exec_app polls hard_timeout delayed_fetch] in *.
  - apply checkClosed_inv; cbn [queue log]; try lia.
    destruct (saw_closed (log st)); [|reflexivity].
    specialize (Hc eq_refl). lia.
  - finish Hc.
  - unfold settle. cbn [settled emit with_queue].
    destruct (settled st); finish Hc.
  - finish Hc.
  - finish Hc.
  - destruct o; unfold settle; cbn [settled emit];
      destruct (settled st); finish Hc.
Qed.

(** A settled promise stays as it is. *)
Lemma step_app_settled (w : World) (st : State) (o : Picker.Outcome) :
  settled st = Some o -> settled (step (exec w) st) = Some o.
Proof.
  intros Hs. unfold step.
  destruct (pick (queue st)) as [[t rest]|]; [|exact Hs].
  destruct t as [d tk].
  destruct tk; cbn [task due exec_app]; try exact Hs.
  - unfold checkClosed, emit, with_queue. cbn [clock queue log settled].
    destruct (closed w d); exact Hs.
  - unfold settle, emit, with_queue. cbn [clock queue log settled].
    rewrite Hs. reflexivity.
  - destruct o0; unfold settle, emit; cbn [clock queue log settled];
      rewrite Hs; reflexivity.
Qed.

End App.


Lemma steps_add (exec : Task -> State -> State) (n m : nat) (st : State) :
  steps exec (n + m) st = steps exec m (steps exec n st).
Proof.
  revert st. induction n as [|n IH]; intros st; cbn; [reflexivity|]. apply IH.
Qed.

(** Only the timeout itself takes the timeout out of the queue. *)
Lemma exec_app_keeps_timeout (accessToken : option string)
    (photoPicker : string) (server : nat -> Picker.FetchResult)
    (sessionId : string) (w : World) (tk : Task) (st : State) :
  hard_timeout tk = false ->
  count hard_timeout
    (queue (exec_app accessToken photoPicker server sessionId w tk st))
  = count hard_timeout (queue st).
Proof.
  intros Hk. destruct tk; try discriminate; cbn [exec_app].
  - unfold checkClosed. destruct (closed w _); crunch; lia.
  - crunch. lia.
  - reflexivity.
  - reflexivity.
  - destruct o; unfold settle, emit; cbn [settled queue];
      destruct (settled st); reflexivity.
Qed.

Lemma step_app_timed_out (accessToken : option string) (photoPicker : string)
    (server : nat -> Picker.FetchResult) (sessionId : string)
    (w : World) (st : State) :
  timed_out st ->
  timed_out (step (exec_app accessToken photoPicker server sessionId w) st).
Proof.
  intros Hto Hz.
  destruct (Nat.eq_dec (count hard_timeout (queue st)) 0) as [Hzero|Hpos].
  - destruct (Hto Hzero) as [o Ho]. exists o. now apply step_app_settled.
  - revert Hz. unfold step.
    destruct (pick (queue st)) as [[t rest]|] eqn:Hpick;
      [|intros; exfalso; lia].
    pose proof (pick_count hard_timeout _ _ _ Hpick) as Hq.
    destruct t as [d tk]. cbn [task due] in *.
    destruct (hard_timeout tk) eqn:Hk.
    + destruct tk; try discriminate. intros _. cbn [exec_app].
      unfold settle, emit, with_queue. cbn [settled].
      destruct (settled st) as [o|]; eauto.
    + rewrite exec_app_keeps_timeout by exact Hk. cbn [queue].
      intros; exfalso; lia.
Qed.




End FlowFacts.

(* ===================================================================== *)
(** * More properties of the challenge generator                          *)
(* ===================================================================== *)

Module EncodingFacts.
Import Pkce Encoding.

Lemma in_all_bytes (b : byte) : In b all_bytes.
Proof.
  assert (H : existsb (Byte.eqb b) all_bytes = true)
    by (destruct b; vm_compute; reflexivity).
  apply existsb_exists in H as (x & Hin & Heq).
  apply Byte.byte_dec_bl in Heq. now subst.
Qed.

(** A check that passes on every byte holds of every byte. *)
Lemma bytes1 (check : byte -> bool) :
  forallb check all_bytes = true -> forall a, check a = true.
Proof.
  intros H a. rewrite forallb_forall in H. apply H, in_all_bytes.
Qed.

Lemma bytes2 (check : byte -> byte -> bool) :
  forallb (fun a => forallb (check a) all_bytes) all_bytes = true ->
  forall a b, check a b = true.
Proof.
  intros H a b. apply (bytes1 (check a)). now apply (bytes1 _ H).
Qed.

Lemma in_all_sextets (i : N) : (i < 64)%N -> In i all_sextets.
Proof.
  intros H. unfold all_sextets. apply in_map_iff.
  exists (N.to_nat i). split; [apply N2Nat.id|].
  apply in_seq. lia.
Qed.

(** ** The digits of an encoding *)

Lemma sextet1_safe (a : byte) :
  url_safe (digit alphabet_url (sextet1 a)) = true.
Proof. revert a. apply bytes1. vm_compute. reflexivity. Qed.

Lemma sextet2_safe (a b : byte) :
  url_safe (digit alphabet_url (sextet2 a b)) = true.
Proof.
  revert a b.
  apply (bytes2 (fun a b => url_safe (digit alphabet_url (sextet2 a b)))).
  vm_compute. reflexivity.
Qed.

Lemma sextet3_safe (b c : byte) :
  url_safe (digit alphabet_url (sextet3 b c)) = true.
Proof.
  revert b c.
  apply (bytes2 (fun b c => url_safe (digit alphabet_url (sextet3 b c)))).
  vm_compute. reflexivity.
Qed.

Lemma sextet4_safe (c : byte) :
  url_safe (digit alphabet_url (sextet4 c)) = true.
Proof. revert c. apply bytes1. vm_compute. reflexivity. Qed.

Lemma reference_safe (buffer : list byte) :
  every url_safe (base64url_reference buffer) = true.
Proof.
  induction buffer as [|a|a b|a b c rest IH] using PkceFacts.buffer_ind3;
    cbn [base64url_reference every];
    rewrite ?sextet1_safe, ?sextet2_safe, ?sextet3_safe, ?sextet4_safe, ?IH;
    reflexivity.
Qed.

Lemma reference_length (buffer : list byte) :
  String.length (base64url_reference buffer)
  = (4 * List.length buffer + 2) / 3.
Proof.
  induction buffer as [|a|a b|a b c rest IH] using PkceFacts.buffer_ind3;
    try reflexivity.
  cbn [base64url_reference String.length List.length]. rewrite IH.
  replace (4 * S (S (S (List.length rest))) + 2)
    with (4 * List.length rest + 2 + 4 * 3) by lia.
  rewrite Nat.div_add by lia. lia.
Qed.

(** X1. Whatever the buffer, [base64urlencode] returns a text of
    [ceil(4n/3)] characters for [n] bytes, each of them a letter, a digit,
    [-] or [_]: no [+], no [/] and no padding survives. *)
Theorem base64urlencode_shape (buffer : list byte) :
  String.length (base64urlencode buffer) = (4 * List.length buffer + 2) / 3
  /\ every url_safe (base64urlencode buffer) = true
  /\ occurs "+" (base64urlencode buffer) = false
  /\ occurs "/" (base64urlencode buffer) = false
  /\ occurs "=" (base64urlencode buffer) = false.
Proof.
  rewrite PkceFacts.base64urlencode_is_base64url.
  pose proof (reference_safe buffer) as Hsafe.
  split; [apply reference_length|]. split; [exact Hsafe|].
  assert (Hnot : forall c, url_safe c = false ->
                   occurs c (base64url_reference buffer) = false).
  { intros c Hc. revert Hsafe.
    induction (base64url_reference buffer) as [|x s IH]; cbn [every occurs];
      [reflexivity|].
    intros H. apply andb_prop in H as [Hx Hs]. rewrite (IH Hs).
    destruct (Ascii.eqb_spec x c) as [->|]; [congruence | reflexivity]. }
  repeat split; apply Hnot; reflexivity.
Qed.

(** X2. The verifier the backends draw from 32 random bytes has 43
    characters, and so has the challenge of any verifier when the digest
    has the 32 bytes of SHA-256: both fit the 43 to 128 characters that
    PKCE allows. *)
Theorem verifier_and_challenge_have_43_characters
    (sha256 : list byte -> list byte) (randomBytes : list byte)
    (verifier : string) :
  List.length randomBytes = 32 ->
  List.length (sha256 (utf8 verifier)) = 32 ->
  String.length (generateCodeVerifier randomBytes) = 43
  /\ String.length (generateCodeChallenge sha256 verifier) = 43.
Proof.
  intros Hr Hd. unfold generateCodeVerifier, generateCodeChallenge.
  rewrite !PkceFacts.base64urlencode_is_base64url, !reference_length, Hr, Hd.
  split; reflexivity.
Qed.

Lemma verifier_and_challenge_have_43_characters_witness :
  String.length (generateCodeVerifier (List.repeat x41 32)) = 43
  /\ String.length
       (generateCodeChallenge (fun _ => List.repeat x00 32) "abc") = 43.
Proof.
  apply (verifier_and_challenge_have_43_characters
           (fun _ => List.repeat x00 32) (List.repeat x41 32) "abc");
    reflexivity.
Defined.

(** ** Nothing is lost in the encoding *)

Lemma to_N_inj (a a' : byte) : Byte.to_N a = Byte.to_N a' -> a = a'.
Proof.
  intros H. pose proof (Byte.of_to_N a) as Ha.
  rewrite H, Byte.of_to_N in Ha. congruence.
Qed.

Lemma sextet_bounds (a b : byte) :
  (sextet1 a < 64 /\ sextet2 a b < 64 /\ sextet3 a b < 64 /\ sextet4 a < 64)%N.
Proof.
  assert (H : (sextet1 a <? 64)%N && (sextet2 a b <? 64)%N
              && (sextet3 a b <? 64)%N && (sextet4 a <? 64)%N = true).
  { revert a b.
    apply (bytes2 (fun a b => (sextet1 a <? 64)%N && (sextet2 a b <? 64)%N
                              && (sextet3 a b <? 64)%N && (sextet4 a <? 64)%N)).
    vm_compute. reflexivity. }
  repeat (apply andb_prop in H as [H ?]).
  repeat split; now apply N.ltb_lt.
Qed.

Lemma digit_url_inj (i j : N) :
  (i < 64)%N -> (j < 64)%N ->
  digit alphabet_url i = digit alphabet_url j -> i = j.
Proof.
  intros Hi Hj Heq.
  assert (H : forallb (fun i => forallb (fun j =>
                implb (Ascii.eqb (digit alphabet_url i) (digit alphabet_url j))
                  (N.eqb i j)) all_sextets) all_sextets = true)
    by (vm_compute; reflexivity).
  rewrite forallb_forall in H.
  specialize (H i (in_all_sextets i Hi)). rewrite forallb_forall in H.
  specialize (H j (in_all_sextets j Hj)).
  rewrite Heq, Ascii.eqb_refl in H. now apply N.eqb_eq.
Qed.

(** The first byte of a block is read back from its first two sextets. *)
Lemma first_byte (a b : byte) :
  Byte.to_N a = N.lor (N.shiftl (sextet1 a) 2) (N.shiftr (sextet2 a b) 4).
Proof.
  apply N.eqb_eq. revert a b.
  apply (bytes2 (fun a b =>
    N.eqb (Byte.to_N a) (N.lor (N.shiftl (sextet1 a) 2) (N.shiftr (sextet2 a b) 4)))).
  vm_compute. reflexivity.
Qed.

(** The second byte, from the second and the third. *)
Lemma second_byte_high (a b : byte) :
  N.shiftr (Byte.to_N b) 4 = N.land (sextet2 a b) 15.
Proof.
  apply N.eqb_eq. revert a b.
  apply (bytes2 (fun a b =>
    N.eqb (N.shiftr (Byte.to_N b) 4) (N.land (sextet2 a b) 15))).
  vm_compute. reflexivity.
Qed.

Lemma second_byte_low (b c : byte) :
  N.land (Byte.to_N b) 15 = N.shiftr (sextet3 b c) 2.
Proof.
  apply N.eqb_eq. revert b c.
  apply (bytes2 (fun b c =>
    N.eqb (N.land (Byte.to_N b) 15) (N.shiftr (sextet3 b c) 2))).
  vm_compute. reflexivity.
Qed.

Lemma byte_halves (b : byte) :
  Byte.to_N b
  = N.lor (N.shiftl (N.shiftr (Byte.to_N b) 4) 4) (N.land (Byte.to_N b) 15).
Proof.
  apply N.eqb_eq. revert b.
  apply (bytes1 (fun b =>
    N.eqb (Byte.to_N b)
      (N.lor (N.shiftl (N.shiftr (Byte.to_N b) 4) 4) (N.land (Byte.to_N b) 15)))).
  vm_compute. reflexivity.
Qed.

(** The third byte, from the third and the fourth. *)
Lemma third_byte (b c : byte) :
  Byte.to_N c = N.lor (N.shiftl (N.land (sextet3 b c) 3) 6) (sextet4 c).
Proof.
  apply N.eqb_eq. revert b c.
  apply (bytes2 (fun b c =>
    N.eqb (Byte.to_N c) (N.lor (N.shiftl (N.land (sextet3 b c) 3) 6) (sextet4 c)))).
  vm_compute. reflexivity.
Qed.

Lemma same_first (a b a' b' : byte) :
  sextet1 a = sextet1 a' -> sextet2 a b = sextet2 a' b' -> a = a'.
Proof.
  intros H1 H2. apply to_N_inj.
  rewrite (first_byte a b), (first_byte a' b'). now rewrite H1, H2.
Qed.

Lemma same_second (a b c a' b' c' : byte) :
  sextet2 a b = sextet2 a' b' -> sextet3 b c = sextet3 b' c' -> b = b'.
Proof.
  intros H2 H3. apply to_N_inj.
  rewrite (byte_halves b), (byte_halves b').
  rewrite (second_byte_high a b), (second_byte_high a' b').
  rewrite (second_byte_low b c), (second_byte_low b' c').
  now rewrite H2, H3.
Qed.

Lemma same_third (b c b' c' : byte) :
  sextet3 b c = sextet3 b' c' -> sextet4 c = sextet4 c' -> c = c'.
Proof.
  intros H3 H4. apply to_N_inj.
  rewrite (third_byte b c), (third_byte b' c'). now rewrite H3, H4.
Qed.

Ltac bound :=
  match goal with
  | |- (sextet1 ?a < 64)%N => exact (proj1 (sextet_bounds a a))
  | |- (sextet2 ?a ?b < 64)%N => exact (proj1 (proj2 (sextet_bounds a b)))
  | |- (sextet3 ?a ?b < 64)%N =>
      exact (proj1 (proj2 (proj2 (sextet_bounds a b))))
  | |- (sextet4 ?a < 64)%N =>
      exact (proj2 (proj2 (proj2 (sextet_bounds a a))))
  end.

Ltac sextets :=
  repeat match goal with
  | H : digit alphabet_url ?i = digit alphabet_url ?j |- _ =>
      apply (digit_url_inj i j) in H; [ | bound | bound ]
  end.

Lemma reference_inj (buffer buffer' : list byte) :
  base64url_reference buffer = base64url_reference buffer' ->
  buffer = buffer'.
Proof.
  revert buffer'.
  induction buffer as [|a|a b|a b c rest IH] using PkceFacts.buffer_ind3;
    intros [|a' [|b' [|c' rest']]]; intros H; try reflexivity.
  all: cbn [base64url_reference] in H.
  all: try (apply (f_equal String.length) in H;
            cbn [String.length] in H; lia).
  - injection H as H1 H2. sextets. f_equal. exact (same_first _ _ _ _ H1 H2).
  - injection H as H1 H2 H3. sextets.
    f_equal; [exact (same_first _ _ _ _ H1 H2)|].
    f_equal. exact (same_second _ _ _ _ _ _ H2 H3).
  - injection H as H1 H2 H3 H4 Hrest. sextets.
    f_equal; [exact (same_first _ _ _ _ H1 H2)|].
    f_equal; [exact (same_second _ _ _ _ _ _ H2 H3)|].
    f_equal; [exact (same_third _ _ _ _ H3 H4)|].
    exact (IH _ Hrest).
Qed.

(** X3. [base64urlencode] loses nothing: two buffers with the same text
    are the same buffer. So two verifiers whose digests differ get
    different challenges. *)
Theorem base64urlencode_injective (sha256 : list byte -> list byte)
    (buffer buffer' : list byte) (verifier verifier' : string) :
  (base64urlencode buffer = base64urlencode buffer' -> buffer = buffer')
  /\ (sha256 (utf8 verifier) <> sha256 (utf8 verifier') ->
      generateCodeChallenge sha256 verifier
      <> generateCodeChallenge sha256 verifier').
Proof.
  split.
  - rewrite !PkceFacts.base64urlencode_is_base64url. apply reference_inj.
  - intros Hne Heq. apply Hne. unfold generateCodeChallenge in Heq.
    rewrite !PkceFacts.base64urlencode_is_base64url in Heq.
    now apply reference_inj.
Qed.

Lemma base64urlencode_injective_witness :
  generateCodeChallenge (fun bytes => bytes) "abc"
  <> generateCodeChallenge (fun bytes => bytes) "abd".
Proof.
  apply (proj2 (base64urlencode_injective (fun bytes => bytes) [] []
                  "abc" "abd")).
  vm_compute. discriminate.
Defined.

(** ** The client's verifier *)

(** A byte is written as exactly two hexadecimal digits. *)
Lemma hex_pair (b : byte) :
  exists x y,
    padStart2 (toString16 b) = String x (String y "")
    /\ is_hex x = true /\ is_hex y = true.
Proof.
  assert (H : match padStart2 (toString16 b) with
              | String x (String y EmptyString) => is_hex x && is_hex y
              | _ => false
              end = true).
  { revert b. apply bytes1. vm_compute. reflexivity. }
  destruct (padStart2 (toString16 b)) as [|x [|y [|? ?]]]; try discriminate.
  apply andb_prop in H as [Hx Hy]. now exists x, y.
Qed.

Lemma hex_pair_inj (a b : byte) :
  padStart2 (toString16 a) = padStart2 (toString16 b) -> a = b.
Proof.
  intros H.
  assert (Hc : implb (String.eqb (padStart2 (toString16 a))
                        (padStart2 (toString16 b))) (Byte.eqb a b) = true).
  { revert a b H. intros a b _. revert a b.
    apply (bytes2 (fun a b =>
      implb (String.eqb (padStart2 (toString16 a)) (padStart2 (toString16 b)))
        (Byte.eqb a b))).
    vm_compute. reflexivity. }
  rewrite H, String.eqb_refl in Hc. now apply Byte.byte_dec_bl.
Qed.

(** X4. The verifier of the client writes every random byte as two
    lowercase hexadecimal digits: [n] bytes give [2n] characters, 128 for
    the 64 bytes the client draws, and different bytes give different
    verifiers. *)
Theorem generateCodeVerifier_client_shape (array array' : list byte) :
  String.length (generateCodeVerifier_client array) = 2 * List.length array
  /\ every is_hex (generateCodeVerifier_client array) = true
  /\ (generateCodeVerifier_client array = generateCodeVerifier_client array' ->
      array = array').
Proof.
  split; [|split].
  - induction array as [|b array IH]; [reflexivity|].
    cbn [generateCodeVerifier_client fold_right List.length].
    destruct (hex_pair b) as (x & y & -> & _ & _).
    change (S (S (String.length (generateCodeVerifier_client array)))
            = 2 * S (List.length array)).
    rewrite IH. lia.
  - induction array as [|b array IH]; [reflexivity|].
    cbn [generateCodeVerifier_client fold_right].
    destruct (hex_pair b) as (x & y & -> & Hx & Hy).
    change (is_hex x && (is_hex y
            && every is_hex (generateCodeVerifier_client array)) = true).
    now rewrite Hx, Hy, IH.
  - revert array'. induction array as [|b array IH]; intros [|b' array'];
      cbn [generateCodeVerifier_client fold_right]; try reflexivity.
    + destruct (hex_pair b') as (x & y & -> & _ & _). discriminate.
    + destruct (hex_pair b) as (x & y & -> & _ & _). discriminate.
    + intros H.
      destruct (hex_pair b) as (x & y & Hb & _ & _).
      destruct (hex_pair b') as (x' & y' & Hb' & _ & _).
      rewrite Hb, Hb' in H.
      change (String x (String y (generateCodeVerifier_client array))
              = String x' (String y' (generateCodeVerifier_client array'))) in H.
      injection H as -> -> Hrest.
      f_equal; [|now apply IH].
      apply hex_pair_inj. now rewrite Hb, Hb'.
Qed.

Lemma generateCodeVerifier_client_shape_witness :
  generateCodeVerifier_client [xab; x0f] = "ab0f"
  /\ [xab; x0f] = [xab; x0f].
Proof.
  split; [reflexivity|].
  apply (proj2 (proj2 (generateCodeVerifier_client_shape [xab; x0f]
                         [xab; x0f]))).
  reflexivity.
Defined.

Example generateCodeVerifier_client_bytes :
  generateCodeVerifier_client [x00; x0f; x10; xab; xff] = "000f10abff".
Proof. reflexivity. Qed.

End EncodingFacts.

(* ===================================================================== *)
(** * Properties of the web backend's endpoints and of [apiCall]          *)
(* ===================================================================== *)

Module WebApiFacts.

Lemma web_bearer (req : Mobile.ApiRequest) (rest : string) :
  Mobile.authorization req = Some ("Bearer " ++ rest) ->
  WebApi.accessToken_of req = inr (JS.split " " ("Bearer " ++ rest) !! 1%nat).
Proof.
  intros H. unfold WebApi.accessToken_of. rewrite H.
  assert (Hguard : negb (JS.truthy (Some ("Bearer " ++ rest)))
                   || negb (JS.startsWith (JS.interp (Some ("Bearer " ++ rest)))
                              "Bearer ") = false) by reflexivity.
  now rewrite Hguard.
Qed.

Lemma precheck_on_mobile (e : WebApi.Endpoint) (req : Mobile.ApiRequest) :
  Mobile.precheck (WebApi.on_mobile e) req = WebApi.precheck e req.
Proof. destruct e; reflexivity. Qed.

(** X5. For a request whose [Authorization] header begins with
    ["Bearer "] and that names no page size, the two backends do the same
    thing on the drive, calendar and picker endpoints: the same early 400,
    or the same call to Google, whatever the mobile backend has stored
    and whatever its clock says. (The profile endpoints differ: the
    mobile backend asks for the photos as well.) *)
Theorem backends_agree_on_bearer (e : WebApi.Endpoint)
    (req : Mobile.ApiRequest) (rest : string) (now : Z)
    (userTokens : gmap string Mobile.UserToken) :
  Mobile.authorization req = Some ("Bearer " ++ rest) ->
  Mobile.q_pageSize req = None ->
  e <> WebApi.UserProfile ->
  Mobile.handle (WebApi.on_mobile e) req now userTokens = WebApi.handle e req.
Proof.
  intros Hauth Hsize Hne. unfold Mobile.handle, WebApi.handle.
  rewrite precheck_on_mobile.
  destruct (WebApi.precheck e req); [reflexivity|].
  rewrite (AuthFacts.resolve_bearer req now userTokens rest Hauth).
  rewrite (web_bearer req rest Hauth).
  f_equal. destruct e; try contradiction;
    unfold Mobile.upstream_of, WebApi.upstream_of; cbn [WebApi.on_mobile];
    rewrite ?Hsize; reflexivity.
Qed.

Lemma backends_agree_on_bearer_witness :
  Mobile.handle Mobile.DrivePhotos Samples.sample_request 7 ∅
  = WebApi.handle WebApi.DrivePhotos Samples.sample_request.
Proof.
  apply (backends_agree_on_bearer WebApi.DrivePhotos Samples.sample_request
           "ya29.token" 7 ∅).
  - reflexivity.
  - reflexivity.
  - discriminate.
Defined.

(** X6. What the browser's [apiCall] gets from the web backend. Signed
    in with a token that has no space, the call passes the header check
    and Google is called with exactly [Bearer <that token>]; signed out,
    the backend answers 401 without calling Google and [apiCall] throws
    ["Missing or invalid authorization header"]. Only the calendar
    without a date and the media without a session are answered 400
    first. *)
Theorem apiCall_against_web_backend (e : WebApi.Endpoint)
    (accessToken : option string) (c : WebApi.Call) :
  let req := WebApi.apiCall accessToken c in
  (JS.truthy accessToken = true ->
   JS.spaceless (JS.interp accessToken) = true ->
   WebApi.handle e req
   = match WebApi.precheck e req with
     | Some res => inl res
     | None => inr (WebApi.upstream_of e req accessToken)
     end
   /\ forall up, WebApi.handle e req = inr up ->
        Mobile.header_authorization up = "Bearer " ++ JS.interp accessToken)
  /\ (JS.truthy accessToken = false ->
      WebApi.precheck e req = None ->
      WebApi.handle e req
      = inl (fail 401 "Missing or invalid authorization header")
      /\ WebApi.apiCall_error
           (fail 401 "Missing or invalid authorization header")
         = "Missing or invalid authorization header").
Proof.
  intros req. split.
  - intros Htruthy Hspace.
    destruct accessToken as [token|]; [|discriminate].
    assert (Hauth : Mobile.authorization req = Some ("Bearer " ++ token)).
    { unfold req, WebApi.apiCall. cbn [Mobile.authorization].
      now rewrite Htruthy. }
    assert (Hhandle : WebApi.handle e req
                      = match WebApi.precheck e req with
                        | Some res => inl res
                        | None => inr (WebApi.upstream_of e req (Some token))
                        end).
    { unfold WebApi.handle.
      destruct (WebApi.precheck e req); [reflexivity|].
      rewrite (web_bearer req token Hauth).
      now rewrite (AuthFacts.bearer_token token Hspace). }
    split; [exact Hhandle|].
    intros up. rewrite Hhandle.
    destruct (WebApi.precheck e req); [discriminate|].
    intros [= <-]. destruct e; reflexivity.
  - intros Hfalsy Hpre. split; [|reflexivity].
    unfold WebApi.handle. rewrite Hpre.
    unfold WebApi.accessToken_of, req, WebApi.apiCall.
    cbn [Mobile.authorization]. now rewrite Hfalsy.
Qed.

Lemma apiCall_against_web_backend_witness :
  let c := {| WebApi.call_date := None; WebApi.call_sessionId := None |} in
  (forall up,
      WebApi.handle WebApi.DriveFiles (WebApi.apiCall (Some "ya29.token") c)
      = inr up ->
      Mobile.header_authorization up = "Bearer ya29.token")
  /\ WebApi.handle WebApi.DriveFiles (WebApi.apiCall None c)
     = inl (fail 401 "Missing or invalid authorization header").
Proof.
  intros c.
  pose proof (apiCall_against_web_backend WebApi.DriveFiles
                (Some "ya29.token") c) as [Hin _].
  pose proof (apiCall_against_web_backend WebApi.DriveFiles None c)
    as [_ Hout].
  split.
  - exact (proj2 (Hin eq_refl eq_refl)).
  - exact (proj1 (Hout eq_refl eq_refl)).
Defined.

End WebApiFacts.

(* ===================================================================== *)
(** * Facts about [startsWith] and [includes]                             *)
(* ===================================================================== *)

Module StringFacts.

Lemma startsWith_app (p s : string) : JS.startsWith (p ++ s) p = true.
Proof.
  induction p as [|a p IH]; [reflexivity|].
  change (String a p ++ s) with (String a (p ++ s)).
  cbn [JS.startsWith]. now rewrite Ascii.eqb_refl, IH.
Qed.

Lemma startsWith_app_app (p s q : string) :
  JS.startsWith (p ++ s) (p ++ q) = JS.startsWith s q.
Proof.
  induction p as [|a p IH]; [reflexivity|].
  change (String a p ++ s) with (String a (p ++ s)).
  change (String a p ++ q) with (String a (p ++ q)).
  cbn [JS.startsWith]. now rewrite Ascii.eqb_refl, IH.
Qed.

Lemma startsWith_self (p : string) : JS.startsWith p p = true.
Proof.
  induction p as [|a p IH]; [reflexivity|].
  cbn [JS.startsWith]. now rewrite Ascii.eqb_refl, IH.
Qed.

Lemma includes_here (s p : string) :
  JS.startsWith s p = true -> JS.includes s p = true.
Proof. intros H. destruct s; cbn [JS.includes]; now rewrite H. Qed.

Lemma includes_app_r (a s p : string) :
  JS.includes s p = true -> JS.includes (a ++ s) p = true.
Proof.
  intros H. induction a as [|x a IH]; [exact H|].
  change (String x a ++ s) with (String x (a ++ s)).
  cbn [JS.includes]. rewrite IH. apply orb_true_r.
Qed.

End StringFacts.

(* ===================================================================== *)
(** * Properties of [GET /api/oauth/url]                                  *)
(* ===================================================================== *)

Module CreateFacts.

Section Url.

Variable sha256 : list byte -> list byte.
Variable encodeURIComponent : string -> string.
Variable env : Env.

Lemma authUrl_state (codeChallenge sessionId : string) :
  JS.includes (authUrl_of encodeURIComponent env codeChallenge sessionId)
    ("state=" ++ sessionId) = true.
Proof.
  unfold authUrl_of.
  do 18 apply StringFacts.includes_app_r.
  apply StringFacts.includes_here, StringFacts.startsWith_self.
Qed.

Lemma authUrl_challenge (codeChallenge sessionId : string) :
  JS.includes (authUrl_of encodeURIComponent env codeChallenge sessionId)
    ("code_challenge=" ++ codeChallenge ++ "&" ++ "code_challenge_method=S256&")
  = true.
Proof.
  unfold authUrl_of.
  do 11 apply StringFacts.includes_app_r.
  apply StringFacts.includes_here.
  rewrite StringFacts.startsWith_app_app.
  rewrite StringFacts.startsWith_app_app.
  rewrite StringFacts.startsWith_app_app.
  apply StringFacts.startsWith_app.
Qed.

(** X7. The URL both backends hand out is bound to the session they
    store: it carries [state=<sessionId>] for the session id they answer
    and store under, and [code_challenge=<c>&code_challenge_method=S256]
    where [c] is the challenge of the very verifier that is stored. *)
Theorem oauth_url_binds_session (ua : option string) (p : Platform)
    (web : gmap string Web.Session) (mobile : Mobile.Store) :
  let verifier := Pkce.generateCodeVerifier (randomBytes p) in
  let challenge := Pkce.generateCodeChallenge sha256 verifier in
  let binds (res : Response) :=
    exists url message expiresIn,
      body res = UrlBody url (randomUUID p) message expiresIn
      /\ status res = 200%Z
      /\ JS.includes url ("state=" ++ randomUUID p) = true
      /\ JS.includes url
           ("code_challenge=" ++ challenge ++ "&" ++ "code_challenge_method=S256&")
         = true in
  (binds (snd (Web.oauth_url sha256 encodeURIComponent env p web))
   /\ option_map Web.codeVerifier
        (fst (Web.oauth_url sha256 encodeURIComponent env p web)
           !! randomUUID p) = Some verifier)
  /\ (binds (snd (Mobile.oauth_url sha256 encodeURIComponent env ua p mobile))
      /\ option_map Mobile.codeVerifier
           (Mobile.activeSessions
              (fst (Mobile.oauth_url sha256 encodeURIComponent env ua p mobile))
              !! randomUUID p) = Some verifier).
Proof.
  intros verifier challenge binds. split; split.
  - unfold binds, Web.oauth_url. cbn [snd body json status].
    eexists _, _, _. split; [reflexivity|]. split; [reflexivity|].
    split; [apply authUrl_state | apply authUrl_challenge].
  - unfold Web.oauth_url. cbn [fst]. now rewrite lookup_insert_eq.
  - unfold binds, Mobile.oauth_url. cbn [snd body json status].
    eexists _, _, _. split; [reflexivity|]. split; [reflexivity|].
    split; [apply authUrl_state | apply authUrl_challenge].
  - unfold Mobile.oauth_url, Mobile.set_sessions.
    cbn [fst Mobile.activeSessions]. now rewrite lookup_insert_eq.
Qed.

(** X8. A session handed out is the session redeemed: after
    [GET /api/oauth/url], an exchange that carries the answered session
    id as its state (in the mobile backend within ten minutes) posts the
    verifier that was drawn for it; and creating a session leaves every
    other session, and the stored user tokens, as they were. *)
Theorem created_session_is_redeemable (ua : option string)
    (created p : Platform) (req : TokenBodyIn)
    (web : gmap string Web.Session) (mobile : Mobile.Store) :
  randomUUID created <> "" ->
  JS.truthy (in_code req) = true ->
  in_state req = Some (randomUUID created) ->
  (now p - now created <= Mobile.SESSION_TTL)%Z ->
  let verifier := Pkce.generateCodeVerifier (randomBytes created) in
  let web' := fst (Web.oauth_url sha256 encodeURIComponent env created web) in
  let mobile' :=
    fst (Mobile.oauth_url sha256 encodeURIComponent env ua created mobile) in
  (exists post k,
      Web.oauth_token env req p web' = (web', AwaitPost post k)
      /\ Provider.code_verifier post = Some verifier)
  /\ (exists post k,
      Mobile.oauth_token env req p mobile' = (mobile', AwaitPost post k)
      /\ Provider.code_verifier post = Some verifier)
  /\ (forall other, other <> randomUUID created ->
        web' !! other = web !! other
        /\ Mobile.activeSessions mobile' !! other
           = Mobile.activeSessions mobile !! other)
  /\ Mobile.userTokens mobile' = Mobile.userTokens mobile.
Proof.
  intros Hid Hcode Hstate Hfresh verifier web' mobile'.
  split; [|split; [|split]].
  - destruct (ExchangeFacts.web_token_posts env req p web'
                (randomUUID created)
                {| Web.codeVerifier := verifier; Web.timestamp := now created |}
                Hcode Hstate Hid) as (post & k & Hbegin & Hver & _).
    { unfold web', Web.oauth_url. cbn [fst]. apply lookup_insert_eq. }
    now exists post, k.
  - destruct (ExchangeFacts.mobile_token_posts env req p mobile'
                (randomUUID created)
                {| Mobile.codeVerifier := verifier;
                   Mobile.timestamp := now created;
                   Mobile.userAgent := JS.or_else ua "unknown" |}
                Hcode Hstate Hid) as (post & k & Hbegin & Hver & _).
    { unfold mobile', Mobile.oauth_url, Mobile.set_sessions.
      cbn [fst Mobile.activeSessions]. apply lookup_insert_eq. }
    { exact Hfresh. }
    now exists post, k.
  - intros other Hother. unfold web', mobile', Web.oauth_url, Mobile.oauth_url,
      Mobile.set_sessions. cbn [fst Mobile.activeSessions].
    split; apply lookup_insert_ne; congruence.
  - reflexivity.
Qed.

End Url.

Lemma created_session_is_redeemable_witness :
  exists post k,
    Web.oauth_token Samples.env Samples.redeem (Samples.at_time 5)
      (fst (Web.oauth_url (fun bytes => bytes) (fun s => s) Samples.env
              (Samples.creating_at 0) Samples.web_store))
    = (fst (Web.oauth_url (fun bytes => bytes) (fun s => s) Samples.env
              (Samples.creating_at 0) Samples.web_store),
       AwaitPost post k)
    /\ Provider.code_verifier post
       = Some "QUFBQUFBQUFBQUFBQUFBQUFBQUFBQUFBQUFBQUFBQUE".
Proof.
  apply (created_session_is_redeemable (fun bytes => bytes) (fun s => s)
           Samples.env None (Samples.creating_at 0) (Samples.at_time 5)
           Samples.redeem Samples.web_store Samples.mobile_store).
  - discriminate.
  - reflexivity.
  - reflexivity.
  - vm_compute. discriminate.
Defined.

End CreateFacts.

(* ===================================================================== *)
(** * More properties of the stores of the mobile backend                 *)
(* ===================================================================== *)

Module StoreFacts.
Import Mobile.

(** What the continuation of the mobile exchange does, whichever request
    began it. *)
Lemma mobile_token_continuation (env : Env) (req : TokenBodyIn)
    (p : Platform) (st st0 : Store) (post : Provider.TokenRequest)
    (k : Provider.AxiosResult -> Platform -> Store -> Store * Response) :
  oauth_token env req p st = (st0, AwaitPost post k) ->
  st0 = st
  /\ (forall e p' st', k (Provider.Rejected e) p' st' = (st', exchange_failed e))
  /\ (forall data p' st',
        let userTokenId := JS.or_else (in_userId req) (randomUUID p') in
        k (Provider.Resolved data) p' st'
        = (set_tokens
             (insert userTokenId
                {| access_token := Provider.access_token data;
                   refresh_token := Provider.new_refresh_token data;
                   expires_at :=
                     Provider.plus_seconds (now p') (Provider.expires_in data);
                   user_id := userTokenId |})
             (set_sessions (delete (JS.interp (in_state req))) st'),
           json (TokenBody (Provider.access_token data)
                   (Provider.new_refresh_token data) (Provider.expires_in data)
                   (Provider.scope data) (Some userTokenId)))).
Proof.
  unfold oauth_token.
  destruct (negb (JS.truthy (in_code req)) || negb (JS.truthy (in_state req)));
    [discriminate|].
  destruct (activeSessions st !! JS.interp (in_state req)) as [session|];
    [|discriminate].
  destruct (now p - timestamp session >? SESSION_TTL)%Z; [discriminate|].
  intros [= <- _ <-]. repeat split.
Qed.

Lemma refresh_continuation (env : Env) (req : RefreshBodyIn) (p : Platform)
    (st st0 : Store) (post : Provider.TokenRequest)
    (k : Provider.AxiosResult -> Platform -> Store -> Store * Response) :
  oauth_refresh env req p st = (st0, AwaitPost post k) ->
  st0 = st
  /\ Provider.grant_type post = "refresh_token"
  /\ Provider.refresh_token post = in_refresh_token req
  /\ (forall e p' st',
        k (Provider.Rejected e) p' st'
        = (st', {| status := 500;
                   body := ErrorBody "Token refresh failed"
                             (Some (Provider.details_of e)) |}))
  /\ (forall data p' st',
        k (Provider.Resolved data) p' st'
        = (if JS.truthy (in_user_id req) then
             match userTokens st' !! JS.interp (in_user_id req) with
             | Some userToken =>
                 set_tokens
                   (insert (JS.interp (in_user_id req))
                      (refreshed userToken data (now p'))) st'
             | None => st'
             end
           else st',
           json (RefreshBody (Provider.access_token data)
                   (Provider.expires_in data)))).
Proof.
  unfold oauth_refresh.
  destruct (negb (JS.truthy (in_refresh_token req))); [discriminate|].
  intros [= <- <- <-]. repeat split.
Qed.

(** What a request under the [user_id] of a fresh exchange is answered. *)
Lemma served_after_exchange (env : Env) (req : TokenBodyIn)
    (p p' : Platform) (st st0 st' : Store) (post : Provider.TokenRequest)
    (k : Provider.AxiosResult -> Platform -> Store -> Store * Response)
    (data : Provider.TokenData) (e : Endpoint) (api : ApiRequest)
    (later : Z) :
  oauth_token env req p st = (st0, AwaitPost post k) ->
  JS.or_else (in_userId req) (randomUUID p') <> "" ->
  Stores.no_bearer api = true ->
  q_user_id api = Some (JS.or_else (in_userId req) (randomUUID p')) ->
  precheck e api = None ->
  handle e api later (userTokens (fst (k (Provider.Resolved data) p' st')))
  = if expired later
         (Provider.plus_seconds (now p') (Provider.expires_in data))
    then inl (fail 401 "Token expired or invalid")
    else inr (upstream_of e api (Provider.access_token data)).
Proof.
  intros Hbegin Hne Hnb Huid Hpre.
  destruct (mobile_token_continuation _ _ _ _ _ _ _ Hbegin) as (_ & _ & Hok).
  rewrite Hok. cbn [fst].
  unfold handle, resolveAccessToken. rewrite Hpre.
  unfold Stores.no_bearer in Hnb. apply negb_true_iff in Hnb. rewrite Hnb.
  rewrite Huid.
  assert (Ht : JS.truthy (Some (JS.or_else (in_userId req) (randomUUID p')))
               = true).
  { cbn. destruct (String.eqb_spec (JS.or_else (in_userId req) (randomUUID p')) "");
      [contradiction|reflexivity]. }
  rewrite Ht. cbn [JS.interp set_tokens userTokens].
  rewrite lookup_insert_eq. cbn [expires_at access_token].
  destruct (expired later _); reflexivity.
Qed.

(** X9. A token stored by an exchange serves the requests made under its
    [user_id]: the exchange answers the id it stored the token under (the
    caller's [userId], or a fresh UUID when there is none), and a later
    request that carries that id and no Bearer header is passed on to
    Google with the new access token for as long as the clock is not past
    [expires_at]; past it, the answer is 401. *)
Theorem exchanged_token_serves_user_id (env : Env) (req : TokenBodyIn)
    (p p' : Platform) (st st0 st' : Store) (post : Provider.TokenRequest)
    (k : Provider.AxiosResult -> Platform -> Store -> Store * Response)
    (data : Provider.TokenData) (e : Endpoint) (api : ApiRequest)
    (later : Z) :
  oauth_token env req p st = (st0, AwaitPost post k) ->
  let userTokenId := JS.or_else (in_userId req) (randomUUID p') in
  userTokenId <> "" ->
  Stores.no_bearer api = true ->
  q_user_id api = Some userTokenId ->
  precheck e api = None ->
  let answered := k (Provider.Resolved data) p' st' in
  body (snd answered)
    = TokenBody (Provider.access_token data) (Provider.new_refresh_token data)
        (Provider.expires_in data) (Provider.scope data) (Some userTokenId)
  /\ handle e api later (userTokens (fst answered))
     = if expired later
            (Provider.plus_seconds (now p') (Provider.expires_in data))
       then inl (fail 401 "Token expired or invalid")
       else inr (upstream_of e api (Provider.access_token data)).
Proof.
  intros Hbegin userTokenId Hne Hnb Huid Hpre answered.
  destruct (mobile_token_continuation _ _ _ _ _ _ _ Hbegin) as (_ & _ & Hok).
  unfold answered. split.
  - rewrite Hok. fold userTokenId. reflexivity.
  - exact (served_after_exchange env req p p' st st0 st' post k data e api
             later Hbegin Hne Hnb Huid Hpre).
Qed.

Lemma exchanged_token_serves_user_id_witness :
  match oauth_token Samples.env Samples.exchange (Samples.at_time 1)
          Samples.mobile_store with
  | (_, AwaitPost post k) =>
      handle DriveFiles Samples.by_user_id 3000
        (userTokens (fst (k Samples.granted_resolved (Samples.at_time 2)
                            Samples.mobile_store)))
      = inr (upstream_of DriveFiles Samples.by_user_id (Some "ya29.access"))
  | (_, Respond _) => False
  end.
Proof.
  destruct (oauth_token Samples.env Samples.exchange (Samples.at_time 1)
              Samples.mobile_store) as [st0 [res|post k]] eqn:Hbegin.
  - vm_compute in Hbegin. discriminate.
  - exact (proj2 (exchanged_token_serves_user_id Samples.env Samples.exchange
                    (Samples.at_time 1) (Samples.at_time 2)
                    Samples.mobile_store st0 Samples.mobile_store post k
                    Samples.granted_data DriveFiles Samples.by_user_id 3000
                    Hbegin ltac:(discriminate) eq_refl eq_refl eq_refl)).
Defined.

(** X10. When the provider's answer carries no [expires_in], the token
    is stored with an [expires_at] that is not a number, and the
    comparison with the clock is then always false: the token is accepted
    under its [user_id] at every later time. *)
Theorem token_without_expiry_never_expires (env : Env) (req : TokenBodyIn)
    (p p' : Platform) (st st0 st' : Store) (post : Provider.TokenRequest)
    (k : Provider.AxiosResult -> Platform -> Store -> Store * Response)
    (data : Provider.TokenData) (e : Endpoint) (api : ApiRequest) :
  oauth_token env req p st = (st0, AwaitPost post k) ->
  Provider.expires_in data = None ->
  JS.or_else (in_userId req) (randomUUID p') <> "" ->
  Stores.no_bearer api = true ->
  q_user_id api = Some (JS.or_else (in_userId req) (randomUUID p')) ->
  precheck e api = None ->
  forall later,
    handle e api later
      (userTokens (fst (k (Provider.Resolved data) p' st')))
    = inr (upstream_of e api (Provider.access_token data)).
Proof.
  intros Hbegin Hnone Hne Hnb Huid Hpre later.
  rewrite (served_after_exchange env req p p' st st0 st' post k data e api
             later Hbegin Hne Hnb Huid Hpre).
  now rewrite Hnone.
Qed.

Lemma token_without_expiry_never_expires_witness :
  match oauth_token Samples.env Samples.exchange (Samples.at_time 1)
          Samples.mobile_store with
  | (_, AwaitPost post k) =>
      forall later,
        handle DriveFiles Samples.by_user_id later
          (userTokens
             (fst (k (Provider.Resolved Samples.granted_forever)
                     (Samples.at_time 2) Samples.mobile_store)))
        = inr (upstream_of DriveFiles Samples.by_user_id (Some "ya29.access"))
  | (_, Respond _) => False
  end.
Proof.
  destruct (oauth_token Samples.env Samples.exchange (Samples.at_time 1)
              Samples.mobile_store) as [st0 [res|post k]] eqn:Hbegin.
  - vm_compute in Hbegin. discriminate.
  - exact (token_without_expiry_never_expires Samples.env Samples.exchange
             (Samples.at_time 1) (Samples.at_time 2)
             Samples.mobile_store st0 Samples.mobile_store post k
             Samples.granted_forever DriveFiles Samples.by_user_id
             Hbegin eq_refl ltac:(discriminate) eq_refl eq_refl eq_refl).
Defined.

(** ** Invariants of [userTokens] *)

Lemma well_keyed_insert (userTokens : gmap string UserToken) (key : string)
    (record : UserToken) :
  Stores.well_keyed userTokens -> user_id record = key ->
  Stores.well_keyed (<[key := record]> userTokens).
Proof.
  intros Hwk Hkey k r. rewrite lookup_insert.
  case_decide as Hk; [intros [= <-]; congruence | apply Hwk].
Qed.

(** X11. Every record of [userTokens] sits under its own [user_id], and
    the exchange and the refresh keep it so, whatever the provider
    answers and whatever store they find when it has answered. *)
Theorem userTokens_stay_well_keyed (env : Env) (p p' : Platform)
    (st st0 st' : Store) (post : Provider.TokenRequest)
    (k : Provider.AxiosResult -> Platform -> Store -> Store * Response)
    (answer : Provider.AxiosResult) :
  Stores.well_keyed (userTokens st') ->
  (forall req, oauth_token env req p st = (st0, AwaitPost post k) ->
     Stores.well_keyed (userTokens (fst (k answer p' st'))))
  /\ (forall req, oauth_refresh env req p st = (st0, AwaitPost post k) ->
     Stores.well_keyed (userTokens (fst (k answer p' st')))).
Proof.
  intros Hwk. split; intros req Hbegin.
  - destruct (mobile_token_continuation _ _ _ _ _ _ _ Hbegin)
      as (_ & Hrej & Hok).
    destruct answer as [data|err].
    + rewrite Hok. cbn [fst set_tokens set_sessions userTokens].
      now apply well_keyed_insert.
    + now rewrite Hrej.
  - destruct (refresh_continuation _ _ _ _ _ _ _ Hbegin)
      as (_ & _ & _ & Hrej & Hok).
    destruct answer as [data|err].
    + rewrite Hok. cbn [fst].
      destruct (JS.truthy (in_user_id req)); [|exact Hwk].
      destruct (userTokens st' !! JS.interp (in_user_id req))
        as [userToken|] eqn:Hlook; [|exact Hwk].
      cbn [set_tokens userTokens]. apply well_keyed_insert; [exact Hwk|].
      exact (Hwk _ _ Hlook).
    + now rewrite Hrej.
Qed.

Lemma one_user_well_keyed : Stores.well_keyed (userTokens Samples.one_user).
Proof.
  intros key record. cbn [Samples.one_user userTokens].
  rewrite lookup_singleton_Some. now intros [<- <-].
Qed.

Lemma userTokens_stay_well_keyed_witness :
  match oauth_refresh Samples.env Samples.refresh_request (Samples.at_time 1)
          Samples.one_user with
  | (_, AwaitPost post k) =>
      Stores.well_keyed
        (userTokens (fst (k Samples.granted (Samples.at_time 2)
                            Samples.one_user)))
  | (_, Respond _) => False
  end.
Proof.
  destruct (oauth_refresh Samples.env Samples.refresh_request
              (Samples.at_time 1) Samples.one_user)
    as [st0 [res|post k]] eqn:Hbegin.
  - vm_compute in Hbegin. discriminate.
  - apply (proj2 (userTokens_stay_well_keyed Samples.env (Samples.at_time 1)
                    (Samples.at_time 2) Samples.one_user st0 Samples.one_user
                    post k Samples.granted one_user_well_keyed)
             Samples.refresh_request Hbegin).
Defined.

(** ** The refresh at its edges *)

(** X12. A refresh never adds or removes a record and never touches a
    session. Without a refresh token it answers 400 and posts nothing;
    when the provider refuses, or when the [user_id] is missing or
    unknown, the stores are left exactly as found, although in the last
    case the caller is still answered 200 with the new access token. *)
Theorem refresh_at_its_edges (env : Env) (req : RefreshBodyIn)
    (p p' later : Platform) (st st' : Store)
    (provider : Provider.TokenRequest -> Provider.AxiosResult) :
  (JS.truthy (in_refresh_token req) = false ->
   complete provider later (oauth_refresh env req p st)
   = (st, fail 400 "Refresh token is required", []))
  /\ (forall st0 post k answer,
        oauth_refresh env req p st = (st0, AwaitPost post k) ->
        let after := fst (k answer p' st') in
        dom (userTokens after) = dom (userTokens st')
        /\ activeSessions after = activeSessions st'
        /\ (forall err, answer = Provider.Rejected err -> after = st')
        /\ (forall data,
              answer = Provider.Resolved data ->
              (JS.truthy (in_user_id req) = false
               \/ userTokens st' !! JS.interp (in_user_id req) = None) ->
              k answer p' st'
              = (st', json (RefreshBody (Provider.access_token data)
                              (Provider.expires_in data))))).
Proof.
  split.
  - intros Hmissing. unfold oauth_refresh. now rewrite Hmissing.
  - intros st0 post k answer Hbegin after.
    destruct (refresh_continuation _ _ _ _ _ _ _ Hbegin)
      as (_ & _ & _ & Hrej & Hok).
    unfold after. destruct answer as [data|err].
    + rewrite Hok. cbn [fst].
      split; [|split; [|split]].
      * destruct (JS.truthy (in_user_id req)); [|reflexivity].
        destruct (userTokens st' !! JS.interp (in_user_id req))
          as [userToken|] eqn:Hlook; [|reflexivity].
        cbn [set_tokens userTokens]. apply dom_insert_lookup_L. eauto.
      * destruct (JS.truthy (in_user_id req)); [|reflexivity].
        destruct (userTokens st' !! JS.interp (in_user_id req)); reflexivity.
      * intros err [=].
      * intros data' [= <-] [Hfalsy|Hunknown].
        -- now rewrite Hfalsy.
        -- rewrite Hunknown. now destruct (JS.truthy (in_user_id req)).
    + rewrite Hrej. cbn [fst].
      split; [reflexivity|]. split; [reflexivity|]. split; [reflexivity|].
      intros data [=].
Qed.

Lemma refresh_at_its_edges_witness :
  complete (fun _ => Samples.granted) (Samples.at_time 2)
    (oauth_refresh Samples.env
       {| in_refresh_token := None; in_user_id := Some "u1" |}
       (Samples.at_time 1) Samples.one_user)
  = (Samples.one_user, fail 400 "Refresh token is required", []).
Proof.
  apply (proj1 (refresh_at_its_edges Samples.env
                  {| in_refresh_token := None; in_user_id := Some "u1" |}
                  (Samples.at_time 1) (Samples.at_time 2) (Samples.at_time 2)
                  Samples.one_user Samples.one_user (fun _ => Samples.granted))).
  reflexivity.
Defined.

(** ** What an exchange leaves alone *)

Lemma web_token_continuation (env : Env) (req : TokenBodyIn) (p : Platform)
    (st st0 : gmap string Web.Session) (post : Provider.TokenRequest)
    (k : Provider.AxiosResult -> Platform -> gmap string Web.Session
         -> gmap string Web.Session * Response) :
  Web.oauth_token env req p st = (st0, AwaitPost post k) ->
  st0 = st
  /\ (forall e p' st', k (Provider.Rejected e) p' st' = (st', exchange_failed e))
  /\ (forall data p' st',
        fst (k (Provider.Resolved data) p' st')
        = delete (JS.interp (in_state req)) st').
Proof.
  unfold Web.oauth_token.
  destruct (negb (JS.truthy (in_code req)) || negb (JS.truthy (in_state req)));
    [discriminate|].
  destruct (st !! JS.interp (in_state req)); [|discriminate].
  intros [= <- _ <-]. repeat split.
Qed.

(** X13. An exchange touches one session and at most one token. In both
    backends a session under another key than the request's [state] is
    the same before and after, at the lookup and when the provider has
    answered; in the mobile backend the user tokens change only when the
    provider accepts, and then only under the token's own id. *)
Theorem exchange_leaves_the_rest (env : Env) (req : TokenBodyIn)
    (p p' : Platform) (other : string) (answer : Provider.AxiosResult) :
  other <> JS.interp (in_state req) ->
  (forall st st',
      fst (Web.oauth_token env req p st) !! other = st !! other
      /\ forall st0 post k,
           Web.oauth_token env req p st = (st0, AwaitPost post k) ->
           fst (k answer p' st') !! other = st' !! other)
  /\ (forall st st',
      activeSessions (fst (oauth_token env req p st)) !! other
        = activeSessions st !! other
      /\ userTokens (fst (oauth_token env req p st)) = userTokens st
      /\ forall st0 post k,
           oauth_token env req p st = (st0, AwaitPost post k) ->
           let after := fst (k answer p' st') in
           activeSessions after !! other = activeSessions st' !! other
           /\ (forall err, answer = Provider.Rejected err -> after = st')
           /\ (forall id, id <> JS.or_else (in_userId req) (randomUUID p') ->
                 userTokens after !! id = userTokens st' !! id)).
Proof.
  intros Hother. split.
  - intros st st'. split.
    + unfold Web.oauth_token.
      destruct (negb (JS.truthy (in_code req)) || negb (JS.truthy (in_state req)));
        [reflexivity|].
      destruct (st !! JS.interp (in_state req)); reflexivity.
    + intros st0 post k Hbegin.
      destruct (web_token_continuation _ _ _ _ _ _ _ Hbegin)
        as (_ & Hrej & Hok).
      destruct answer as [data|err].
      * rewrite Hok. now apply lookup_delete_ne.
      * now rewrite Hrej.
  - intros st st'. split; [|split].
    + unfold oauth_token.
      destruct (negb (JS.truthy (in_code req)) || negb (JS.truthy (in_state req)));
        [reflexivity|].
      destruct (activeSessions st !! JS.interp (in_state req)) as [session|];
        [|reflexivity].
      destruct (now p - timestamp session >? SESSION_TTL)%Z; [|reflexivity].
      cbn [fst set_sessions activeSessions]. now apply lookup_delete_ne.
    + unfold oauth_token.
      destruct (negb (JS.truthy (in_code req)) || negb (JS.truthy (in_state req)));
        [reflexivity|].
      destruct (activeSessions st !! JS.interp (in_state req)) as [session|];
        [|reflexivity].
      destruct (now p - timestamp session >? SESSION_TTL)%Z; reflexivity.
    + intros st0 post k Hbegin after.
      destruct (mobile_token_continuation _ _ _ _ _ _ _ Hbegin)
        as (_ & Hrej & Hok).
      unfold after. destruct answer as [data|err].
      * rewrite Hok. cbn [fst set_tokens set_sessions activeSessions userTokens].
        split; [now apply lookup_delete_ne|]. split; [intros err [=]|].
        intros id Hid. now apply lookup_insert_ne.
      * rewrite Hrej. cbn [fst]. repeat split; reflexivity.
Qed.

Lemma exchange_leaves_the_rest_witness :
  fst (Web.oauth_token Samples.env Samples.redeem (Samples.at_time 1)
         Samples.web_store) !! "S1"
  = Samples.web_store !! "S1".
Proof.
  apply (proj1 (proj1 (exchange_leaves_the_rest Samples.env Samples.redeem
                         (Samples.at_time 1) (Samples.at_time 2) "S1"
                         Samples.granted ltac:(discriminate))
                  Samples.web_store Samples.web_store)).
Defined.

(** ** The ten minutes of a session *)

(** X14. In the mobile backend a session is good up to and including its
    six-hundred-thousandth millisecond. One millisecond later the exchange
    is answered ["Session expired"] and the session is dropped, so that
    the same exchange tried again finds nothing, whatever the clock then
    says, and is answered ["Invalid or expired session"]. *)
Theorem mobile_session_ten_minutes (env : Env) (req : TokenBodyIn)
    (p : Platform) (st : Store) (sid : string) (session : Session) :
  JS.truthy (in_code req) = true ->
  in_state req = Some sid -> sid <> "" ->
  activeSessions st !! sid = Some session ->
  ((now p <= timestamp session + SESSION_TTL)%Z ->
   exists post k,
     oauth_token env req p st = (st, AwaitPost post k)
     /\ Provider.code_verifier post = Some (codeVerifier session))
  /\ ((now p > timestamp session + SESSION_TTL)%Z ->
      let dropped := set_sessions (delete sid) st in
      oauth_token env req p st
      = (dropped, Respond (fail 400 "Session expired"))
      /\ forall p2,
           oauth_token env req p2 dropped
           = (dropped, Respond (fail 400 "Invalid or expired session"))).
Proof.
  intros Hcode Hstate Hne Hlook. split.
  - intros Hfresh.
    destruct (ExchangeFacts.mobile_token_posts env req p st sid session
                Hcode Hstate Hne Hlook ltac:(lia))
      as (post & k & Hbegin & Hver & _).
    now exists post, k.
  - intros Hlate dropped. split.
    + exact (SessionFacts.mobile_session_expires env req p st sid session
               Hcode Hstate Hne Hlook Hlate).
    + intros p2. unfold oauth_token. rewrite Hcode, Hstate. cbn.
      destruct (String.eqb_spec sid ""); [contradiction|]. cbn.
      now rewrite lookup_delete_eq.
Qed.

Lemma mobile_session_ten_minutes_witness :
  (exists post k,
      oauth_token Samples.env Samples.exchange (Samples.at_time 600000)
        Samples.mobile_store = (Samples.mobile_store, AwaitPost post k)
      /\ Provider.code_verifier post = Some "abc")
  /\ oauth_token Samples.env Samples.exchange (Samples.at_time 600001)
       Samples.mobile_store
     = (set_sessions (delete "S1") Samples.mobile_store,
        Respond (fail 400 "Session expired")).
Proof.
  pose proof (mobile_session_ten_minutes Samples.env Samples.exchange
                (Samples.at_time 600000) Samples.mobile_store "S1"
                {| codeVerifier := "abc"; timestamp := 0; userAgent := "Expo" |}
                eq_refl eq_refl ltac:(discriminate) ltac:(vm_compute; reflexivity))
    as [Hgood _].
  pose proof (mobile_session_ten_minutes Samples.env Samples.exchange
                (Samples.at_time 600001) Samples.mobile_store "S1"
                {| codeVerifier := "abc"; timestamp := 0; userAgent := "Expo" |}
                eq_refl eq_refl ltac:(discriminate) ltac:(vm_compute; reflexivity))
    as [_ Hlate].
  split.
  - apply Hgood. vm_compute. discriminate.
  - apply Hlate. vm_compute. reflexivity.
Defined.

End StoreFacts.

(* ===================================================================== *)
(** * More properties of the picker                                       *)
(* ===================================================================== *)

Module PickerMoreFacts.
Import Picker Runs.

Section Run.

Variable accessToken : option string.
Variable photoPicker : string.
Variable server : nat -> FetchResult.
Hypothesis signed_in : JS.truthy accessToken = true.

Abbreviation fetchSelected' :=
  (fetchSelectedPhotos accessToken photoPicker server).

Abbreviation request' sessionId :=
  (Fetch (mediaItems_url photoPicker sessionId)
     ("Bearer " ++ JS.interp accessToken)).

(** A run stops at the first answer that is not "not ready", and at the
    fourth answer in any case. *)
Lemma fetchSelected_stops (sessionId : string) (retryCount calls : nat) :
  is_not_ready (server calls) = false \/ 3 <= retryCount ->
  fetchSelected' sessionId retryCount calls
  = ([request' sessionId], outcome_of (server calls)).
Proof.
  intros Hstop.
  rewrite fetchSelectedPhotos_equation_1. rewrite signed_in. cbn.
  destruct (server calls) as [msg|status error|items] eqn:Hserver;
    cbn; try reflexivity.
  unfold fetchSelectedPhotos_unfold_clause_1_clause_2_clause_3.
  destruct (lt_dec retryCount 3) as [Hlt|Hge].
  - destruct Hstop as [Hnr|?]; [|lia]. cbn in Hnr. now rewrite Hnr.
  - now destruct (not_ready error).
Qed.

Lemma pauses_step (retryCount n : nat) :
  1 <= n ->
  pauses retryCount (S n)
  = (N.of_nat (retryCount + 1) * 2000)%N :: pauses (retryCount + 1) n.
Proof.
  intros Hn. unfold pauses.
  replace (S n - 1) with (S (n - 1)) by lia.
  cbn [seq List.map]. f_equal; [f_equal; f_equal; lia|].
  rewrite <- seq_shift, List.map_map.
  apply List.map_ext. intros i. f_equal. f_equal. lia.
Qed.

Lemma run_shape (budget : nat) :
  forall sessionId retryCount calls,
    3 - retryCount <= budget -> retryCount <= 3 ->
    let run := fetchSelected' sessionId retryCount calls in
    let n := attempts (fst run) in
    1 <= n <= 4 - retryCount
    /\ delays (fst run) = pauses retryCount n
    /\ (forall i, i < n - 1 -> is_not_ready (server (calls + i)) = true)
    /\ snd run = outcome_of (server (calls + (n - 1))).
Proof.
  induction budget as [|budget IH]; intros sessionId retryCount calls Hb Hrc.
  - assert (retryCount = 3) by lia. subst.
    rewrite fetchSelected_stops by (right; lia). cbn.
    repeat split; try lia. now rewrite Nat.add_0_r.
  - destruct (is_not_ready (server calls)) eqn:Hnr.
    + destruct (Nat.eq_dec retryCount 3) as [->|Hne].
      * rewrite fetchSelected_stops by (right; lia). cbn.
        repeat split; try lia. now rewrite Nat.add_0_r.
      * destruct (server calls) as [msg|status error|items] eqn:Hserver;
          try discriminate. cbn in Hnr.
        rewrite (PickerFacts.fetchSelected_retry accessToken photoPicker server
                   signed_in sessionId retryCount calls status error
                   Hserver Hnr) by lia.
        specialize (IH sessionId (retryCount + 1) (calls + 1)
                      ltac:(lia) ltac:(lia)).
        cbn zeta in IH. destruct IH as ((Hn1 & Hn2) & Hd & Hnot & Hout).
        cbn [fst snd attempts delays].
        set (n := attempts (fst (fetchSelected' sessionId (retryCount + 1)
                                   (calls + 1)))) in *.
        split; [lia|]. split.
        { rewrite Hd. now rewrite pauses_step by lia. }
        split.
        { intros i Hi. destruct i as [|i].
          - rewrite Nat.add_0_r, Hserver. exact Hnr.
          - replace (calls + S i) with (calls + 1 + i) by lia.
            apply Hnot. lia. }
        rewrite Hout. f_equal. f_equal. lia.
    + rewrite fetchSelected_stops by (now left). cbn.
      repeat split; try lia. now rewrite Nat.add_0_r.
Qed.

(** A run that made fewer fetches than it was allowed stopped on an
    answer that was not "not ready". *)
Lemma run_stops_early (budget : nat) :
  forall sessionId retryCount calls,
    3 - retryCount <= budget -> retryCount <= 3 ->
    let run := fetchSelected' sessionId retryCount calls in
    attempts (fst run) < 4 - retryCount ->
    is_not_ready (server (calls + (attempts (fst run) - 1))) = false.
Proof.
  induction budget as [|budget IH]; intros sessionId retryCount calls Hb Hrc.
  - pose proof (run_shape 3 sessionId retryCount calls ltac:(lia) Hrc)
      as ((Hn & _) & _).
    cbn zeta. lia.
  - destruct (is_not_ready (server calls)) eqn:Hnr.
    + destruct (Nat.eq_dec retryCount 3) as [->|Hne].
      * pose proof (run_shape 3 sessionId 3 calls ltac:(lia) ltac:(lia))
          as ((Hn & _) & _).
        cbn zeta. lia.
      * destruct (server calls) as [msg|status error|items] eqn:Hserver;
          try discriminate. cbn in Hnr.
        cbn zeta.
        rewrite (PickerFacts.fetchSelected_retry accessToken photoPicker server
                   signed_in sessionId retryCount calls status error
                   Hserver Hnr) by lia.
        cbn [fst attempts].
        pose proof (run_shape 3 sessionId (retryCount + 1) (calls + 1)
                      ltac:(lia) ltac:(lia)) as ((Hm & _) & _).
        specialize (IH sessionId (retryCount + 1) (calls + 1)
                      ltac:(lia) ltac:(lia)).
        cbn zeta in IH, Hm. intros Hlt.
        set (m := attempts (fst (fetchSelected' sessionId (retryCount + 1)
                                   (calls + 1)))) in *.
        replace (calls + (S m - 1)) with (calls + 1 + (m - 1)) by lia.
        apply IH. lia.
    + cbn zeta. rewrite fetchSelected_stops by (now left). cbn.
      now rewrite Nat.add_0_r.
Qed.

End Run.

(** How many fetches a run makes, and its pauses. *)
Lemma run_pauses (accessToken : option string) (photoPicker : string)
    (server : nat -> FetchResult) (sessionId : string) (calls : nat) :
  JS.truthy accessToken = true ->
  let run := fetchSelectedPhotos accessToken photoPicker server sessionId 0 calls in
  let n := attempts (fst run) in
  1 <= n <= 4
  /\ delays (fst run) = firstn (n - 1) [2000; 4000; 6000]%N.
Proof.
  intros Htok run n.
  destruct (run_shape accessToken photoPicker server Htok 3 sessionId 0 calls
              ltac:(lia) ltac:(lia)) as ((Hn1 & Hn2) & Hd & _).
  fold run in Hn1, Hn2, Hd. fold n in Hn1, Hn2, Hd.
  split; [lia|]. rewrite Hd. unfold pauses.
  destruct n as [|[|[|[|[|n']]]]]; try lia; reflexivity.
Qed.

(** X15. A run of [fetchSelectedPhotos], signed in, is decided by the
    answers of the provider: it makes between one and four fetches, every
    answer before the last one said "not ready" (nothing else is ever
    retried), the pauses between the fetches are 2, 4 and 6 seconds in
    that order, and the run ends with what the last answer gives: the
    normalised photos of a successful listing, or the error of a failed
    one. *)
Theorem fetchSelectedPhotos_run (accessToken : option string)
    (photoPicker : string) (server : nat -> FetchResult)
    (sessionId : string) (calls : nat) :
  JS.truthy accessToken = true ->
  let run := fetchSelectedPhotos accessToken photoPicker server sessionId 0 calls in
  let n := attempts (fst run) in
  1 <= n <= 4
  /\ delays (fst run) = firstn (n - 1) [2000; 4000; 6000]%N
  /\ (forall i, i < n - 1 -> is_not_ready (server (calls + i)) = true)
  /\ (n < 4 -> is_not_ready (server (calls + (n - 1))) = false)
  /\ snd run = outcome_of (server (calls + (n - 1))).
Proof.
  intros Htok run n.
  destruct (run_shape accessToken photoPicker server Htok 3 sessionId 0 calls
              ltac:(lia) ltac:(lia)) as ((Hn1 & Hn2) & Hd & Hnot & Hout).
  fold run in Hn1, Hn2, Hd, Hnot, Hout. fold n in Hn1, Hn2, Hd, Hnot, Hout.
  split; [lia|]. split.
  { rewrite Hd. unfold pauses.
    destruct n as [|[|[|[|[|n']]]]]; try lia; reflexivity. }
  split; [exact Hnot|]. split; [|exact Hout].
  intros Hlt.
  apply (run_stops_early accessToken photoPicker server Htok 3 sessionId 0
           calls); [lia | lia |].
  fold run. fold n. lia.
Qed.

Lemma fetchSelectedPhotos_run_witness :
  let run := fetchSelectedPhotos (Some "token")
               "https://photospicker.googleapis.com/v1"
               Samples.ready_at_second "session" 0 0 in
  attempts (fst run) = 2
  /\ delays (fst run) = [2000%N]
  /\ snd run = Returned (transform (Some [Samples.picked])).
Proof.
  intros run.
  pose proof (fetchSelectedPhotos_run (Some "token")
                "https://photospicker.googleapis.com/v1"
                Samples.ready_at_second "session" 0 eq_refl)
    as (_ & Hd & _ & _ & Hout).
  assert (Hn : attempts (fst run) = 2) by (vm_compute; reflexivity).
  fold run in Hd, Hout. rewrite Hn in Hd, Hout.
  split; [exact Hn|]. split; [exact Hd | exact Hout].
Defined.

Lemma signed_out_no_fetch (accessToken : option string) (photoPicker : string)
    (server : nat -> FetchResult) (sessionId : string)
    (retryCount calls : nat) :
  JS.truthy accessToken = false ->
  fetchSelectedPhotos accessToken photoPicker server sessionId retryCount calls
  = ([], Thrown "No access token available").
Proof.
  intros H. rewrite fetchSelectedPhotos_equation_1. now rewrite H.
Qed.

(** X16. Whatever the provider answers, a call of [fetchSelectedPhotos]
    pauses for twelve seconds at most in all, so with fetches that take
    [latency] each it is over within [12000 + 4 * latency] milliseconds;
    and signed out it throws at once, without a fetch. *)
Theorem fetchSelectedPhotos_is_over_in_time (accessToken : option string)
    (photoPicker : string) (server : nat -> FetchResult)
    (sessionId : string) (calls : nat) (w : Flow.World) :
  let run := fetchSelectedPhotos accessToken photoPicker server sessionId 0 calls in
  (total (delays (fst run)) <= 12000)%N
  /\ (Flow.duration w (fst run) <= 12000 + 4 * Flow.latency w)%N
  /\ (JS.truthy accessToken = false ->
      run = ([], Thrown "No access token available")).
Proof.
  intros run.
  assert (H : (total (delays (fst run)) <= 12000)%N /\ attempts (fst run) <= 4).
  { destruct (JS.truthy accessToken) eqn:Htok.
    - destruct (run_pauses accessToken photoPicker server
                  sessionId calls Htok) as ((Hn1 & Hn2) & Hd).
      fold run in Hn1, Hn2, Hd. rewrite Hd. split; [|exact Hn2].
      destruct (attempts (fst run)) as [|[|[|[|[|n]]]]]; try lia;
        vm_compute; discriminate.
    - unfold run. rewrite signed_out_no_fetch by exact Htok.
      split; [vm_compute; discriminate | cbn; lia]. }
  destruct H as [Hp Ha].
  split; [exact Hp|]. split.
  - unfold Flow.duration. fold (total (delays (fst run))).
    assert (N.of_nat (attempts (fst run)) <= 4)%N by lia.
    nia.
  - intros Htok. unfold run. now apply signed_out_no_fetch.
Qed.

Lemma fetchSelectedPhotos_is_over_in_time_witness :
  fetchSelectedPhotos None "https://photospicker.googleapis.com/v1"
    (fun _ => HttpOk None) "session" 0 0
  = ([], Thrown "No access token available").
Proof.
  apply (proj2 (proj2 (fetchSelectedPhotos_is_over_in_time None
                         "https://photospicker.googleapis.com/v1"
                         (fun _ => HttpOk None) "session" 0
                         Samples.never_closed))).
  reflexivity.
Defined.

(** ** Normalisation *)

(** X17. The normalisation works item by item: the photos of two
    listings put end to end are the photos of the first followed by the
    photos of the second, a listing without [mediaItems] gives no photo,
    and every photo that comes out has a non-empty URL, exactly one
    thumbnail, and the id of the item it came from, in the order of the
    items. *)
Theorem transform_item_by_item (items items' : list MediaItem)
    (mediaItems : option (list MediaItem)) :
  transform (Some (items ++ items')%list)
    = (transform (Some items) ++ transform (Some items'))%list
  /\ transform None = []
  /\ transform (Some []) = []
  /\ Forall (fun photo =>
               photo_url photo <> "" /\ List.length (photo_thumbnails photo) = 1)
       (transform mediaItems)
  /\ List.map photo_id (transform mediaItems)
     = List.map id (List.filter has_baseUrl (default [] mediaItems)).
Proof.
  split; [|split; [|split; [|split]]]; try reflexivity.
  - rewrite !PickerFacts.transform_filter_map. simpl.
    now rewrite List.filter_app, List.map_app.
  - rewrite PickerFacts.transform_filter_map. apply List.Forall_forall.
    intros photo Hin. apply in_map_iff in Hin as (item & <- & Hitem).
    apply List.filter_In in Hitem as [_ Hhas]. split; [|reflexivity].
    unfold normalise, photo_of. cbn [photo_url].
    unfold has_baseUrl in Hhas.
    destruct (of_mediaFile baseUrl item) as [b|]; [|discriminate].
    cbn in *. intros ->. discriminate.
  - rewrite PickerFacts.transform_filter_map, List.map_map. reflexivity.
Qed.

End PickerMoreFacts.

(* ===================================================================== *)
(** * More properties of the picker window flow                           *)
(* ===================================================================== *)

Module RestFacts.
Import Flow Rest.

(** ** The timer that fires next *)

Lemma pick_potential (q : list Timer) (t : Timer) (rest : list Timer) :
  pick q = Some (t, rest) -> potential q = weight t + potential rest.
Proof.
  revert t rest. induction q as [|x q IH]; intros t rest; cbn [pick];
    [discriminate|].
  destruct (pick q) as [[t' r]|] eqn:Hq.
  - destruct (due t' <? due x)%N; intros [= <- <-].
    + cbn [potential fold_right]. fold (potential q) (potential r).
      rewrite (IH t' r eq_refl). lia.
    + reflexivity.
  - intros [= <- <-]. destruct q as [|y q]; [reflexivity|].
    cbn [pick] in Hq. destruct (pick q) as [[t' r]|]; [|discriminate].
    destruct (due t' <? due y)%N; discriminate.
Qed.

Lemma pick_Forall (P : Timer -> Prop) (q : list Timer) (t : Timer)
    (rest : list Timer) :
  pick q = Some (t, rest) -> Forall P q -> P t /\ Forall P rest.
Proof.
  revert t rest. induction q as [|x q IH]; intros t rest; cbn [pick];
    [discriminate|].
  intros Hpick Hall. apply Forall_cons_1 in Hall as [Hx Hq].
  destruct (pick q) as [[t' r]|] eqn:Hpq.
  - destruct (IH t' r eq_refl Hq) as [Ht' Hr].
    destruct (due t' <? due x)%N; injection Hpick as <- <-.
    + split; [exact Ht' | now constructor].
    + split; [exact Hx | exact Hq].
  - injection Hpick as <- <-. split; [exact Hx | constructor].
Qed.

Lemma pick_none (q : list Timer) : pick q = None -> q = [].
Proof.
  destruct q as [|x q]; [reflexivity|]. cbn [pick].
  destruct (pick q) as [[t r]|]; [|discriminate].
  destruct (due t <? due x)%N; discriminate.
Qed.

(** The timer picked is due no later than any other. *)
Lemma pick_earliest (q : list Timer) (t : Timer) (rest : list Timer) :
  pick q = Some (t, rest) -> Forall (fun x => (due t <= due x)%N) q.
Proof.
  revert t rest. induction q as [|x q IH]; intros t rest; cbn [pick];
    [discriminate|].
  destruct (pick q) as [[t' r]|] eqn:Hpq.
  - specialize (IH t' r eq_refl).
    destruct (N.ltb_spec (due t') (due x)); intros [= <- <-].
    + constructor; [lia | exact IH].
    + constructor; [lia|].
      apply (List.Forall_impl _ (P := fun y => (due t' <= due y)%N));
        [intros y Hy; lia | exact IH].
  - intros [= <- <-]. rewrite (pick_none q Hpq). repeat constructor. lia.
Qed.

(** ** Counting what is still to come *)

Lemma potential_app (q q' : list Timer) :
  potential (q ++ q') = potential q + potential q'.
Proof.
  induction q as [|t q IH]; [reflexivity|].
  cbn [app potential fold_right]. fold (potential (q ++ q')) (potential q).
  rewrite IH. lia.
Qed.

Lemma potential_clearInterval (q : list Timer) :
  potential (clearInterval q) <= potential q.
Proof.
  unfold clearInterval. induction q as [|t q IH]; [reflexivity|].
  cbn [List.filter]. destruct (negb (is_poll t));
    cbn [potential fold_right];
    fold (potential (List.filter (fun t => negb (is_poll t)) q)) (potential q);
    lia.
Qed.

Lemma weight_pos (t : Timer) : 1 <= weight t.
Proof.
  unfold weight. destruct (task t); try lia.
  generalize (N.to_nat ((31000 - due t) / 1000)). lia.
Qed.

Lemma potential_zero (q : list Timer) : potential q = 0 -> q = [].
Proof.
  destruct q as [|t q]; [reflexivity|]. cbn [potential fold_right].
  pose proof (weight_pos t). lia.
Qed.

Lemma Forall_clearInterval (P : Timer -> Prop) (q : list Timer) :
  Forall P q -> Forall P (clearInterval q).
Proof.
  unfold clearInterval. induction 1 as [|t q Ht Hq IH]; cbn [List.filter];
    [constructor|].
  destruct (negb (is_poll t)); [now constructor | exact IH].
Qed.

(** A pending timeout is among the timers. *)
Lemma pending_timeout (q : list Timer) :
  count hard_timeout q <> 0 -> exists h, In h q /\ task h = HardTimeout.
Proof.
  induction q as [|t q IH]; cbn [count]; [congruence|].
  destruct (task t) eqn:Ht; cbn [hard_timeout];
    try (intros H; destruct (IH H) as (h & Hin & Hh);
         exists h; split; [now right | exact Hh]).
  intros _. exists t. split; [now left | exact Ht].
Qed.

(** While the timeout is pending, the timer that fires is due within
    thirty seconds. *)
Lemma fires_within_30s (st : State) (t : Timer) (rest : list Timer) :
  timeout_at_30s st ->
  pick (queue st) = Some (t, rest) ->
  count hard_timeout (queue st) <> 0 ->
  (due t <= 30000)%N.
Proof.
  intros Hj Hpick Hhard.
  destruct (pending_timeout _ Hhard) as (h & Hin & Hh).
  pose proof (pick_earliest _ _ _ Hpick) as Hmin.
  rewrite List.Forall_forall in Hmin. specialize (Hmin h Hin).
  unfold timeout_at_30s in Hj. rewrite List.Forall_forall in Hj.
  rewrite (Hj h Hin Hh) in Hmin. exact Hmin.
Qed.

Lemma next_poll_weight (d : N) :
  (d <= 30000)%N ->
  weight {| due := d + 1000; task := CheckClosed |} + 1
  = weight {| due := d; task := CheckClosed |}.
Proof.
  intros Hd. unfold weight. cbn [task due].
  replace (31000 - d)%N with ((30000 - d) + 1 * 1000)%N by lia.
  replace (31000 - (d + 1000))%N with (30000 - d)%N by lia.
  rewrite N.div_add by lia. lia.
Qed.

(** The callback of the interval leaves strictly less to come. *)
Lemma checkClosed_rest (w : World) (st : State) (d : N) (before : nat) :
  clock st = d -> (d <= 30000)%N ->
  timeout_at_30s st ->
  potential (queue st) + weight {| due := d; task := CheckClosed |} = before ->
  potential (queue (checkClosed w st)) < before
  /\ timeout_at_30s (checkClosed w st)
  /\ clock (checkClosed w st) = d.
Proof.
  intros Hclock Hd Hj Hbefore. unfold checkClosed, with_queue, emit, setTimeout.
  cbn [queue clock log settled]. rewrite Hclock.
  pose proof (next_poll_weight d Hd) as Hnext.
  assert (H3 : 3 <= weight {| due := d + 1000; task := CheckClosed |}).
  { unfold weight. cbn [task due].
    generalize (N.to_nat ((31000 - (d + 1000)) / 1000)). lia. }
  set (next := {| due := d + 1000; task := CheckClosed |}) in *.
  set (this := {| due := d; task := CheckClosed |}) in *.
  assert (Hnext1 : potential [next] = weight next)
    by (cbn [potential fold_right]; lia).
  destruct (closed w d); cbn [queue clock].
  - split; [|split; [|reflexivity]].
    + rewrite potential_app.
      assert (Hcl : potential (clearInterval (queue st ++ [next]))
                    <= potential (queue st)).
      { unfold clearInterval. rewrite List.filter_app.
        change (List.filter (fun t => negb (is_poll t)) [next]) with (@nil Timer).
        rewrite app_nil_r. apply potential_clearInterval. }
      change (potential [{| due := d + 3000; task := DelayedFetch |}]) with 2.
      lia.
    + unfold timeout_at_30s. cbn [queue]. apply Forall_app. split.
      * apply Forall_clearInterval. apply Forall_app. split; [exact Hj|].
        repeat constructor. cbn. discriminate.
      * repeat constructor. cbn. discriminate.
  - split; [|split; [|reflexivity]].
    + rewrite potential_app. lia.
    + unfold timeout_at_30s. cbn [queue]. apply Forall_app. split; [exact Hj|].
      repeat constructor. cbn. discriminate.
Qed.

Lemma start_on_time : on_time start.
Proof.
  split.
  - unfold timeout_at_30s. cbn. repeat constructor; cbn; congruence.
  - cbn. lia.
Qed.

Ltac new_timer :=
  unfold timeout_at_30s; cbn [queue];
  repeat first
    [ apply Forall_app; split
    | apply Forall_clearInterval
    | assumption
    | repeat constructor; cbn; discriminate ].

Ltac tally :=
  unfold emit, with_queue, setTimeout, settle in *;
  cbn [queue log clock settled] in *;
  repeat first
    [ rewrite potential_app
    | rewrite FlowFacts.count_app
    | rewrite (FlowFacts.count_clearInterval_other hard_timeout) by reflexivity ];
  cbn [count task hard_timeout] in *.

Ltac wrap Hpot Hhard Hfire :=
  unfold on_time; tally;
  unfold weight in Hpot; cbn [task hard_timeout] in Hpot, Hhard;
  (split;
   [ intros _; cbn [potential fold_right]; unfold weight; cbn [task]; lia
   | split; [ new_timer | intros; first [ lia | apply Hfire; lia ] ] ]).

Section Steps.

Variable accessToken : option string.
Variable photoPicker : string.
Variable server : nat -> Picker.FetchResult.
Variable sessionId : string.
Variable w : World.

Abbreviation app_exec :=
  (exec_app accessToken photoPicker server sessionId w).

(** One callback of either client: less is left to come, and the run
    stays on time. *)
Lemma step_rest (budget : nat) (exec : Task -> State -> State) (st : State) :
  exec = exec_web w \/ exec = app_exec ->
  Inv budget st -> on_time st ->
  (queue st <> [] ->
   potential (queue (step exec st)) < potential (queue st))
  /\ on_time (step exec st).
Proof.
  intros Hexec Hinv [Hj Hk]. unfold step.
  destruct (pick (queue st)) as [[t rest]|] eqn:Hpick.
  2:{ rewrite (pick_none _ Hpick). split; [congruence | now split]. }
  pose proof (pick_potential _ _ _ Hpick) as Hpot.
  pose proof (FlowFacts.pick_count hard_timeout _ _ _ Hpick) as Hhard.
  pose proof (FlowFacts.pick_count polls _ _ _ Hpick) as Hpolls.
  destruct (pick_Forall _ _ _ _ Hpick Hj) as [Hjt Hjrest].
  assert (Hfire : count hard_timeout (queue st) <> 0 -> (due t <= 30000)%N)
    by (intros H; exact (fires_within_30s st t rest Hj Hpick H)).
  destruct Hinv as [_ Htimeout _ Hone].
  destruct t as [d tk]. cbn [task due] in *.
  set (st1 := {| clock := d; queue := rest; log := log st;
                 settled := settled st |}).
  assert (Hj1 : timeout_at_30s st1) by exact Hjrest.
  destruct tk.
  2-6: subst st1.
  - (* the poller *)
    assert (Hd : (d <= 30000)%N).
    { apply Hfire. intros H0. specialize (Htimeout H0).
      cbn [polls] in Hpolls. lia. }
    assert (Hcheck : exec CheckClosed st1 = checkClosed w st1)
      by (destruct Hexec as [-> | ->]; reflexivity).
    rewrite Hcheck.
    destruct (checkClosed_rest w st1 d (potential (queue st)) eq_refl Hd Hj1)
      as (Hlt & Hj' & Hc').
    { subst st1. cbn [queue]. lia. }
    split; [intros _; exact Hlt|]. split; [exact Hj'|].
    intros _. now rewrite Hc'.
  - (* the delayed fetch *)
    destruct Hexec as [-> | ->]; cbn [exec_web exec_app]; wrap Hpot Hhard Hfire.
  - (* the timeout *)
    assert (Hd : d = 30000%N) by (now apply Hjt). subst d.
    pose proof (potential_clearInterval rest) as Hclear.
    destruct Hexec as [-> | ->]; cbn [exec_web exec_app];
      try (unfold settle; cbn [settled emit with_queue];
           destruct (settled st));
      wrap Hpot Hhard Hfire.
  - (* the answer to the delayed fetch *)
    destruct Hexec as [-> | ->]; cbn [exec_web exec_app];
      try destruct (answer w n); wrap Hpot Hhard Hfire.
  - (* the answer to the timeout's fetch *)
    destruct Hexec as [-> | ->]; cbn [exec_web exec_app];
      try destruct (answer w n); wrap Hpot Hhard Hfire.
  - (* the promise is settled *)
    destruct Hexec as [-> | ->]; cbn [exec_web exec_app];
      try (destruct o; unfold settle; cbn [settled emit with_queue];
           destruct (settled st));
      wrap Hpot Hhard Hfire.
Qed.

End Steps.

Section Runs.

Variable accessToken : option string.
Variable photoPicker : string.
Variable server : nat -> Picker.FetchResult.
Variable sessionId : string.
Variable w : World.

Abbreviation app_exec' :=
  (exec_app accessToken photoPicker server sessionId w).

Lemma steps_keep (budget : nat) (exec : Task -> State -> State) :
  (exec = exec_web w /\ budget = 2) \/ (exec = app_exec' /\ budget = 1) ->
  forall n st, Inv budget st -> on_time st ->
    Inv budget (steps exec n st) /\ on_time (steps exec n st).
Proof.
  intros Hexec n. induction n as [|n IH]; intros st Hinv Hon; [now split|].
  cbn [steps]. apply IH.
  - destruct Hexec as [[-> ->] | [-> ->]];
      [apply FlowFacts.step_web_inv | apply FlowFacts.step_app_inv]; exact Hinv.
  - apply (step_rest accessToken photoPicker server sessionId w budget exec st);
      [destruct Hexec as [[-> _] | [-> _]]; tauto | exact Hinv | exact Hon].
Qed.

Lemma comes_to_rest (budget : nat) (exec : Task -> State -> State) :
  (exec = exec_web w /\ budget = 2) \/ (exec = app_exec' /\ budget = 1) ->
  forall n st, Inv budget st -> on_time st ->
    potential (queue st) <= n -> queue (steps exec n st) = [].
Proof.
  intros Hexec n. induction n as [|n IH]; intros st Hinv Hon Hpot.
  - apply potential_zero. cbn [steps]. lia.
  - cbn [steps].
    assert (Hor : exec = exec_web w \/ exec = app_exec')
      by (destruct Hexec as [[-> _] | [-> _]]; tauto).
    destruct (step_rest accessToken photoPicker server sessionId w budget exec
                st Hor Hinv Hon) as [Hless Hon'].
    apply IH.
    + destruct Hexec as [[-> ->] | [-> ->]];
        [apply FlowFacts.step_web_inv | apply FlowFacts.step_app_inv];
        exact Hinv.
    + exact Hon'.
    + destruct (queue st) as [|t q] eqn:Hq.
      * unfold step. rewrite Hq. cbn [pick]. rewrite Hq. cbn. lia.
      * assert (Hne : t :: q <> []) by discriminate.
        specialize (Hless Hne). lia.
Qed.

Lemma at_rest (exec : Task -> State -> State) (st : State) (m : nat) :
  queue st = [] -> steps exec m st = st.
Proof.
  intros Hq. induction m as [|m IH]; [reflexivity|].
  cbn [steps]. unfold step. rewrite Hq. cbn [pick]. exact IH.
Qed.

End Runs.

Lemma steps_timed_out (accessToken : option string) (photoPicker : string)
    (server : nat -> Picker.FetchResult) (sessionId : string) (w : World)
    (n : nat) :
  timed_out (steps (exec_app accessToken photoPicker server sessionId w) n start).
Proof.
  induction n as [|k IH].
  - cbn. discriminate.
  - replace (S k) with (k + 1) by lia. rewrite FlowFacts.steps_add.
    cbn [steps]. apply FlowFacts.step_app_timed_out, IH.
Qed.

(** After 35 callbacks no timer is left in either client. *)
Lemma rest_after_35 (accessToken : option string)
    (photoPicker : string) (server : nat -> Picker.FetchResult)
    (sessionId : string) (w : World) :
  queue (steps (exec_web w) 35 start) = []
  /\ queue (steps (exec_app accessToken photoPicker server sessionId w) 35
              start) = [].
Proof.
  split.
  - apply (comes_to_rest accessToken photoPicker server sessionId w 2);
      [left; now split | apply FlowFacts.start_inv; lia
      | apply start_on_time | vm_compute; lia].
  - apply (comes_to_rest accessToken photoPicker server sessionId w 1);
      [right; now split | apply FlowFacts.start_inv; lia
      | apply start_on_time | vm_compute; lia].
Qed.

(** X18. The picker flow always comes to rest. Whenever the window is
    closed, or never, and whatever the fetches answer, after at most 35
    callbacks no timer is pending in either client, and nothing happens
    from then on: no interval or timeout is left dangling. *)
Theorem picker_flow_comes_to_rest (accessToken : option string)
    (photoPicker : string) (server : nat -> Picker.FetchResult)
    (sessionId : string) (w : World) (m : nat) :
  let exec := exec_app accessToken photoPicker server sessionId w in
  queue (steps (exec_web w) 35 start) = []
  /\ queue (steps exec 35 start) = []
  /\ steps (exec_web w) (35 + m) start = steps (exec_web w) 35 start
  /\ steps exec (35 + m) start = steps exec 35 start.
Proof.
  intros exec.
  destruct (rest_after_35 accessToken photoPicker server sessionId w)
    as [Hweb Happ].
  fold exec in Happ.
  split; [exact Hweb|]. split; [exact Happ|].
  split; rewrite FlowFacts.steps_add; now apply at_rest.
Qed.

(** X19. Past the thirtieth second nothing is open any more: in any
    state of a run whose clock is past 30000 the timeout has fired, no
    poll is pending, and in index.tsx the promise of [openPhotoPicker] is
    settled. *)
Theorem picker_flow_past_30s (accessToken : option string)
    (photoPicker : string) (server : nat -> Picker.FetchResult)
    (sessionId : string) (w : World) (n : nat) :
  let web := steps (exec_web w) n start in
  let app := steps (exec_app accessToken photoPicker server sessionId w) n
               start in
  ((clock web > 30000)%N ->
   count hard_timeout (queue web) = 0 /\ count polls (queue web) = 0)
  /\ ((clock app > 30000)%N ->
      count hard_timeout (queue app) = 0 /\ count polls (queue app) = 0
      /\ exists o, settled app = Some o).
Proof.
  intros web app.
  destruct (steps_keep accessToken photoPicker server sessionId w 2
              (exec_web w) ltac:(left; now split) n start
              (FlowFacts.start_inv 2 ltac:(lia)) start_on_time)
    as [[_ Wt _ _] [_ Wk]].
  destruct (steps_keep accessToken photoPicker server sessionId w 1
              (exec_app accessToken photoPicker server sessionId w)
              ltac:(right; now split) n start
              (FlowFacts.start_inv 1 ltac:(lia)) start_on_time)
    as [[_ At _ _] [_ Ak]].
  fold web in Wt, Wk. fold app in At, Ak.
  split.
  - intros Hlate.
    assert (H0 : count hard_timeout (queue web) = 0).
    { destruct (Nat.eq_dec (count hard_timeout (queue web)) 0) as [H|H];
        [exact H|]. specialize (Wk H). lia. }
    split; [exact H0 | exact (Wt H0)].
  - intros Hlate.
    assert (H0 : count hard_timeout (queue app) = 0).
    { destruct (Nat.eq_dec (count hard_timeout (queue app)) 0) as [H|H];
        [exact H|]. specialize (Ak H). lia. }
    split; [exact H0|]. split; [exact (At H0)|].
    exact (steps_timed_out accessToken photoPicker server sessionId w n H0).
Qed.

Lemma picker_flow_past_30s_witness :
  let app := steps (exec_app (Some "token")
                      "https://photospicker.googleapis.com/v1"
                      (fun _ => Picker.HttpOk None) "session"
                      Samples.closed_late) 31 start in
  clock app = 32000%N
  /\ count polls (queue app) = 0
  /\ exists o, settled app = Some o.
Proof.
  intros app.
  pose proof (picker_flow_past_30s (Some "token")
                "https://photospicker.googleapis.com/v1"
                (fun _ => Picker.HttpOk None) "session" Samples.closed_late 31)
    as [_ Happ].
  assert (Hclock : clock app = 32000%N) by (vm_compute; reflexivity).
  fold app in Happ. rewrite Hclock in Happ.
  destruct (Happ ltac:(lia)) as (_ & Hp & Hs).
  split; [exact Hclock|]. split; [exact Hp | exact Hs].
Defined.

(** ** A window that stays open *)

Lemma stays_open_closed (w : World) (t : N) :
  stays_open w -> closed w t = false.
Proof. unfold stays_open, closed. now intros ->. Qed.

Lemma quiet_no_fetch (l : list (N * Ev)) :
  forallb (fun x => quiet (snd x)) l = true -> fetches l = 0.
Proof.
  induction l as [|[t e] l IH]; [reflexivity|]. cbn [forallb snd fetches].
  intros H. apply andb_prop in H as [He Hl].
  destruct e; try discriminate; now apply IH.
Qed.

Lemma forallb_snoc {A} (f : A -> bool) (l : list A) (x : A) :
  forallb f (l ++ [x]) = forallb f l && f x.
Proof. rewrite forallb_app. cbn. now rewrite andb_true_r. Qed.

Section Open.

Variable accessToken : option string.
Variable photoPicker : string.
Variable server : nat -> Picker.FetchResult.
Variable sessionId : string.
Variable w : World.
Hypothesis open : stays_open w.

Abbreviation exec_open :=
  (exec_app accessToken photoPicker server sessionId w).

Lemma step_waiting (st : State) : waiting st -> waiting (step exec_open st).
Proof.
  intros (Hq & Hlog & Hset & Hdone). unfold step.
  destruct (pick (queue st)) as [[t rest]|] eqn:Hpick;
    [|now repeat split].
  destruct (pick_Forall _ _ _ _ Hpick Hq) as [Ht Hrest].
  pose proof (FlowFacts.pick_count hard_timeout _ _ _ Hpick) as Hhard.
  destruct t as [d tk]. cbn [task] in *.
  destruct Ht as [-> | ->]; cbn [exec_app hard_timeout] in *.
  - unfold checkClosed, with_queue, emit, setTimeout.
    cbn [clock queue log settled].
    rewrite stays_open_closed by exact open.
    unfold waiting. cbn [queue log settled].
    split; [|split; [|split]].
    + apply Forall_app. split; [exact Hrest|]. repeat constructor.
    + rewrite forallb_snoc, Hlog. reflexivity.
    + exact Hset.
    + rewrite FlowFacts.count_app. cbn [count task hard_timeout].
      intros H. apply Hdone. lia.
  - unfold settle, with_queue, emit. cbn [clock queue log settled].
    unfold waiting.
    destruct (settled st) as [o|] eqn:Ho; cbn [queue log settled].
    + destruct Hset as [Hnone|Hsome]; [discriminate|].
      split; [now apply Forall_clearInterval|].
      split; [rewrite forallb_snoc, Hlog; reflexivity|].
      split; [now right | intros _; exact Hsome].
    + split; [now apply Forall_clearInterval|].
      split; [rewrite forallb_snoc, Hlog; reflexivity|].
      split; [now right | reflexivity].
Qed.

Lemma step_waiting_web (st : State) :
  waiting_web st -> waiting_web (step (exec_web w) st).
Proof.
  intros (Hq & Hlog & Hone). unfold step.
  destruct (pick (queue st)) as [[t rest]|] eqn:Hpick;
    [|now repeat split].
  destruct (pick_Forall _ _ _ _ Hpick Hq) as [Ht Hrest].
  pose proof (FlowFacts.pick_count hard_timeout _ _ _ Hpick) as Hhard.
  destruct t as [d tk]. unfold idle in Ht. cbn [task] in *.
  destruct tk; try discriminate; cbn [exec_web hard_timeout] in *.
  - unfold checkClosed, with_queue, emit, setTimeout.
    cbn [clock queue log settled].
    rewrite stays_open_closed by exact open.
    unfold waiting_web. cbn [queue log].
    split; [|split].
    + apply Forall_app. split; [exact Hrest|]. repeat constructor.
    + rewrite forallb_snoc, Hlog. reflexivity.
    + rewrite FlowFacts.fetches_app, FlowFacts.count_app.
      cbn [fetches count task hard_timeout]. lia.
  - unfold with_queue, emit, setTimeout. cbn [clock queue log settled].
    unfold waiting_web. cbn [queue log].
    split; [|split].
    + apply Forall_app. split; [now apply Forall_clearInterval|].
      repeat constructor.
    + rewrite forallb_snoc, Hlog. reflexivity.
    + rewrite FlowFacts.fetches_app, FlowFacts.count_app,
        (FlowFacts.count_clearInterval_other hard_timeout) by reflexivity.
      cbn [fetches count task hard_timeout]. lia.
  - destruct (answer w n); unfold emit; unfold waiting_web;
      cbn [clock queue log settled].
    + split; [exact Hrest|].
      split; [rewrite forallb_snoc, Hlog; reflexivity|].
      rewrite FlowFacts.fetches_app. cbn [fetches]. lia.
    + split; [exact Hrest|]. split; [exact Hlog | lia].
Qed.

Lemma steps_waiting (n : nat) :
  waiting (steps exec_open n start)
  /\ waiting_web (steps (exec_web w) n start).
Proof.
  split.
  - induction n as [|k IH].
    + unfold waiting. cbn. split; [repeat constructor; tauto|].
      split; [reflexivity|]. split; [now left | lia].
    + replace (S k) with (k + 1) by lia. rewrite FlowFacts.steps_add.
      cbn [steps]. apply step_waiting, IH.
  - induction n as [|k IH].
    + unfold waiting_web. cbn. split; [repeat constructor|].
      split; reflexivity.
    + replace (S k) with (k + 1) by lia. rewrite FlowFacts.steps_add.
      cbn [steps]. apply step_waiting_web, IH.
Qed.

End Open.

(** X20. When the picker window is never closed, index.tsx never fetches
    the media items: it only polls, and its promise ends rejected with
    ["Photo picker timeout"]. src/AppSecure.js polls too, shows no alert,
    and fetches the media items exactly once, from its timeout. *)
Theorem window_never_closed (accessToken : option string)
    (photoPicker : string) (server : nat -> Picker.FetchResult)
    (sessionId : string) (w : World) (n : nat) :
  stays_open w ->
  let exec := exec_app accessToken photoPicker server sessionId w in
  let app := steps exec n start in
  let web := steps (exec_web w) n start in
  (fetches (log app) = 0
   /\ forallb (fun x => quiet (snd x)) (log app) = true
   /\ settled (steps exec 35 start)
      = Some (Picker.Thrown "Photo picker timeout"))
  /\ (fetches (log web) <= 1
      /\ forallb (fun x => quiet_web (snd x)) (log web) = true
      /\ fetches (log (steps (exec_web w) 35 start)) = 1).
Proof.
  intros Hopen exec app web.
  destruct (steps_waiting accessToken photoPicker server sessionId w Hopen n)
    as [(_ & Alog & _ & _) (_ & Wlog & Wone)].
  destruct (steps_waiting accessToken photoPicker server sessionId w Hopen 35)
    as [(_ & _ & _ & Adone) (_ & _ & Wone35)].
  destruct (rest_after_35 accessToken photoPicker server sessionId w)
    as [Wrest Arest].
  fold exec in Arest, Adone. fold app in Alog. fold web in Wlog, Wone.
  split; [split; [|split]|split; [|split]].
  - now apply quiet_no_fetch.
  - exact Alog.
  - apply Adone. now rewrite Arest.
  - lia.
  - exact Wlog.
  - rewrite Wrest in Wone35. cbn [count] in Wone35. lia.
Qed.

Lemma window_never_closed_witness :
  settled (steps (exec_app (Some "token")
                    "https://photospicker.googleapis.com/v1"
                    (fun _ => Picker.HttpOk None) "session" Samples.never_closed)
             35 start)
  = Some (Picker.Thrown "Photo picker timeout").
Proof.
  exact (proj2 (proj2 (proj1 (window_never_closed (Some "token")
           "https://photospicker.googleapis.com/v1"
           (fun _ => Picker.HttpOk None) "session" Samples.never_closed 0
           eq_refl)))).
Defined.

End RestFacts.

(* ===================================================================== *)
(** * Properties of the client's service                                  *)
(* ===================================================================== *)

Module ClientFacts.
Import Client.

(** X21. What [exchangeCodeForToken] leaves in the service. It reports
    success only with a token in place, the one just received. But it
    keeps the received tokens as soon as the answer carries an access
    token, before it fetches the profile: when that fetch fails the
    result says failure and the service is signed in all the same. Only
    when no access token came does the service stay as it was. *)
Theorem exchange_keeps_the_token (ep : Endpoints) (svc : Service)
    (token : TokenFetch) (profileAnswer : ApiFetch) :
  let after := fst (exchangeCodeForToken ep svc token profileAnswer) in
  let result := snd (exchangeCodeForToken ep svc token profileAnswer) in
  (success result = true ->
   exists data json,
     token = TokenJsonOf data /\ profileAnswer = ApiOk (inr json)
     /\ JS.truthy (accessToken after) = true
     /\ accessToken after = j_access_token data
     /\ refreshToken after = j_refresh_token data
     /\ profile result = Some json)
  /\ (forall data,
        token = TokenJsonOf data -> JS.truthy (j_access_token data) = true ->
        accessToken after = j_access_token data
        /\ refreshToken after = j_refresh_token data
        /\ (success result = false
            <-> forall json, profileAnswer <> ApiOk (inr json)))
  /\ ((forall data, token = TokenJsonOf data ->
         JS.truthy (j_access_token data) = false) ->
      after = svc /\ success result = false).
Proof.
  intros after result. unfold after, result, exchangeCodeForToken.
  split; [|split].
  - destruct token as [e|data]; [discriminate|].
    destruct (JS.truthy (j_access_token data)) eqn:Htok; [|discriminate].
    unfold call. cbn [accessToken]. rewrite Htok. cbn [negb snd].
    destruct profileAnswer as [e|status body|[e|json]]; try discriminate.
    intros _. exists data, json. cbn. now rewrite Htok.
  - intros data -> Htok. rewrite Htok. unfold call. cbn [accessToken].
    rewrite Htok. cbn [negb snd].
    destruct profileAnswer as [e|status body|[e|json]]; cbn;
      (split; [reflexivity|]); (split; [reflexivity|]);
      split; try discriminate; try reflexivity.
    intros H. now contradiction (H json).
  - intros Hnone. destruct token as [e|data]; [now split|].
    rewrite (Hnone data eq_refl). now split.
Qed.

Lemma exchange_keeps_the_token_witness :
  let run := exchangeCodeForToken Samples.endpoints
               {| accessToken := None; refreshToken := None |}
               (TokenJsonOf {| j_access_token := Some "ya29.access";
                               j_refresh_token := Some "1//refresh";
                               j_error_description := None |})
               (ApiNotOk 403 (inr None)) in
  accessToken (fst run) = Some "ya29.access"
  /\ refreshToken (fst run) = Some "1//refresh"
  /\ success (snd run) = false.
Proof.
  intros run.
  destruct (proj1 (proj2 (exchange_keeps_the_token Samples.endpoints
                            {| accessToken := None; refreshToken := None |}
                            (TokenJsonOf {| j_access_token := Some "ya29.access";
                                            j_refresh_token := Some "1//refresh";
                                            j_error_description := None |})
                            (ApiNotOk 403 (inr None))))
              _ eq_refl eq_refl) as (Ha & Hr & Hs).
  split; [exact Ha|]. split; [exact Hr|].
  apply Hs. intros json. discriminate.
Defined.

(** X22. After [clearTokens()] every call of the service fails at once:
    the profile, the drive files, the calendar, the picker session and
    the selected photos all throw ["No access token available"] and no
    request leaves the client. With a token in place each of the first
    four makes exactly one request, whatever the answer, and it carries
    [Bearer <token>]. *)
Theorem signed_out_calls_fail_fast (ep : Endpoints) (svc : Service)
    (m : ApiMethod) (answer : ApiFetch) (server : nat -> Picker.FetchResult)
    (sessionId : string) (retryCount calls : nat) :
  call ep (clearTokens svc) m answer
  = ([], inl (Error "No access token available"))
  /\ Picker.fetchSelectedPhotos (accessToken (clearTokens svc)) (photoPicker ep)
       server sessionId retryCount calls
     = ([], Picker.Thrown "No access token available")
  /\ (JS.truthy (accessToken svc) = true ->
      fst (call ep svc m answer)
      = [Picker.Fetch (url_of ep m)
           ("Bearer " ++ JS.interp (accessToken svc))]).
Proof.
  split; [reflexivity|]. split.
  - now apply PickerMoreFacts.signed_out_no_fetch.
  - intros H. unfold call. now rewrite H.
Qed.

Lemma signed_out_calls_fail_fast_witness :
  fst (call Samples.endpoints
         {| accessToken := Some "ya29.access"; refreshToken := None |}
         FetchDriveFiles (ApiOk (inr "{}")))
  = [Picker.Fetch (url_of Samples.endpoints FetchDriveFiles)
       "Bearer ya29.access"].
Proof.
  apply (proj2 (proj2 (signed_out_calls_fail_fast Samples.endpoints
                         {| accessToken := Some "ya29.access";
                            refreshToken := None |}
                         FetchDriveFiles (ApiOk (inr "{}"))
                         (fun _ => Picker.HttpOk None) "session" 0 0))).
  reflexivity.
Defined.

End ClientFacts.

(* ===================================================================== *)
(** * Properties of the browser application's effects                     *)
(* ===================================================================== *)

Module BrowserFacts.
Import Browser.

Lemma first_render_profile_call (google : Mobile.Upstream -> Answer string) :
  profile_call first_render google
  = Threw "Missing or invalid authorization header".
Proof. reflexivity. Qed.

(** X23. In src/AppSecure.js the effects run with the access token of
    the first render, which is [null], whatever [setAccessToken] was given
    meanwhile. So the OAuth callback stores the token it is granted and
    then asks for the profile without an [Authorization] header: the web
    backend refuses with 401 before it calls Google, and the callback
    ends with the alert ["Authentication failed"]. It never sets the
    profile, never removes [oauth_session_id] and never shows the success
    alert. Likewise a token found in [localStorage] at start is set, and
    the profile fetched for it fails. *)
Theorem callback_fails_after_storing_token (page : Page)
    (tokenData : Answer (option string))
    (google : Mobile.Upstream -> Answer string) (stored : option string) :
  let run := callback_effect first_render page tokenData google in
  (forall profileData, ~ In (SetProfile profileData) run)
  /\ ~ In RemoveItem_oauth_session_id run
  /\ ~ In (Alert "Successfully signed in with Google!") run
  /\ (forall google', callback_effect first_render page tokenData google' = run)
  /\ (forall access_token,
        JS.truthy (code page) = true -> JS.truthy (state page) = true ->
        oauth_session_id page = state page ->
        tokenData = Got access_token ->
        run = [ApiCall_token None (JS.interp (code page))
                 (JS.interp (state page));
               SetItem_access_token (JS.interp access_token);
               SetAccessToken access_token;
               ApiCall_profile bare_request;
               Alert "Authentication failed"])
  /\ (JS.truthy stored = true ->
      mount_effect first_render stored google
      = [SetAccessToken stored; ApiCall_profile bare_request;
         Alert "Failed to fetch profile"]).
Proof.
  intros run.
  assert (Hrun : run = [] \/
            (exists c s, run = [ApiCall_token None c s;
                                Alert "Authentication failed"]) \/
            (exists c s tok,
               run = [ApiCall_token None c s;
                      SetItem_access_token (JS.interp tok);
                      SetAccessToken tok; ApiCall_profile bare_request;
                      Alert "Authentication failed"])).
  { unfold run, callback_effect.
    destruct (JS.truthy (code page) && JS.truthy (state page)); [|now left].
    destruct (strict_eq (oauth_session_id page) (state page)); [|now left].
    right. unfold exchangeToken. rewrite first_render_profile_call.
    destruct tokenData as [message|tok].
    - left. now exists (JS.interp (code page)), (JS.interp (state page)).
    - right. now exists (JS.interp (code page)), (JS.interp (state page)), tok. }
  split; [|split; [|split; [|split; [|split]]]].
  - intros profileData Hin.
    destruct Hrun as [->|[(c & s & ->)|(c & s & tok & ->)]]; cbn in Hin;
      intuition discriminate.
  - intros Hin.
    destruct Hrun as [->|[(c & s & ->)|(c & s & tok & ->)]]; cbn in Hin;
      intuition discriminate.
  - intros Hin.
    destruct Hrun as [->|[(c & s & ->)|(c & s & tok & ->)]]; cbn in Hin;
      intuition discriminate.
  - intros google'. unfold run, callback_effect, exchangeToken.
    now rewrite !first_render_profile_call.
  - intros access_token Hcode Hstate Hsame ->.
    unfold run, callback_effect. rewrite Hcode, Hstate, Hsame.
    assert (Heq : strict_eq (state page) (state page) = true).
    { destruct (state page) as [s|]; [apply String.eqb_refl | reflexivity]. }
    cbn [andb]. rewrite Heq. unfold exchangeToken.
    now rewrite first_render_profile_call.
  - intros Hstored. unfold mount_effect, fetchProfile. rewrite Hstored.
    now rewrite first_render_profile_call.
Qed.

Lemma callback_fails_after_storing_token_witness :
  callback_effect first_render
    {| code := Some "4/0Ab"; state := Some "S1"; oauth_session_id := Some "S1" |}
    (Got (Some "ya29.access")) (fun _ => Got "{}")
  = [ApiCall_token None "4/0Ab" "S1";
     SetItem_access_token "ya29.access";
     SetAccessToken (Some "ya29.access");
     ApiCall_profile bare_request;
     Alert "Authentication failed"].
Proof.
  exact (proj1 (proj2 (proj2 (proj2 (proj2
           (callback_fails_after_storing_token
              {| code := Some "4/0Ab"; state := Some "S1";
                 oauth_session_id := Some "S1" |}
              (Got (Some "ya29.access")) (fun _ => Got "{}") None)))))
           (Some "ya29.access") eq_refl eq_refl eq_refl eq_refl).
Defined.

End BrowserFacts.
